(** * GitSavvy diff view: a shallow embedding of [core/commands/diff.py]

    The development follows the layout of the Python module: Python
    primitives first (strings, indexing, exceptions), then the hunk model
    ([split_hunk], [_recount_lines]), the coordinate mapper
    ([real_rowcol_in_hunk]), the diff index ([parse_diff_in_view],
    [head_and_hunk_for_pt]), relocation ([find_hunk_in_view],
    [shrink_list_sym]) and finally the commands that act on a view
    (refresh, toggle, stage/reset).

    Conventions.
    - A Python [str] is a [list ascii]; every [ascii] stands for one code
      point below 256.
    - Python [int]s (offsets, rows, columns, line numbers) are [Z].
    - A Python call that may raise returns a [result]. *)

From Stdlib Require Import ZArith Ascii String List Lia DecimalString.
From stdpp Require Import base list gmap strings sorting.
From Equations Require Import Equations.
Import ListNotations.

Local Open Scope Z_scope.

(** ** Python primitives *)

Abbreviation text := (list ascii).

(** A literal of the source, as a list of characters. *)
Definition str (s : string) : text := list_ascii_of_string s.

Definition LF : ascii := "010"%char.

Inductive exn : Type :=
| IndexError
| ValueError
| AttributeError
| TypeError
| GitSavvyError (decode_failure : bool).

Inductive result (A : Type) : Type :=
| Ok (a : A)
| Raise (e : exn).
Arguments Ok {A} a.
Arguments Raise {A} e.

Definition bind {A B} (r : result A) (k : A -> result B) : result B :=
  match r with
  | Ok a => k a
  | Raise e => Raise e
  end.

Notation "'let!' x ':=' r 'in' k" := (bind r (fun x => k))
  (at level 10, x name, r at level 100, k at level 200).

Definition len {A} (l : list A) : Z := Z.of_nat (length l).

Definition ascii_eqb (a b : ascii) : bool := Ascii.eqb a b.

(** [str.isspace] on one code point below 256. *)
Definition isspace (c : ascii) : bool :=
  let n := nat_of_ascii c in
  ((9 <=? n)%nat && (n <=? 13)%nat)
  || ((28 <=? n)%nat && (n <=? 32)%nat)
  || (n =? 133)%nat
  || (n =? 160)%nat.

(** [\d] of the [re] module on one code point below 256. *)
Definition isdigit (c : ascii) : bool :=
  let n := nat_of_ascii c in (48 <=? n)%nat && (n <=? 57)%nat.

(** [itertools.dropwhile] and [itertools.takewhile]. *)
Fixpoint dropwhile {A} (p : A -> bool) (l : list A) : list A :=
  match l with
  | [] => []
  | x :: r => if p x then dropwhile p r else l
  end.

Fixpoint takewhile {A} (p : A -> bool) (l : list A) : list A :=
  match l with
  | [] => []
  | x :: r => if p x then x :: takewhile p r else []
  end.

Definition lstrip (s : text) : text := dropwhile isspace s.
Definition rstrip (s : text) : text := rev (dropwhile isspace (rev s)).
Definition strip (s : text) : text := lstrip (rstrip s).

(** [s.startswith(p)]. *)
Fixpoint startswith (p s : text) : bool :=
  match p, s with
  | [], _ => true
  | _ :: _, [] => false
  | a :: p', b :: s' => ascii_eqb a b && startswith p' s'
  end.

(** [s.split(sep)] for a one-character separator: never empty. *)
Fixpoint split (sep : ascii) (s : text) : list text :=
  match s with
  | [] => [[]]
  | c :: r =>
      if ascii_eqb c sep then [] :: split sep r
      else match split sep r with
           | h :: t => (c :: h) :: t
           | [] => [[c]]
           end
  end.

(** [sep.join(parts)]. *)
Fixpoint join (sep : text) (parts : list text) : text :=
  match parts with
  | [] => []
  | [p] => p
  | p :: rest => p ++ sep ++ join sep rest
  end.

(** A buffer written line by line, the lines joined by newlines. *)
Definition lines_text (ls : list string) : text := join [LF] (map str ls).

(** [l[i]] with Python's negative indices and [IndexError]. *)
Definition py_index {A} (l : list A) (i : Z) : result A :=
  let n := len l in
  let j := if i <? 0 then n + i else i in
  if (j <? 0) || (n <=? j) then Raise IndexError
  else match l !! Z.to_nat j with
       | Some x => Ok x
       | None => Raise IndexError
       end.

(** [l[i:]] with Python's negative and out-of-range starts. *)
Definition py_slice_from {A} (l : list A) (i : Z) : list A :=
  let n := len l in
  let j := if i <? 0 then Z.max 0 (n + i) else i in
  drop (Z.to_nat j) l.

(** [int(s)] for a string of decimal digits. *)
Definition digit_value (c : ascii) : Z := Z.of_nat (nat_of_ascii c) - 48.
Definition int_of_digits (s : text) : Z :=
  fold_left (fun acc c => 10 * acc + digit_value c) s 0.

(** ** HunkModel *)

(** [HunkLine = namedtuple('HunkLine', 'mode text b')]: [mode] is the first
    character of the line, [b] the row on the b-side. *)
Record HunkLine : Type := mkHunkLine {
  mode : ascii;
  text_ : text;
  b : Z
}.

(** [HUNKS_LINES_RE = @@ -(\d+)(?:,\d+)? \+(\d+)(?:,\d+)? ]

    After a greedy [\d+] the next character is not a digit, so giving back
    digits never lets the rest of the pattern match: the match at a position
    is decided by the maximal digit runs. *)
Fixpoint strip_prefix (p s : text) : option text :=
  match p, s with
  | [], _ => Some s
  | _ :: _, [] => None
  | a :: p', c :: s' => if ascii_eqb a c then strip_prefix p' s' else None
  end.

(** [(?:,\d+)? ] : the optional count and the blank after it. *)
Definition re_opt_count_blank (s : text) : option text :=
  match s with
  | c :: r =>
      if ascii_eqb c ","%char then
        match takewhile isdigit r, dropwhile isdigit r with
        | _ :: _, c' :: r' => if ascii_eqb c' " "%char then Some r' else None
        | _, _ => None
        end
      else if ascii_eqb c " "%char then Some r
      else None
  | [] => None
  end.

(** The pattern anchored at the start of [s]: groups 1 and 2. *)
Definition hunks_lines_re_match (s : text) : option (text * text) :=
  match strip_prefix (str "@@ -") s with
  | None => None
  | Some r =>
      match takewhile isdigit r with
      | [] => None
      | g1 =>
          match re_opt_count_blank (dropwhile isdigit r) with
          | None => None
          | Some r2 =>
              match strip_prefix (str "+") r2 with
              | None => None
              | Some r3 =>
                  match takewhile isdigit r3 with
                  | [] => None
                  | g2 =>
                      match re_opt_count_blank (dropwhile isdigit r3) with
                      | None => None
                      | Some _ => Some (g1, g2)
                      end
                  end
              end
          end
      end
  end.

(** [HUNKS_LINES_RE.search(head)]: the leftmost match. *)
Fixpoint hunks_lines_re_search (s : text) : option (text * text) :=
  match hunks_lines_re_match s with
  | Some g => Some g
  | None =>
      match s with
      | [] => None
      | _ :: r => hunks_lines_re_search r
      end
  end.

(** [_recount_lines(lines, b)]: the generator, run to its end. An empty line
    makes [line[0]] raise. *)
Fixpoint _recount_lines (lines : list text) (b0 : Z) : result (list HunkLine) :=
  match lines with
  | [] => Ok []
  | line :: rest =>
      match line with
      | [] => Raise IndexError
      | first_char :: tail =>
          let b1 := if ascii_eqb first_char "-"%char then b0 else b0 + 1 in
          let! more := _recount_lines rest b1 in
          Ok (mkHunkLine first_char tail b0 :: more)
      end
  end.

(** [split_hunk(hunk)]. *)
Definition split_hunk (hunk : text) : result (option (list HunkLine)) :=
  match split LF (rstrip hunk) with
  | [] => Raise ValueError
  | head :: tail =>
      match hunks_lines_re_search head with
      | None => Ok None
      | Some (_, g2) =>
          let! ls := _recount_lines tail (int_of_digits g2) in
          Ok (Some ls)
      end
  end.

(** [line_indentation(line)]. *)
Definition line_indentation (line : text) : Z := len line - len (lstrip line).

(** ** CoordinateMapper *)

(** The row chosen when the cursor is on the [@@] line: the 1-based index of
    the first line with mode [+] or blank and non-blank text, else 1. *)
Fixpoint first_visible_row (index : Z) (ls : list HunkLine) : Z :=
  match ls with
  | [] => 1
  | line :: rest =>
      if (ascii_eqb (mode line) "+"%char || ascii_eqb (mode line) " "%char)
         && negb (match strip (text_ line) with [] => true | _ => false end)
      then index
      else first_visible_row (index + 1) rest
  end.

(** The [for next_line in hunk_lines[row_in_hunk:]] loop with its [else]. *)
Fixpoint next_available (line : HunkLine) (col : Z) (rest : list HunkLine) : Z * Z :=
  match rest with
  | [] => (b line, 1)
  | next_line :: rest' =>
      if ascii_eqb (mode next_line) "+"%char then
        (b next_line, Z.min col (len (text_ next_line) + 1))
      else if ascii_eqb (mode next_line) " "%char then
        let next_lines_indentation := line_indentation (text_ next_line) in
        if next_lines_indentation =? line_indentation (text_ line)
        then (b next_line, next_lines_indentation + 1)
        else (Z.max 1 (b line - 1), 1)
      else next_available line col rest'
  end.

(** [real_rowcol_in_hunk(hunk, relative_rowcol)]. *)
Definition real_rowcol_in_hunk (hunk : text) (relative_rowcol : Z * Z)
  : result (option (Z * Z)) :=
  let! split_ := split_hunk hunk in
  match split_ with
  | None => Ok None
  | Some [] => Ok None
  | Some hunk_lines =>
      let '(row0, col0) := relative_rowcol in
      let row_in_hunk := if row0 =? 0 then first_visible_row 1 hunk_lines else row0 in
      let col := if row0 =? 0 then 1 else col0 in
      let! line := py_index hunk_lines (row_in_hunk - 1) in
      if negb (ascii_eqb (mode line) "-"%char) then Ok (Some (b line, col))
      else Ok (Some (next_available line col (py_slice_from hunk_lines row_in_hunk)))
  end.

(** ** The view and the host's text primitives *)

(** [sublime.Region(a, b)]. *)
Module Region.
Record t : Type := mk { a : Z; b : Z }.
Definition begin_ (r : t) : Z := Z.min (a r) (b r).
Definition end_ (r : t) : Z := Z.max (a r) (b r).
Definition size (r : t) : Z := end_ r - begin_ r.
(** [bool(region)] goes through [__len__]: an empty region is falsy. *)
Definition truthy (r : t) : bool := negb (size r =? 0).
End Region.

(** What a view setting can hold (the settings are JSON values). *)
#[warning="-register-all"]
Inductive value : Type :=
| VNone
| VBool (x : bool)
| VInt (z : Z)
| VStr (s : text)
| VList (l : list value).

(** Python truthiness. *)
Definition truthy (v : value) : bool :=
  match v with
  | VNone => false
  | VBool x => x
  | VInt z => negb (z =? 0)
  | VStr s => match s with [] => false | _ => true end
  | VList l => match l with [] => false | _ => true end
  end.

Record View : Type := mkView {
  content : text;                  (* the buffer *)
  sel : list Region.t;             (* [view.sel()] *)
  settings : gmap string value;    (* [view.settings()] *)
  has_window : bool                (* [view.window()] is not [None] *)
}.

(** [view.size()]. *)
Definition view_size (view : View) : Z := len (content view).

(** [view.substr(region)]: the characters between the region's ends, cut to
    the buffer. *)
Definition substr (buf : text) (r : Region.t) : text :=
  let lo := Z.to_nat (Region.begin_ r) in
  let hi := Z.to_nat (Region.end_ r) in
  take (hi - lo)%nat (drop lo buf).

Definition view_substr (view : View) (r : Region.t) : text := substr (content view) r.

(** Matches of a pattern that starts with [^], tried at the first character
    of every line: [f] gets the buffer from that character on and answers
    with the length of its match. The patterns used here never match the
    empty string and never span more than their own line and its newline,
    so matches do not overlap. *)
Fixpoint find_all_bol (f : text -> option Z) (at_bol : bool) (pos : Z) (buf : text)
  : list Region.t :=
  match buf with
  | [] => []
  | c :: rest =>
      let here :=
        if at_bol then
          match f buf with
          | Some n => [Region.mk pos (pos + n)]
          | None => []
          end
        else [] in
      here ++ find_all_bol f (ascii_eqb c LF) (pos + 1) rest
  end.

(** [^diff] *)
Definition re_diff (s : text) : option Z :=
  if startswith (str "diff") s then Some 4 else None.

(** [^@@] *)
Definition re_hunk (s : text) : option Z :=
  if startswith (str "@@") s then Some 2 else None.

(** [^\+\+\+.+\n(?=@@)]: a [+++] line with something after the pluses,
    its newline, and [@@] right after. *)
Definition re_header_end (s : text) : option Z :=
  match strip_prefix (str "+++") s with
  | None => None
  | Some r =>
      let rest_of_line := takewhile (fun c => negb (ascii_eqb c LF)) r in
      match rest_of_line, dropwhile (fun c => negb (ascii_eqb c LF)) r with
      | _ :: _, _ :: next =>
          if startswith (str "@@") next then Some (3 + len rest_of_line + 1) else None
      | _, _ => None
      end
  end.

Definition view_find_all (f : text -> option Z) (view : View) : list Region.t :=
  find_all_bol f true 0 (content view).

(** The first literal occurrence of [pat] in [buf] at or after [pos]. *)
Fixpoint find_literal (pat : text) (pos : Z) (buf : text) : option Z :=
  if startswith pat buf then Some pos
  else match buf with
       | [] => None
       | _ :: rest => find_literal pat (pos + 1) rest
       end.

(** [view.find(pat, 0, sublime.LITERAL)]; [Region(-1, -1)] when there is no
    occurrence. *)
Definition view_find (view : View) (pat : text) : Region.t :=
  match find_literal pat 0 (content view) with
  | Some i => Region.mk i (i + len pat)
  | None => Region.mk (-1) (-1)
  end.

(** [view.rowcol(pt)], rows and columns from 0. *)
Definition view_rowcol (view : View) (pt : Z) : Z * Z :=
  let before := take (Z.to_nat pt) (content view) in
  let rows := split LF before in
  (len rows - 1, len (List.last rows [])).

(** The region of line [row], without its newline: [view.line(view.text_point(row, 0))]. *)
Definition view_line_of_row (view : View) (row : nat) : Region.t :=
  let rows := split LF (content view) in
  let start := fold_left (fun acc l => acc + len l + 1) (take row rows) 0 in
  match rows !! row with
  | Some l => Region.mk start (start + len l)
  | None => Region.mk (view_size view) (view_size view)
  end.

(** ** DiffIndex *)

Record ParsedDiff : Type := mkParsedDiff {
  headers : list (Z * Z);
  hunks : list (Z * Z)
}.

(** [sorted(list(set(...)))] on integers: insertion into a strictly
    increasing list. *)
Fixpoint insert_sorted (x : Z) (l : list Z) : list Z :=
  match l with
  | [] => [x]
  | y :: r =>
      if x <? y then x :: l
      else if x =? y then l
      else y :: insert_sorted x r
  end.

Definition sorted_set (l : list Z) : list Z := fold_right insert_sorted [] l.

Definition mem_Z (x : Z) (l : list Z) : bool := existsb (Z.eqb x) l.

(** [parse_diff_in_view(view)]. *)
Definition parse_diff_in_view (view : View) : ParsedDiff :=
  let header_starts := map Region.a (view_find_all re_diff view) in
  let header_ends := map Region.b (view_find_all re_header_end view) in
  let hunk_starts := map Region.a (view_find_all re_hunk view) in
  let hunk_ends :=
    sorted_set
      (tl header_starts
       ++ filter (fun s => negb (mem_Z s header_ends)) hunk_starts
       ++ [view_size view + 1]) in
  {| headers := combine header_starts header_ends;
     hunks := combine hunk_starts hunk_ends |}.

(** Tuple comparison [(a1, b1) < (a2, b2)]. *)
Definition pair_ltb (p q : Z * Z) : bool :=
  (fst p <? fst q) || ((fst p =? fst q) && (snd p <? snd q)).

(** [max(...)] over pairs, [ValueError] on an empty sequence. *)
Definition max_pair (l : list (Z * Z)) : result (Z * Z) :=
  match l with
  | [] => Raise ValueError
  | x :: r => Ok (fold_left (fun m y => if pair_ltb m y then y else m) r x)
  end.

(** The [for ... break ... else] loop: the first hunk that holds [pt]. *)
Definition hunk_for_pt (hs : list (Z * Z)) (pt : Z) : option (Z * Z) :=
  List.find (fun h => (fst h <=? pt) && (pt <? snd h)) hs.

(** [head_and_hunk_for_pt(diff, pt)]. *)
Definition head_and_hunk_for_pt (diff : ParsedDiff) (pt : Z)
  : result (option ((Z * Z) * (Z * Z))) :=
  match hunk_for_pt (hunks diff) pt with
  | None => Ok None
  | Some hunk =>
      let! header := max_pair (filter (fun h => pair_ltb h hunk) (headers diff)) in
      Ok (Some (header, hunk))
  end.

(** [extract_content(view, region)]. *)
Definition extract_content (view : View) (region : Z * Z) : text :=
  view_substr view (Region.mk (fst region) (snd region)).

(** ** Relocation *)

Definition not_hunk_start (line : text) : bool := negb (startswith (str "@@ ") line).

(** [extract_first_hunk(patch)]. *)
Definition extract_first_hunk (patch : text) : option (list text) :=
  match dropwhile not_hunk_start (split LF patch) with
  | [] => None
  | start :: rest => Some (start :: takewhile not_hunk_start rest)
  end.

(** [list[1:-1]]. *)
Definition drop_ends {A} (l : list A) : list A :=
  take (length l - 2)%nat (drop 1 l).

(** [shrink_list_sym(list)]: the lists the generator yields, in order. *)
Equations? shrink_list_sym {A} (l : list A) : list (list A) by wf (length l) lt :=
  shrink_list_sym [] := [];
  shrink_list_sym (x :: r) := (x :: r) :: shrink_list_sym (drop_ends (x :: r)).
Proof.
  unfold drop_ends. rewrite length_take, length_drop. simpl. lia.
Qed.

(** [find_hunk_start_before_pt(view, pt)]: the rows above the one of [pt],
    nearest first. *)
Definition line_regions_before_pt (view : View) (pt : Z) : list Region.t :=
  let row := fst (view_rowcol view pt) in
  map (view_line_of_row view) (rev (seq 0 (Z.to_nat row))).

Definition find_hunk_start_before_pt (view : View) (pt : Z) : option Region.t :=
  List.find (fun region => startswith (str "@@ ") (view_substr view region))
            (line_regions_before_pt view pt).

(** [fuzzy_search_hunk_content_in_view(view, lines)]. *)
Fixpoint fuzzy_search_candidates (view : View) (cands : list (list text)) : option Region.t :=
  match cands with
  | [] => None
  | hunk_content :: more =>
      let region := view_find view (join [LF] hunk_content) in
      if Region.truthy region then find_hunk_start_before_pt view (Region.a region)
      else fuzzy_search_candidates view more
  end.

Definition fuzzy_search_hunk_content_in_view (view : View) (lines : list text)
  : option Region.t :=
  fuzzy_search_candidates view (shrink_list_sym lines).

(** [find_hunk_in_view(view, patch)]. *)
Definition find_hunk_in_view (view : View) (patch : text) : option Region.t :=
  match extract_first_hunk patch with
  | Some (first :: rest) =>
      let region := view_find view first in
      if Region.truthy region then Some region
      else fuzzy_search_hunk_content_in_view view rest
  | _ => None
  end.

(** One turn of the loop of [unique]: append the item unless [rv] has it. *)
Definition unique_step {A} `{EqDecision A} (rv : list A) (item : A) : list A :=
  if decide (item ∈ rv) then rv else rv ++ [item].

(** [unique(items)]. *)
Definition unique {A} `{EqDecision A} (items : list A) : list A :=
  fold_left unique_step items [].

(** ** The commands *)

(** What the commands do to the outside, in the order they do it. *)
Inductive Event : Type :=
| GitCall (args : list value) (stdin : option text)   (* [self.git] *)
| ErrorMessage (msg : text)                           (* [sublime.error_message] *)
| StatusMessage (msg : text)                          (* [window.status_message] *)
| ReplaceViewText (new_text : text)                   (* [gs_replace_view_text] *)
| DiffNavigate                                        (* [gs_diff_navigate] *)
| Show (cursors : list Region.t).                     (* [view.show(sel)] *)

(** The collaborators of the commands that live outside this module: the
    [git] executable behind [GitCommand.git], the paths [GitCommand] derives
    for a view, [os.path.relpath], what the text commands of the package do
    to the selection, and how Python prints a list. *)
Class Host : Type := mkHost {
  Repo : Type;
  git : Repo -> list value -> option text -> result text * Repo;
  file_path : View -> option text;
  repo_path : View -> text;
  relpath : text -> text -> text;
  restore_cursors : text -> text -> list Region.t -> list Region.t;
  navigate : text -> list Region.t -> list Region.t;
  selection_add : list Region.t -> Region.t -> list Region.t;
  repr_list : list value -> text
}.

Definition decimal (z : Z) : text :=
  list_ascii_of_string (DecimalString.NilZero.string_of_int (Z.to_int z)).

Section Commands.
Context {host : Host}.

Record World : Type := mkWorld {
  view : View;
  repo : Repo;
  prefs : gmap string value;     (* [Preferences.sublime-settings] *)
  log : list Event
}.

(** A command: it may raise, and what it did before raising stays done. *)
Definition M (A : Type) : Type := World -> result A * World.

Definition ret {A} (x : A) : M A := fun w => (Ok x, w).
Definition raise {A} (e : exn) : M A := fun w => (Raise e, w).
Definition bindM {A B} (m : M A) (k : A -> M B) : M B :=
  fun w =>
    match m w with
    | (Ok x, w') => k x w'
    | (Raise e, w') => (Raise e, w')
    end.
Definition lift {A} (r : result A) : M A := fun w => (r, w).

(** [try: body finally: cleanup]. *)
Definition finally {A} (body : M A) (cleanup : M unit) : M A :=
  fun w =>
    match body w with
    | (r, w') =>
        match cleanup w' with
        | (Ok _, w'') => (r, w'')
        | (Raise e, w'') => (Raise e, w'')
        end
    end.

Notation "'do' x <- m ; k" := (bindM m (fun x => k))
  (at level 10, x name, m at level 100, k at level 200).
Notation "m ;; k" := (bindM m (fun _ => k))
  (at level 100, k at level 200, right associativity).

Definition set_view (f : View -> View) : M unit :=
  fun w => (Ok tt, mkWorld (f (view w)) (repo w) (prefs w) (log w)).

Definition emit (e : Event) : M unit :=
  fun w => (Ok tt, mkWorld (view w) (repo w) (prefs w) (log w ++ [e])).

Definition get_view : M View := fun w => (Ok (view w), w).

(** [view.settings().get(key)]: [None] for a key that is not set. *)
Definition settings_get (key : string) (v : View) : value :=
  default VNone (settings v !! key).

Definition get (key : string) : M value :=
  fun w => (Ok (settings_get key (view w)), w).

(** [view.settings().set(key, value)]. *)
Definition settings_set (key : string) (x : value) (v : View) : View :=
  mkView (content v) (sel v) (<[key := x]> (settings v)) (has_window v).

Definition set (key : string) (x : value) : M unit :=
  set_view (settings_set key x).

(** [self.git]. *)
Definition call_git (args : list value) (stdin : option text) : M text :=
  fun w =>
    let '(r, repo') := git (repo w) args stdin in
    (r, mkWorld (view w) repo' (prefs w) (log w ++ [GitCall args stdin])).

(** [str(x)], as [format] uses it. *)
Definition py_str (x : value) : text :=
  match x with
  | VNone => str "None"
  | VBool true => str "True"
  | VBool false => str "False"
  | VInt z => decimal z
  | VStr s => s
  | VList l => repr_list l
  end.

(** [x or y]. *)
Definition py_or (x y : value) : value := if truthy x then x else y.

(** [x if c else None] for an argument of [git]. *)
Definition arg_if (c : bool) (x : string) : value :=
  if c then VStr (str x) else VNone.

Definition opt_value (o : option text) : value :=
  match o with Some s => VStr s | None => VNone end.

(** [x is not None]. *)
Definition is_not_none (x : value) : bool :=
  match x with VNone => false | _ => true end.

(** *** GsDiffRefreshCommand *)

(** The prelude [_run] writes above the diff. *)
Definition prelude_of (v : View) : text :=
  let in_cached_mode := settings_get "git_savvy.diff_view.in_cached_mode" v in
  let ignore_whitespace := settings_get "git_savvy.diff_view.ignore_whitespace" v in
  let base_commit := settings_get "git_savvy.diff_view.base_commit" v in
  let target_commit := settings_get "git_savvy.diff_view.target_commit" v in
  let disable_stage := settings_get "git_savvy.diff_view.disable_stage" v in
  [LF]
  ++ (if truthy (opt_value (file_path v))
      then str "  FILE: " ++ relpath (default [] (file_path v)) (repo_path v) ++ [LF]
      else [])
  ++ (if truthy disable_stage then
        if truthy in_cached_mode then
          str "  INDEX.." ++ py_str (py_or base_commit target_commit) ++ [LF]
        else if truthy base_commit && truthy target_commit then
          str "  " ++ py_str base_commit ++ str ".." ++ py_str target_commit ++ [LF]
        else
          str "  WORKING DIR.." ++ py_str (py_or base_commit target_commit) ++ [LF]
      else if truthy in_cached_mode then str "  STAGED CHANGES (Will commit)" ++ [LF]
      else str "  UNSTAGED CHANGES" ++ [LF])
  ++ (if truthy ignore_whitespace then str "  IGNORING WHITESPACE" ++ [LF] else []).

(** The arguments of the [git diff] call of [_run]. *)
Definition diff_args (v : View) : list value :=
  let in_cached_mode := settings_get "git_savvy.diff_view.in_cached_mode" v in
  let ignore_whitespace := settings_get "git_savvy.diff_view.ignore_whitespace" v in
  let show_word_diff := settings_get "git_savvy.diff_view.show_word_diff" v in
  let base_commit := settings_get "git_savvy.diff_view.base_commit" v in
  let target_commit := settings_get "git_savvy.diff_view.target_commit" v in
  let show_diffstat := settings_get "git_savvy.diff_view.show_diffstat" v in
  let context_lines := settings_get "git_savvy.diff_view.context_lines" v in
  [ VStr (str "diff");
    arg_if (truthy ignore_whitespace) "--ignore-all-space";
    arg_if (truthy show_word_diff) "--word-diff";
    (if is_not_none context_lines
     then VStr (str "--unified=" ++ py_str context_lines) else VNone);
    arg_if (truthy show_diffstat) "--stat";
    VStr (str "--patch");
    VStr (str "--no-color");
    arg_if (truthy in_cached_mode) "--cached";
    base_commit;
    target_commit;
    VStr (str "--");
    opt_value (file_path v) ].

(** [self.view.run_command("gs_replace_view_text", {"text": text, "restore_cursors": True})]. *)
Definition gs_replace_view_text (new_text : text) : M unit :=
  set_view (fun v => mkView new_text (restore_cursors (content v) new_text (sel v))
                            (settings v) (has_window v)) ;;
  emit (ReplaceViewText new_text).

(** [self.view.run_command("gs_diff_navigate")]. *)
Definition gs_diff_navigate : M unit :=
  set_view (fun v => mkView (content v) (navigate (content v) (sel v))
                            (settings v) (has_window v)) ;;
  emit DiffNavigate.

(** [GsDiffRefreshCommand._run]. *)
Definition GsDiffRefreshCommand__run : M unit :=
  do disabled <- get "git_savvy.disable_diff";
  if truthy disabled then ret tt
  else
    do v <- get_view;
    let prelude := prelude_of v in
    fun w =>
      match call_git (diff_args v) None w with
      | (Raise (GitSavvyError true), w') =>
          set "git_savvy.disable_diff" (VBool true) w'
      | (Raise err, w') => (Raise err, w')
      | (Ok diff, w') =>
          (do old_diff <- get "git_savvy.diff_view.raw_diff";
           set "git_savvy.diff_view.raw_diff" (VStr diff) ;;
           let text := prelude ++ [LF] ++ str "--" ++ [LF] ++ diff in
           gs_replace_view_text text ;;
           if negb (truthy old_diff) then gs_diff_navigate else ret tt) w'
      end.

(** [self.view.run_command("gs_diff_refresh")]: [run] with its default
    [sync=True] calls [_run]. *)
Definition gs_diff_refresh : M unit := GsDiffRefreshCommand__run.

(** *** Cursors *)

Definition pickle_sel (s : list Region.t) : value :=
  VList (map (fun r => VList [VInt (Region.a r); VInt (Region.b r)]) s).

(** What [sublime.Region(a, b)] holds when [a] and [b] are values of the
    settings. The constructor checks nothing and takes [a] for a [b] that is
    [None]: two integers ([True] and [False] counting as 1 and 0) make a
    region of the buffer, anything else stays as it was given. *)
Inductive built_region : Type :=
| BufferRegion (r : Region.t)
| OddRegion (a b : value).

Definition py_int (x : value) : option Z :=
  match x with
  | VInt z => Some z
  | VBool c => Some (if c then 1 else 0)
  | _ => None
  end.

Definition sublime_Region (a b : value) : built_region :=
  let b := match b with VNone => a | _ => b end in
  match py_int a, py_int b with
  | Some x, Some y => BufferRegion (Region.mk x y)
  | _, _ => OddRegion a b
  end.

(** [a, b = item]: a list or a string of exactly two items unpacks; one of
    another length raises [ValueError], anything else is not iterable. *)
Definition unpack_pair (item : value) : result (value * value) :=
  match item with
  | VList [a; b] => Ok (a, b)
  | VList _ => Raise ValueError
  | VStr [c; d] => Ok (VStr [c], VStr [d])
  | VStr _ => Raise ValueError
  | _ => Raise TypeError
  end.

(** [[sublime.Region(a, b) for a, b in items]]: the items are taken in
    order, and the first one that does not unpack raises. *)
Fixpoint unpickle_regions (items : list value) : result (list built_region) :=
  match items with
  | [] => Ok []
  | item :: rest =>
      let! ab := unpack_pair item in
      let! more := unpickle_regions rest in
      Ok (sublime_Region (fst ab) (snd ab) :: more)
  end.

(** [unpickle_sel(pickled_sel)]: a list gives its items and a string its
    characters (none for the empty string); anything else is not
    iterable. *)
Definition unpickle_sel (pickled_sel : value) : result (list built_region) :=
  match pickled_sel with
  | VList items => unpickle_regions items
  | VStr s => unpickle_regions (map (fun c => VStr [c]) s)
  | _ => Raise TypeError
  end.

(** The two shapes [set_and_show_cursor] is called with. *)
Inductive cursors : Type :=
| OnePoint (pt : Z)
| ManyRegions (rs : list Region.t).

(** [set_and_show_cursor(view, cursors)]. *)
Definition set_and_show_cursor (cs : cursors) : M unit :=
  let added :=
    match cs with
    | OnePoint pt => selection_add [] (Region.mk pt pt)
    | ManyRegions rs => fold_left selection_add rs []
    end in
  set_view (fun v => mkView (content v) added (settings v) (has_window v)) ;;
  emit (Show added).

(** [sel.add(c)] for every region [unpickle_sel] built: the editor takes
    integers only, so a region of anything else stops the loop with a
    [TypeError], the regions added before it staying. *)
Fixpoint add_built (rs : list built_region) (added : list Region.t)
  : list Region.t * bool :=
  match rs with
  | [] => (added, true)
  | BufferRegion r :: rest => add_built rest (selection_add added r)
  | OddRegion _ _ :: _ => (added, false)
  end.

(** [set_and_show_cursor(view, cursors)] for the regions [unpickle_sel]
    built: the selection is cleared before anything is added. *)
Definition set_and_show_built (rs : list built_region) : M unit :=
  let set_sel (s : list Region.t) : M unit :=
    set_view (fun v => mkView (content v) s (settings v) (has_window v)) in
  match add_built rs [] with
  | (added, true) => set_sel added ;; emit (Show added)
  | (added, false) => set_sel added ;; raise TypeError
  end.

(** [with no_animations(): body]. *)
Definition no_animations {A} (body : M A) : M A :=
  fun w =>
    let current := default VNone (prefs w !! "animation_enabled"%string) in
    let set_pref (x : value) : M unit :=
      fun w0 => (Ok tt, mkWorld (view w0) (repo w0)
                                (<["animation_enabled"%string := x]> (prefs w0)) (log w0)) in
    (set_pref (VBool false) ;; finally body (set_pref current)) w.

(** [self.view.window().status_message(msg)], without a check for a missing window. *)
Definition window_status_message (msg : text) : M unit :=
  do v <- get_view;
  if has_window v then emit (StatusMessage msg) else raise AttributeError.

(** *** GsDiffToggleCachedMode *)

Definition GsDiffToggleCachedMode_run : M unit :=
  do base_commit <- get "git_savvy.diff_view.base_commit";
  do target_commit <- get "git_savvy.diff_view.target_commit";
  if truthy base_commit && truthy target_commit then
    set "git_savvy.diff_view.base_commit" target_commit ;;
    set "git_savvy.diff_view.target_commit" base_commit ;;
    gs_diff_refresh
  else
    do last_cursors0 <- get "git_savvy.diff_view.last_cursors";
    let last_cursors := py_or last_cursors0 (VList []) in
    do v <- get_view;
    set "git_savvy.diff_view.last_cursors" (pickle_sel (sel v)) ;;
    do current_mode <- get "git_savvy.diff_view.in_cached_mode";
    let next_mode := negb (truthy current_mode) in
    set "git_savvy.diff_view.in_cached_mode" (VBool next_mode) ;;
    window_status_message
      (str "Showing " ++ (if next_mode then str "staged" else str "unstaged")
       ++ str " changes") ;;
    gs_diff_refresh ;;
    do just_hunked <- get "git_savvy.diff_view.just_hunked";
    let restore : M unit :=
      if truthy last_cursors then
        no_animations
          (do rs <- lift (unpickle_sel last_cursors);
           set_and_show_built rs)
      else ret tt in
    if truthy just_hunked && truthy last_cursors then
      set "git_savvy.diff_view.just_hunked" (VStr []) ;;
      match just_hunked with
      | VStr patch =>
          do v' <- get_view;
          match find_hunk_in_view v' patch with
          | Some region =>
              if Region.truthy region
              then set_and_show_cursor (OnePoint (Region.a region))
              else restore
          | None => restore
          end
      | _ => raise AttributeError
      end
    else restore.

(** *** GsDiffStageOrResetHunkCommand *)

(** [x == 0]. *)
Definition eq_zero (x : value) : bool :=
  match x with
  | VInt z => z =? 0
  | VBool c => negb c
  | _ => false
  end.

(** The [args] tuple of [apply_patch]. *)
Definition apply_args (reset : bool) (in_cached_mode context_lines : value) : list value :=
  [ VStr (str "apply");
    arg_if (reset || truthy in_cached_mode) "-R";
    arg_if (truthy in_cached_mode || negb reset) "--cached";
    arg_if (eq_zero context_lines) "--unidiff-zero";
    VStr (str "-") ].

(** [apply_patch(self, patch, pts, reset)]. *)
Definition apply_patch (patch : text) (pts : list Z) (reset : bool) : M unit :=
  do in_cached_mode <- get "git_savvy.diff_view.in_cached_mode";
  do context_lines <- get "git_savvy.diff_view.context_lines";
  let args := apply_args reset in_cached_mode context_lines in
  do _out <- call_git args (Some patch);
  do history <- get "git_savvy.diff_view.history";
  match history with
  | VList entries =>
      set "git_savvy.diff_view.history"
          (VList (entries ++ [VList [VList args; VStr patch; VList (map VInt pts);
                                     in_cached_mode]])) ;;
      set "git_savvy.diff_view.just_hunked" (VStr patch) ;;
      gs_diff_refresh
  | _ => raise AttributeError
  end.

(** [filter_(head_and_hunk_for_pt(diff, pt) for pt in cursor_pts)], flattened. *)
Fixpoint spans_under (diff : ParsedDiff) (cursor_pts : list Z) : result (list (Z * Z)) :=
  match cursor_pts with
  | [] => Ok []
  | pt :: rest =>
      let! found := head_and_hunk_for_pt diff pt in
      let! more := spans_under diff rest in
      match found with
      | Some (header, hunk) => Ok (header :: hunk :: more)
      | None => Ok more
      end
  end.

(** The cursors that are a single point. *)
Definition cursor_pts_of (v : View) : list Z :=
  map Region.a (filter (fun cursor => Region.a cursor =? Region.b cursor) (sel v)).

(** The patch [run] builds from the cursors. *)
Definition synthesize_patch (v : View) : result text :=
  let diff := parse_diff_in_view v in
  let! spans := spans_under diff (cursor_pts_of v) in
  let patches := unique spans in
  Ok (concat (map (extract_content v) patches)).

(** [GsDiffStageOrResetHunkCommand.run(self, edit, reset=False)]. *)
Definition GsDiffStageOrResetHunkCommand_run (reset : bool) : M unit :=
  do ignore_whitespace <- get "git_savvy.diff_view.ignore_whitespace";
  do show_word_diff <- get "git_savvy.diff_view.show_word_diff";
  if truthy ignore_whitespace || truthy show_word_diff then
    emit (ErrorMessage (str "You have to be in a clean diff to stage."))
  else
    do v <- get_view;
    do patch <- lift (synthesize_patch v);
    match patch with
    | _ :: _ => apply_patch patch (cursor_pts_of v) reset
    | [] =>
        if has_window v then emit (StatusMessage (str "Not within a hunk"))
        else ret tt
    end.

(** A command only ever adds to the record of what was done. *)
Definition grows {A} (m : M A) : Prop :=
  forall w, exists more, log (snd (m w)) = log w ++ more.

(** The view's disable-diff flag is set. *)
Definition disabled (v : View) : bool :=
  truthy (settings_get "git_savvy.disable_diff" v).

End Commands.

(** ** The specification's wording, for comparison with the code *)

Definition first_with_mode (m : ascii) (ls : list HunkLine) : option HunkLine :=
  List.find (fun l => ascii_eqb (mode l) m) ls.

(** The scan for a deleted line as the specification words it: the first [+]
    line after the deleted one decides; failing that, the first context
    line; with neither, the deleted line's own row. *)
Definition next_available_as_specified (line : HunkLine) (col : Z) (rest : list HunkLine)
  : Z * Z :=
  match first_with_mode "+"%char rest with
  | Some added => (b added, Z.min col (len (text_ added) + 1))
  | None =>
      match first_with_mode " "%char rest with
      | Some context =>
          if line_indentation (text_ context) =? line_indentation (text_ line)
          then (b context, line_indentation (text_ context) + 1)
          else (Z.max 1 (b line - 1), 1)
      | None => (b line, 1)
      end
  end.

(** The patch as the specification's data model words it: the blocks under
    the cursors, duplicates removed by comparing their text. *)
Definition synthesize_patch_by_text (v : View) : result text :=
  let diff := parse_diff_in_view v in
  let! spans := spans_under diff (cursor_pts_of v) in
  Ok (concat (unique (map (extract_content v) spans))).

(** ** Worked inputs *)

(** The hunk of the specification's example. *)
Definition hunk_example : text :=
  lines_text ["@@ -1,3 +1,4 @@"; " line1"; "+line2"; "-line3"; " line4"].

(** A deleted line followed by a context line and then an added line. *)
Definition hunk_deleted_context_added : text :=
  lines_text ["@@ -1,2 +1,2 @@"; "-old"; " ctx"; "+new"].

(** The output of [git diff] for two files that got the same change. *)
Definition diff_example : text :=
  lines_text
    ["diff --git a/x b/x"; "index 1..2"; "--- a/x"; "+++ b/x";
     "@@ -1 +1 @@"; "-a"; "+b";
     "@@ -9 +9 @@"; "-c"; "+d";
     "diff --git a/y b/y"; "--- a/y"; "+++ b/y";
     "@@ -1 +1 @@"; "-a"; "+b"; ""].

(** The buffer of a diff view that shows it. *)
Definition buffer_example : text :=
  lines_text [""; "  UNSTAGED CHANGES"; ""; "--"; ""] ++ diff_example.

(** A host whose [git diff] prints [diff_example] and whose other [git]
    calls print nothing; the repository records the calls it got. *)
Definition example_host : Host :=
  {| Repo := list (list value);
     git := fun calls args _ =>
              (Ok (match args with
                   | VStr (c :: _) :: _ => if ascii_eqb c "d"%char then diff_example else []
                   | _ => []
                   end),
               calls ++ [args]);
     file_path := fun _ => None;
     repo_path := fun _ => str "/repo";
     relpath := fun path _ => path;
     restore_cursors := fun _ _ s => s;
     navigate := fun _ s => s;
     selection_add := fun s r => s ++ [r];
     repr_list := fun _ => str "[...]" |}.

(** A host whose [git] cannot decode what the executable printed. *)
Definition undecodable_host : Host :=
  {| Repo := unit;
     git := fun _ _ _ => (Raise (GitSavvyError true), tt);
     file_path := fun _ => None;
     repo_path := fun _ => str "/repo";
     relpath := fun path _ => path;
     restore_cursors := fun _ _ s => s;
     navigate := fun _ s => s;
     selection_add := fun s r => s ++ [r];
     repr_list := fun _ => str "[...]" |}.

(** The settings [GsDiffCommand.run_async] gives a fresh diff view. *)
Definition fresh_settings : gmap string value :=
  <["git_savvy.diff_view.in_cached_mode"%string := VBool false]>
  (<["git_savvy.diff_view.ignore_whitespace"%string := VBool false]>
  (<["git_savvy.diff_view.show_word_diff"%string := VBool false]>
  (<["git_savvy.diff_view.context_lines"%string := VInt 3]>
  (<["git_savvy.diff_view.base_commit"%string := VNone]>
  (<["git_savvy.diff_view.target_commit"%string := VNone]>
  (<["git_savvy.diff_view.show_diffstat"%string := VBool false]>
  (<["git_savvy.diff_view.disable_stage"%string := VBool false]>
  (<["git_savvy.diff_view.history"%string := VList []]>
  (<["git_savvy.diff_view.just_hunked"%string := VStr []]> ∅))))))))).

(** A view on [buffer_example] with the given cursors. *)
Definition view_example (cursors : list Z) : View :=
  mkView buffer_example (map (fun pt => Region.mk pt pt) cursors) fresh_settings true.

(** A world around [view_example]: nothing done yet. *)
Definition world_example (cursors : list Z) : @World example_host :=
  @mkWorld example_host (view_example cursors) [] ∅ [].

(** The same view with a [git] that cannot decode. *)
Definition world_undecodable (v : View) : @World undecodable_host :=
  @mkWorld undecodable_host v tt ∅ [].

(** ** The patch-apply collaborator, read off the arguments *)

(** What an [apply] call acts on. *)
Inductive apply_target : Type :=
| IndexOnly
| IndexAndWorkingTree.

Definition has_arg (x : string) (args : list value) : bool :=
  existsb (fun arg => match arg with
                      | VStr s => bool_decide (s = str x)
                      | _ => false
                      end) args.

(** The call applies the patch in reverse: [-R] is among the arguments. *)
Definition reverse_apply (args : list value) : bool := has_arg "-R" args.

(** With [--cached] the patch goes to the index only; without it, as the
    comment in [apply_patch] has it, to the index and the working tree. *)
Definition target_of (args : list value) : apply_target :=
  if has_arg "--cached" args then IndexOnly else IndexAndWorkingTree.

(** [view_example] in cached mode. *)
Definition view_example_cached (cursors : list Z) : View :=
  settings_set "git_savvy.diff_view.in_cached_mode" (VBool true) (view_example cursors).

(** [view_example] with whitespace ignored. *)
Definition view_example_ignoring_whitespace (cursors : list Z) : View :=
  settings_set "git_savvy.diff_view.ignore_whitespace" (VBool true) (view_example cursors).

(** The header of file [x] and its first hunk, as [buffer_example] has them. *)
Definition patch_example : text :=
  lines_text ["diff --git a/x b/x"; "index 1..2"; "--- a/x"; "+++ b/x";
              "@@ -1 +1 @@"; "-a"; "+b"; ""].

(** [view_example] as a comparison of two commits. *)
Definition view_example_commits (cursors : list Z) : View :=
  settings_set "git_savvy.diff_view.target_commit" (VStr (str "def456"))
    (settings_set "git_savvy.diff_view.base_commit" (VStr (str "abc123"))
       (view_example cursors)).

(** ** Predicates of the statements *)

(** The line stays in the new file: its mode is not [-]. *)
Definition retained (l : HunkLine) : bool := negb (ascii_eqb (mode l) "-"%char).

(** Python's order on pairs. *)
Definition pair_lt (p q : Z * Z) : Prop :=
  fst p < fst q \/ (fst p = fst q /\ snd p < snd q).

Definition pair_le (p q : Z * Z) : Prop := pair_lt p q \/ p = q.

(** The offset lies in the half-open span. *)
Definition holds (span : Z * Z) (pt : Z) : Prop := fst span <= pt < snd span.

(** The line is neither added nor context: the scan passes over it. *)
Definition passed_over (l : HunkLine) : Prop :=
  mode l <> "+"%char /\ mode l <> " "%char.

(** The blocks the cursors resolve to, cursor by cursor. *)
Definition blocks_of (diff : ParsedDiff) (pt : Z) : list (Z * Z) :=
  match head_and_hunk_for_pt diff pt with
  | Ok (Some (header, hunk)) => [header; hunk]
  | _ => []
  end.

(** What [unique] has collected after some cursors: the spans in increasing
    order, and the header and hunk of the last resolved cursor among them,
    the hunk being the greatest span so far. *)
Definition collected (diff : ParsedDiff) (rv : list (Z * Z)) (pts : list Z) : Prop :=
  StronglySorted pair_lt rv
  /\ (rv = []
      \/ exists header hunk p,
           head_and_hunk_for_pt diff p = Ok (Some (header, hunk))
           /\ header ∈ rv /\ hunk ∈ rv
           /\ (forall y, y ∈ rv -> pair_le y hunk)
           /\ Forall (fun q => p <= q) pts).

(** A character other than the newline. *)
Definition not_LF (c : ascii) : bool := negb (ascii_eqb c LF).

(** The pattern stands in the buffer at offset [i]. *)
Definition occurs_at (pat buf : text) (i : Z) : Prop :=
  0 <= i /\ startswith pat (drop (Z.to_nat i) buf) = true.

(** * The rest of [core/commands/diff.py] *)

(** ** Opening the file at a hunk *)

(** [relative_rowcol_in_hunk(view, hunk_start, pt)]. *)
Definition relative_rowcol_in_hunk (view : View) (hunk_start pt : Z) : Z * Z :=
  let head_row := fst (view_rowcol view hunk_start) in
  let '(pt_row, col) := view_rowcol view pt in
  (pt_row - head_row, Z.max col 1).

(** [HEADER_TO_FILE_RE = \+\+\+ b/(.+)$] anchored at the start of [s]: group
    1. The dot does not match a newline, and [$] stands at the end of the
    string or before a newline that ends it, so the name is the rest of the
    line and that line must be the last one. *)
Definition header_to_file_re_match (s : text) : option text :=
  match strip_prefix (str "+++ b/") s with
  | None => None
  | Some r =>
      match takewhile not_LF r, dropwhile not_LF r with
      | [], _ => None
      | name, [] => Some name
      | name, [_] => Some name
      | _, _ => None
      end
  end.

(** [HEADER_TO_FILE_RE.search(header)]: the leftmost match. *)
Fixpoint header_to_file_re_search (s : text) : option text :=
  match header_to_file_re_match s with
  | Some name => Some name
  | None =>
      match s with
      | [] => None
      | _ :: r => header_to_file_re_search r
      end
  end.

(** [extract_filename_from_header(header)]. *)
Definition extract_filename_from_header (header : text) : option text :=
  header_to_file_re_search header.

(** [jump_position_to_file(self, diff, pt)]. *)
Definition jump_position_to_file (view : View) (diff : ParsedDiff) (pt : Z)
  : result (option (text * Z * Z)) :=
  let! head_and_hunk_offsets := head_and_hunk_for_pt diff pt in
  match head_and_hunk_offsets with
  | None => Ok None
  | Some (header_region, hunk_region) =>
      let header := extract_content view header_region in
      let hunk := extract_content view hunk_region in
      let hunk_start := fst hunk_region in
      let! rowcol := real_rowcol_in_hunk hunk (relative_rowcol_in_hunk view hunk_start pt) in
      match rowcol with
      | None => Ok None
      | Some (row, col) =>
          match extract_filename_from_header header with
          | None => Ok None
          | Some filename => Ok (Some (filename, row, col))
          end
      end
  end.

(** [first_per_file(items)] of [GsDiffOpenFileAtHunkCommand.run]. *)
Fixpoint first_per_file_from (seen : gset text) (items : list (text * Z * Z))
  : list (text * Z * Z) :=
  match items with
  | [] => []
  | item :: rest =>
      let filename := fst (fst item) in
      if decide (filename ∈ seen) then first_per_file_from seen rest
      else item :: first_per_file_from ({[filename]} ∪ seen) rest
  end.

Definition first_per_file (items : list (text * Z * Z)) : list (text * Z * Z) :=
  first_per_file_from ∅ items.

(** [filter_(f(pt) for pt in pts)]: the answers that are not [None], up to
    the first call that raises. *)
Fixpoint filter_map_result {A B} (f : A -> result (option B)) (l : list A) : result (list B) :=
  match l with
  | [] => Ok []
  | x :: rest =>
      let! y := f x in
      let! more := filter_map_result f rest in
      Ok (match y with Some z => z :: more | None => more end)
  end.

(** ** Python equality on setting values *)

(** [x == y]: [True] and [False] count as 1 and 0. *)
Fixpoint py_eq (x y : value) : bool :=
  match x, y with
  | VNone, VNone => true
  | VBool c, VBool d => Bool.eqb c d
  | VBool c, VInt z => z =? (if c then 1 else 0)
  | VInt z, VBool c => z =? (if c then 1 else 0)
  | VInt z1, VInt z2 => z1 =? z2
  | VStr s1, VStr s2 => bool_decide (s1 = s2)
  | VList l1, VList l2 =>
      (fix all_eq (xs ys : list value) : bool :=
         match xs, ys with
         | [], [] => true
         | u :: xs', w :: ys' => py_eq u w && all_eq xs' ys'
         | _, _ => false
         end) l1 l2
  | _, _ => false
  end.

(** * [commands/status.py] *)

(** An entry of [get_status()]: a path with its two porcelain status
    characters. *)
Record FileStatus : Type := mkFileStatus {
  path : text;
  index_status : text;
  working_status : text
}.

Definition MERGE_CONFLICT_PORCELAIN_STATUSES : list (text * text) :=
  [ (str "D", str "D"); (str "A", str "U"); (str "U", str "D"); (str "U", str "A");
    (str "D", str "U"); (str "A", str "A"); (str "U", str "U") ].

(** The four lists of [sort_status_entries], as the loop fills them. *)
Record StatusLists : Type := mkStatusLists {
  staged : list FileStatus;
  unstaged : list FileStatus;
  untracked : list FileStatus;
  conflicts : list FileStatus
}.

(** One turn of the loop of [sort_status_entries]. *)
Definition sort_status_entry (acc : StatusLists) (f : FileStatus) : StatusLists :=
  if bool_decide ((index_status f, working_status f) ∈ MERGE_CONFLICT_PORCELAIN_STATUSES) then
    mkStatusLists (staged acc) (unstaged acc) (untracked acc) (conflicts acc ++ [f])
  else if bool_decide (index_status f = str "?") then
    mkStatusLists (staged acc) (unstaged acc) (untracked acc ++ [f]) (conflicts acc)
  else
    let unstaged' :=
      if bool_decide (working_status f ∈ [str "M"; str "D"])
      then unstaged acc ++ [f] else unstaged acc in
    let staged' :=
      if bool_decide (index_status f <> str " ")
      then staged acc ++ [f] else staged acc in
    mkStatusLists staged' unstaged' (untracked acc) (conflicts acc).

(** [sort_status_entries(file_status_list)]. *)
Definition sort_status_entries (file_status_list : list FileStatus) : StatusLists :=
  fold_left sort_status_entry file_status_list (mkStatusLists [] [] [] []).

(** [s.find(c)] for one character: the first index, or -1. *)
Fixpoint py_find_from (c : ascii) (pos : Z) (s : text) : Z :=
  match s with
  | [] => -1
  | x :: r => if ascii_eqb x c then pos else py_find_from c (pos + 1) r
  end.

Definition py_find (c : ascii) (s : text) : Z := py_find_from c 0 s.

(** [l[i:j]] with Python's negative and out-of-range bounds. *)
Definition py_slice {A} (l : list A) (i j : Z) : list A :=
  let n := len l in
  let clip (k : Z) := if k <? 0 then Z.max 0 (n + k) else Z.min k n in
  let start := clip i in
  let stop := clip j in
  take (Z.to_nat (stop - start)) (drop (Z.to_nat start) l).

(** [line[line.find("(")+1:line.find(")")]]: the stash id of a line of the
    stash section. *)
Definition stash_id_of_line (line : text) : text :=
  py_slice line (py_find "("%char line + 1) (py_find ")"%char line).

(** An entry of [get_stashes()], with its id as [format] prints it. *)
Record Stash : Type := mkStash {
  stash_id : text;
  description : text
}.

(** ["    ({}) {}".format(stash.id, stash.description)]. *)
Definition stash_line (stash : Stash) : text :=
  str "    (" ++ stash_id stash ++ str ") " ++ description stash.

Definition STASHES_TEMPLATE (body : text) : text :=
  [LF] ++ str "  STASHES:" ++ [LF] ++ body ++ [LF].
Definition STAGED_TEMPLATE (body : text) : text :=
  [LF] ++ str "  STAGED:" ++ [LF] ++ body ++ [LF].
Definition UNSTAGED_TEMPLATE (body : text) : text :=
  [LF] ++ str "  UNSTAGED:" ++ [LF] ++ body ++ [LF].
Definition UNTRACKED_TEMPLATE (body : text) : text :=
  [LF] ++ str "  UNTRACKED:" ++ [LF] ++ body ++ [LF].
Definition MERGE_CONFLICTS_TEMPLATE (body : text) : text :=
  [LF] ++ str "  MERGE CONFLICTS:" ++ [LF] ++ body ++ [LF].
Definition STATUS_HEADER_TEMPLATE (branch_status repo_root : text) : text :=
  [LF] ++ str "  BRANCH:  " ++ branch_status ++ [LF]
  ++ str "  ROOT:    " ++ repo_root ++ [LF].
Definition NO_STATUS_MESSAGE : text :=
  [LF] ++ str "  Your working directory is clean." ++ [LF].

Definition KEY_BINDINGS_MENU : text :=
  lines_text
    [ "";
      "  ###################                   ###############";
      "  ## SELECTED FILE ##                   ## ALL FILES ##";
      "  ###################                   ###############";
      "";
      "  [o] open file                         [a] stage all unstaged files";
      "  [s] stage file                        [A] stage all unstaged and untracked files";
      "  [u] unstage file                      [U] unstage all staged files";
      "  [d] discard changes to file           [D] discard all unstaged changes";
      "  [h] open file on remote";
      "  [M] resolve conflict with Sublimerge";
      "";
      "  [l] diff file inline                  [f] diff all files";
      "                                        [F] diff all cached files";
      "";
      "  #############                         #############";
      "  ## ACTIONS ##                         ## STASHES ##";
      "  #############                         #############";
      "";
      "  [c] commit                            [t][a] apply stash";
      "  [C] commit, including unstaged        [t][p] pop stash";
      "  [m] amend previous commit             [t][s] show stash";
      "                                        [t][c] create stash";
      "  [i] ignore file                       [t][u] create stash including untracked files";
      "  [I] ignore pattern                    [t][d] discard stash";
      "";
      "  ###########";
      "  ## OTHER ##";
      "  ###########";
      "";
      "  [r] refresh status";
      "";
      "-";
      "" ].

(** [get_stashes_contents(self)], for the stashes [get_stashes()] returned. *)
Definition get_stashes_contents (stash_list : list Stash) : text :=
  match stash_list with
  | [] => []
  | _ => STASHES_TEMPLATE (join [LF] (map stash_line stash_list))
  end.

(** ["\n".join("    " + f.path for f in files)]. *)
Definition path_lines (files : list FileStatus) : text :=
  join [LF] (map (fun f => str "    " ++ path f) files).

(** One [if section:] block of [get_contents]: the cursor, the text so far,
    and the region of the section. *)
Definition add_section (template : text -> text) (files : list FileStatus)
    (state : Z * text) : Z * text * Region.t :=
  let '(cursor, status_text) := state in
  match files with
  | [] => (cursor, status_text, Region.mk 0 0)
  | _ =>
      let section_text := template (path_lines files) in
      (cursor + len section_text, status_text ++ section_text,
       Region.mk cursor (cursor + len section_text))
  end.

(** [get_contents(self)], for what [get_branch_status()], [repo_path],
    [get_status()] and [get_stashes()] returned: the contents and the regions
    of the unstaged, conflicts, untracked and staged sections. *)
Definition get_contents (branch_status repo_root : text)
    (file_status_list : list FileStatus) (stash_list : list Stash)
  : text * (Region.t * Region.t * Region.t * Region.t) :=
  let header := STATUS_HEADER_TEMPLATE branch_status repo_root in
  let sorted := sort_status_entries file_status_list in
  let '(cursor1, text1, unstaged_region) :=
    add_section UNSTAGED_TEMPLATE (unstaged sorted) (len header, []) in
  let '(cursor2, text2, conflicts_region) :=
    add_section MERGE_CONFLICTS_TEMPLATE (conflicts sorted) (cursor1, text1) in
  let '(cursor3, text3, untracked_region) :=
    add_section UNTRACKED_TEMPLATE (untracked sorted) (cursor2, text2) in
  let '(cursor4, text4, staged_region) :=
    add_section STAGED_TEMPLATE (staged sorted) (cursor3, text3) in
  let status_text := match text4 with [] => NO_STATUS_MESSAGE | _ => text4 end in
  (header ++ status_text ++ get_stashes_contents stash_list ++ KEY_BINDINGS_MENU,
   (unstaged_region, conflicts_region, untracked_region, staged_region)).

(** What the stash commands do after reading the selected lines. *)
Inductive StashEvent : Type :=
| SublimeStatusMessage (msg : text)   (* [sublime.status_message] *)
| ApplyStash (id : text)              (* [self.apply_stash(id)] *)
| StatusRefresh.                      (* [run_command("gg_status_refresh")] *)

(** [tuple(line[line.find("(")+1:line.find(")")] for line in lines if line)]. *)
Definition stash_ids (lines : list text) : list text :=
  map stash_id_of_line (filter (fun line => line <> []) lines).

(** [GgStatusApplyStashCommand.run], for the lines
    [util.get_lines_from_regions] returned. *)
Definition GgStatusApplyStashCommand_run (lines : list text) : result (list StashEvent) :=
  let ids := stash_ids lines in
  if 1 <? len ids then
    Ok [SublimeStatusMessage (str "You can only apply one stash at a time.")]
  else
    let! id := py_index ids 0 in
    Ok [ApplyStash id; StatusRefresh].

(** ** Predicates of the further statements *)

(** Offset [k] is the first character of a line of the buffer. *)
Definition line_start (buf : text) (k : nat) : Prop :=
  k = 0%nat \/ buf !! (k - 1)%nat = Some LF.

(** The name of the file of a jump position. *)
Definition filename_of (item : text * Z * Z) : text := fst (fst item).

(** The line as [_recount_lines] read it off a body line. *)
Definition body_line_of (l : HunkLine) : text := mode l :: text_ l.

(** The line shows in the new file and is not blank. *)
Definition visible (l : HunkLine) : bool :=
  (ascii_eqb (mode l) "+"%char || ascii_eqb (mode l) " "%char)
  && negb (match strip (text_ l) with [] => true | _ => false end).

(** The entry has an unmerged pair of status characters. *)
Definition in_conflict (f : FileStatus) : bool :=
  bool_decide ((index_status f, working_status f) ∈ MERGE_CONFLICT_PORCELAIN_STATUSES).

(** The entry is not in conflict and is unknown to the index. *)
Definition is_untracked (f : FileStatus) : bool :=
  negb (in_conflict f) && bool_decide (index_status f = str "?").

(** The entry is tracked, not in conflict, and modified or deleted in the
    working tree. *)
Definition is_unstaged (f : FileStatus) : bool :=
  negb (in_conflict f) && negb (bool_decide (index_status f = str "?"))
  && bool_decide (working_status f ∈ [str "M"; str "D"]).

(** The entry is tracked, not in conflict, and changed in the index. *)
Definition is_staged (f : FileStatus) : bool :=
  negb (in_conflict f) && negb (bool_decide (index_status f = str "?"))
  && negb (bool_decide (index_status f = str " ")).

(** The region of a section delimits the section's text in the contents;
    a section without files has the empty region at 0. *)
Definition section_shown (contents : text) (template : text -> text)
    (files : list FileStatus) (r : Region.t) : Prop :=
  match files with
  | [] => r = Region.mk 0 0
  | _ => Region.a r <= Region.b r /\ substr contents r = template (path_lines files)
  end.

(** * The other commands of the diff view *)

Section MoreCommands.
Context {host : Host}.

Notation "'do' x <- m ; k" := (bindM m (fun x => k))
  (at level 10, x name, m at level 100, k at level 200).
Notation "m ;; k" := (bindM m (fun _ => k))
  (at level 100, k at level 200, right associativity).

(** *** GsDiffToggleSetting *)

(** [GsDiffToggleSetting.run(self, edit, setting)]. *)
Definition GsDiffToggleSetting_run (setting : string) : M unit :=
  let setting_str := String.append "git_savvy.diff_view." setting in
  do current_mode <- get setting_str;
  let next_mode := negb (truthy current_mode) in
  set setting_str (VBool next_mode) ;;
  window_status_message
    (str setting ++ str " is now " ++ py_str (VBool next_mode)) ;;
  gs_diff_refresh.

(** *** GsDiffUndo *)

(** [sel.add(c)] for every [c] of a list taken from the settings: a point for
    an integer; anything else stops the loop with a [TypeError], the regions
    added before it staying. *)
Fixpoint add_points (cs : list value) (added : list Region.t) : list Region.t * bool :=
  match cs with
  | [] => (added, true)
  | VInt pt :: rest => add_points rest (selection_add added (Region.mk pt pt))
  | VBool c :: rest =>
      add_points rest (selection_add added (let pt := if c then 1 else 0 in Region.mk pt pt))
  | _ :: _ => (added, false)
  end.

(** [set_and_show_cursor(view, cursors)] for a value taken from the
    settings: the selection is cleared before anything is added. *)
Definition set_and_show_cursor_value (cs : value) : M unit :=
  let set_sel (s : list Region.t) : M unit :=
    set_view (fun v => mkView (content v) s (settings v) (has_window v)) in
  match cs with
  | VInt pt => set_and_show_cursor (OnePoint pt)
  | VBool c => set_and_show_cursor (OnePoint (if c then 1 else 0))
  | VList l =>
      match add_points l [] with
      | (added, true) => set_sel added ;; emit (Show added)
      | (added, false) => set_sel added ;; raise TypeError
      end
  | VStr [] => set_sel [] ;; emit (Show [])
  | VStr (_ :: _) => set_sel [] ;; raise TypeError
  | VNone => set_sel [] ;; raise TypeError
  end.

(** [args[1] = "-R" if not args[1] else None]. *)
Definition toggle_reverse (args : value) : result (list value) :=
  match args with
  | VList l =>
      match l !! 1%nat with
      | Some flag => Ok (<[1%nat := if truthy flag then VNone else VStr (str "-R")]> l)
      | None => Raise IndexError
      end
  | VStr s => if len s <? 2 then Raise IndexError else Raise TypeError
  | _ => Raise TypeError
  end.

(** [args, stdin, cursors, in_cached_mode = entry]. *)
Definition unpack_entry (entry : value) : result (value * value * value * value) :=
  match entry with
  | VList [args; stdin; cs; in_cached_mode] => Ok (args, stdin, cs, in_cached_mode)
  | VList _ => Raise ValueError
  | VStr [c1; c2; c3; c4] => Ok (VStr [c1], VStr [c2], VStr [c3], VStr [c4])
  | VStr _ => Raise ValueError
  | _ => Raise TypeError
  end.

(** The [stdin] of a recorded call, as [self.git] takes it: a string or
    nothing. *)
Definition stdin_of (x : value) : result (option text) :=
  match x with
  | VStr s => Ok (Some s)
  | VNone => Ok None
  | _ => Raise TypeError
  end.

(** [GsDiffUndo.run(self, edit)]. *)
Definition GsDiffUndo_run : M unit :=
  do history <- get "git_savvy.diff_view.history";
  if negb (truthy history) then
    do v <- get_view;
    if has_window v then emit (StatusMessage (str "Undo stack is empty")) else ret tt
  else
    match history with
    | VList entries =>
        match last entries with
        | None => ret tt
        | Some entry =>
            let remaining := take (length entries - 1) entries in
            do unpacked <- lift (unpack_entry entry);
            let '(args, stdin, cs, in_cached_mode) := unpacked in
            do args' <- lift (toggle_reverse args);
            do input <- lift (stdin_of stdin);
            do _out <- call_git args' input;
            set "git_savvy.diff_view.history" (VList remaining) ;;
            set "git_savvy.diff_view.just_hunked" stdin ;;
            gs_diff_refresh ;;
            do now <- get "git_savvy.diff_view.in_cached_mode";
            if py_eq now in_cached_mode then set_and_show_cursor_value cs else ret tt
        end
    | _ => raise AttributeError
    end.

(** *** GsDiffZoom *)

(** The order in which Python iterates over a set of integers, given its
    elements in increasing order. *)
Variable set_iteration : list Z -> list Z.

(** [current + amount]. *)
Definition py_add_int (current : value) (amount : Z) : result Z :=
  match current with
  | VInt z => Ok (z + amount)
  | VBool c => Ok ((if c then 1 else 0) + amount)
  | _ => Raise TypeError
  end.

(** The text of header and hunk under every selection, [s.a] deciding. *)
Definition hunks_under_selection (v : View) : result (list text) :=
  let diff := parse_diff_in_view v in
  let! found := filter_map_result (head_and_hunk_for_pt diff) (map Region.a (sel v)) in
  Ok (map (fun hh : (Z * Z) * (Z * Z) =>
             extract_content v (fst hh) ++ extract_content v (snd hh)) found).

(** The starts of the regions [find_hunk_in_view] finds for the texts, as a
    set. *)
Definition relocated_starts (v : View) (cur_hunks : list text) : list Z :=
  sorted_set
    (omap (fun hunk => match find_hunk_in_view v hunk with
                       | Some region => if Region.truthy region then Some (Region.a region)
                                        else None
                       | None => None
                       end) cur_hunks).

(** [GsDiffZoom.run(self, edit, amount)]. *)
Definition GsDiffZoom_run (amount : Z) : M unit :=
  do current <- get "git_savvy.diff_view.context_lines";
  do sum <- lift (py_add_int current amount);
  let next := Z.max sum 0 in
  set "git_savvy.diff_view.context_lines" (VInt next) ;;
  do v <- get_view;
  do cur_hunks <- lift (hunks_under_selection v);
  gs_diff_refresh ;;
  do v' <- get_view;
  match relocated_starts v' cur_hunks with
  | [] => ret tt
  | starts =>
      set_and_show_cursor
        (ManyRegions (map (fun pt => Region.mk pt pt) (set_iteration starts)))
  end.

(** *** Predicates of the statements about commands *)

(** The command leaves the setting as it found it. *)
Definition keeps (key : string) {A} (m : M A) : Prop :=
  forall w, settings_get key (view (snd (m w))) = settings_get key (view w).

(** The world after a call of [git] with the given outcome. *)
Definition after_git (w : World) (args : list value) (stdin : option text) : World :=
  mkWorld (view w) (snd (git (repo w) args stdin)) (prefs w)
          (log w ++ [GitCall args stdin]).

(** The event is a call of [git]. *)
Definition is_git_call (e : Event) : bool :=
  match e with
  | GitCall _ _ => true
  | _ => false
  end.

(** The undo entry [apply_patch] records. *)
Definition undo_entry (args : list value) (patch : text) (pts : list Z)
    (in_cached_mode : value) : value :=
  VList [VList args; VStr patch; VList (map VInt pts); in_cached_mode].

End MoreCommands.

(** * Facts *)

(** ** Symmetric shrinking *)

Lemma shrink_list_sym_cons {A} (x : A) (r : list A) :
  shrink_list_sym (x :: r) = (x :: r) :: shrink_list_sym (drop_ends (x :: r)).
Proof. by simp shrink_list_sym. Qed.

Lemma drop_ends_length {A} (l : list A) : length (drop_ends l) = (length l - 2)%nat.
Proof. unfold drop_ends. rewrite length_take, length_drop. lia. Qed.

Lemma drop_ends_iter {A} (k : nat) (l : list A) :
  Nat.iter k drop_ends l = take (length l - 2 * k) (drop k l).
Proof.
  induction k as [|k IH]; simpl.
  - rewrite drop_0, Nat.sub_0_r. by rewrite firstn_all.
  - rewrite IH. unfold drop_ends.
    rewrite length_take, length_drop, skipn_firstn_comm, drop_drop, take_take.
    replace (k + 1)%nat with (S k) by lia. f_equal. lia.
Qed.

Lemma drop_ends_iter_nil {A} (k : nat) : Nat.iter k drop_ends (@nil A) = [].
Proof. induction k as [|k IH]; simpl; [done|]. by rewrite IH. Qed.

Lemma iter_drop_ends_shift {A} (k : nat) (l : list A) :
  Nat.iter (S k) drop_ends l = Nat.iter k drop_ends (drop_ends l).
Proof. induction k as [|k IH]; [done|]. simpl in *. by rewrite IH. Qed.

Lemma shrink_list_sym_lookup {A} (l : list A) (k : nat) (y : list A) :
  shrink_list_sym l !! k = Some y <-> y = Nat.iter k drop_ends l /\ y <> [].
Proof.
  remember (length l) as n eqn:Hn. revert l k Hn.
  induction n as [n IH] using lt_wf_ind. intros l k Hn.
  destruct l as [|x r].
  - simp shrink_list_sym. rewrite drop_ends_iter_nil. split; [done|]. by intros [-> ?].
  - rewrite shrink_list_sym_cons. destruct k as [|k].
    + simpl. split; [intros [= <-]; done | intros [-> _]; done].
    + rewrite iter_drop_ends_shift. simpl lookup.
      apply (IH (length (drop_ends (x :: r)))); [|done].
      rewrite drop_ends_length. simpl in *. lia.
Qed.

Lemma shrink_list_sym_length {A} (l : list A) :
  length (shrink_list_sym l) = Nat.div2 (S (length l)).
Proof.
  remember (length l) as n eqn:Hn. revert l Hn.
  induction n as [n IH] using lt_wf_ind. intros l Hn.
  destruct l as [|x r]; [by subst|].
  rewrite shrink_list_sym_cons. simpl length.
  rewrite (IH (length (drop_ends (x :: r)))); rewrite ?drop_ends_length; simpl in *; try lia.
  subst n. destruct r as [|y r]; simpl; [done|]. by rewrite Nat.sub_0_r.
Qed.

Lemma div2_odd (m : nat) : Nat.div2 (S (2 * m + 1)) = S m.
Proof.
  replace (S (2 * m + 1)) with (2 * S m)%nat by lia. apply Nat.div2_double.
Qed.

(** C8 (amended): for every list, the yields of [shrink_list_sym] are the
    list itself and then, each time, the previous yield without its first and
    last element, for as long as that is not empty: the [k]-th yield exists
    exactly when dropping both ends [k] times leaves something, and it is that
    remainder. There are [(n+1)/2] yields for a list of [n] elements, the
    empty list is never yielded (nothing at all is yielded for the empty
    list), and for an odd length [2m+1] the last yield is the single middle
    element. *)
Theorem shrink_list_sym_yields {A} (l : list A) :
  (forall k y, shrink_list_sym l !! k = Some y <-> y = Nat.iter k drop_ends l /\ y <> [])
  /\ (forall k y, shrink_list_sym l !! k = Some y ->
        y = take (length l - 2 * k) (drop k l))
  /\ length (shrink_list_sym l) = Nat.div2 (S (length l))
  /\ ([] ∉ shrink_list_sym l)
  /\ (forall m x, length l = (2 * m + 1)%nat -> l !! m = Some x ->
        List.last (shrink_list_sym l) [] = [x]
        /\ shrink_list_sym l !! m = Some [x]
        /\ shrink_list_sym l !! S m = None).
Proof.
  split; [apply shrink_list_sym_lookup|].
  split.
  { intros k y [-> _]%shrink_list_sym_lookup. apply drop_ends_iter. }
  split; [apply shrink_list_sym_length|].
  split.
  { intros [k Hk]%list_elem_of_lookup. apply shrink_list_sym_lookup in Hk. by destruct Hk. }
  intros m x Hlen Hx.
  assert (Hm : shrink_list_sym l !! m = Some [x]).
  { apply shrink_list_sym_lookup. split; [|done].
    rewrite drop_ends_iter, Hlen.
    replace (2 * m + 1 - 2 * m)%nat with 1%nat by lia.
    apply take_drop_middle in Hx as Hsplit. rewrite <- Hsplit at 1.
    assert (length (take m l) = m) by (rewrite length_take; lia).
    rewrite drop_app_length'; done. }
  assert (Hl : length (shrink_list_sym l) = S m).
  { rewrite shrink_list_sym_length, Hlen. apply div2_odd. }
  split; [|split; [done|]].
  - rewrite <- (take_drop m (shrink_list_sym l)).
    apply drop_S in Hm as Hd. rewrite Hd.
    rewrite (drop_ge _ (S m)) by lia. by rewrite last_last.
  - apply lookup_ge_None. lia.
Qed.

(** C8, at an input: a three-line list is yielded whole and then shrunk to
    its middle line. *)
Lemma shrink_list_sym_yields_witness :
  shrink_list_sym [1; 2; 3] = [[1; 2; 3]; [2]]
  /\ List.last (shrink_list_sym [1; 2; 3]) [] = [2].
Proof.
  split; [reflexivity|].
  exact (proj1 (proj2 (proj2 (proj2 (proj2 (shrink_list_sym_yields [1; 2; 3]))))
                 1%nat 2 eq_refl eq_refl)).
Defined.

(** C8, as stated, fails: the last yield of a one-line list is that line, and
    the empty list is not among the yields of a three-line list. *)
Lemma shrink_list_sym_last_yield_not_empty :
  shrink_list_sym [1] = [[1]]
  /\ List.last (shrink_list_sym [1; 2; 3]) [] = [2]
  /\ existsb (fun y => match y with [] => true | _ => false end)
             (shrink_list_sym [1; 2; 3]) = false.
Proof. repeat split. Qed.

(** ** Line numbers of a hunk *)


Lemma ascii_eqb_eq (x y : ascii) : ascii_eqb x y = true <-> x = y.
Proof. apply Ascii.eqb_eq. Qed.

Lemma ascii_eqb_neq (x y : ascii) : ascii_eqb x y = false <-> x <> y.
Proof. apply Ascii.eqb_neq. Qed.

(** The row of the [i]-th line: the start plus the retained lines before it. *)
Lemma recount_lines_b (lines : list text) (b0 : Z) (ls : list HunkLine) :
  _recount_lines lines b0 = Ok ls ->
  forall i l, ls !! i = Some l -> b l = b0 + len (filter (fun x => retained x = true) (take i ls)).
Proof.
  revert b0 ls. induction lines as [|line rest IH]; intros b0 ls H i l Hl.
  - injection H as <-. by rewrite lookup_nil in Hl.
  - simpl in H. destruct line as [|c tail]; [done|].
    destruct (_recount_lines rest _) as [more|] eqn:Hrest; [|done].
    injection H as <-.
    destruct i as [|i]; simpl in Hl.
    + injection Hl as <-. simpl. unfold len. simpl. lia.
    + specialize (IH _ _ Hrest i l Hl). rewrite IH. simpl take.
      rewrite filter_cons.
      destruct (ascii_eqb c "-") eqn:Hc; case_decide as Hd;
        unfold retained in Hd; simpl in Hd; rewrite Hc in Hd; try done.
      unfold len. simpl length. lia.
Qed.

Lemma recount_lines_length (lines : list text) (b0 : Z) (ls : list HunkLine) :
  _recount_lines lines b0 = Ok ls -> length ls = length lines.
Proof.
  revert b0 ls. induction lines as [|line rest IH]; intros b0 ls H.
  - by injection H as <-.
  - simpl in H. destruct line as [|c tail]; [done|].
    destruct (_recount_lines rest _) as [more|] eqn:Hrest; [|done].
    injection H as <-. simpl. f_equal. eauto.
Qed.

(** The generator runs to its end exactly when no line is empty. *)
Lemma recount_lines_total (lines : list text) (b0 : Z) :
  Forall (fun line => line <> []) lines <-> exists ls, _recount_lines lines b0 = Ok ls.
Proof.
  revert b0. induction lines as [|line rest IH]; intros b0.
  - split; [by exists []|constructor].
  - simpl. destruct line as [|c tail].
    + split; [by intros [? _]%Forall_cons|by intros [? ?]].
    + split.
      * intros [_ Hr]%Forall_cons. apply (IH (if ascii_eqb c "-" then b0 else b0 + 1)) in Hr.
        destruct Hr as [more ->]. by eexists.
      * intros [ls H]. constructor; [done|].
        apply (IH (if ascii_eqb c "-" then b0 else b0 + 1)).
        destruct (_recount_lines rest _); [by eexists|done].
Qed.

Lemma split_hunk_inv (hunk : text) (ls : list HunkLine) :
  split_hunk hunk = Ok (Some ls) ->
  exists head tail g1 g2,
    split LF (rstrip hunk) = head :: tail
    /\ hunks_lines_re_search head = Some (g1, g2)
    /\ _recount_lines tail (int_of_digits g2) = Ok ls.
Proof.
  unfold split_hunk. destruct (split LF (rstrip hunk)) as [|head tail]; [done|].
  destruct (hunks_lines_re_search head) as [[g1 g2]|] eqn:Hs; [|done].
  destruct (_recount_lines tail _) as [ls'|] eqn:Hr; [|done].
  simpl. intros [= <-]. by exists head, tail, g1, g2.
Qed.

Lemma filter_take_le {A} (P : A -> Prop) `{!forall x, Decision (P x)} (l : list A) (i j : nat) :
  (i <= j)%nat -> (length (filter P (take i l)) <= length (filter P (take j l)))%nat.
Proof.
  revert i j. induction l as [|x l IH]; intros i j Hij.
  - by rewrite !take_nil.
  - destruct i as [|i]; [simpl; lia|].
    destruct j as [|j]; [lia|]. simpl take. rewrite !filter_cons.
    specialize (IH i j ltac:(lia)). case_decide; simpl; lia.
Qed.

(** C6: for every hunk that [split_hunk] splits into lines, the first line
    carries the new-side start of the [@@] line, each line carries the start
    plus the number of retained (non-[-]) lines before it, so the row grows by
    exactly one after a retained line and not at all after a deleted one, rows
    never decrease along the hunk, and a deleted line carries the row of the
    nearest retained line after it. *)
Theorem split_hunk_rows (hunk : text) (ls : list HunkLine) :
  split_hunk hunk = Ok (Some ls) ->
  (exists head tail g1 newStart,
      split LF (rstrip hunk) = head :: tail
      /\ hunks_lines_re_search head = Some (g1, newStart)
      /\ length ls = length tail
      /\ (forall l, ls !! 0%nat = Some l -> b l = int_of_digits newStart)
      /\ (forall i l, ls !! i = Some l ->
            b l = int_of_digits newStart
                  + len (filter (fun x => retained x = true) (take i ls))))
  /\ (forall i l1 l2, ls !! i = Some l1 -> ls !! S i = Some l2 ->
        b l2 = if ascii_eqb (mode l1) "-"%char then b l1 else b l1 + 1)
  /\ (forall i j l1 l2, (i <= j)%nat -> ls !! i = Some l1 -> ls !! j = Some l2 ->
        b l1 <= b l2)
  /\ (forall i j d r, (i < j)%nat ->
        ls !! i = Some d -> mode d = "-"%char ->
        ls !! j = Some r -> mode r <> "-"%char ->
        (forall k l, (i < k < j)%nat -> ls !! k = Some l -> mode l = "-"%char) ->
        b d = b r).
Proof.
  intros H. destruct (split_hunk_inv _ _ H) as (head & tail & g1 & g2 & Hsplit & Hre & Hrec).
  pose proof (recount_lines_b _ _ _ Hrec) as Hb.
  assert (Hstep : forall i l1 l2, ls !! i = Some l1 -> ls !! S i = Some l2 ->
            b l2 = if ascii_eqb (mode l1) "-"%char then b l1 else b l1 + 1).
  { intros i l1 l2 H1 H2. rewrite (Hb _ _ H1), (Hb _ _ H2).
    rewrite (take_S_r _ _ _ H1), filter_app, filter_cons, filter_nil.
    destruct (ascii_eqb (mode l1) "-") eqn:Hc; case_decide as Hd;
      unfold retained in Hd; rewrite Hc in Hd; try done.
    - by rewrite app_nil_r.
    - unfold len. rewrite length_app. simpl. lia. }
  split; [|split; [exact Hstep|split]].
  - exists head, tail, g1, g2. repeat split; try done.
    + eapply recount_lines_length, Hrec.
    + intros l Hl. rewrite (Hb _ _ Hl). simpl. unfold len. simpl. lia.
  - intros i j l1 l2 Hij H1 H2. rewrite (Hb _ _ H1), (Hb _ _ H2).
    pose proof (filter_take_le (fun x => retained x = true) ls i j Hij). unfold len. lia.
  - intros i j d r Hij Hd Hmd Hr Hmr Hbetween.
    assert (Hgen : forall n l, (i + n <= j)%nat -> ls !! (i + n)%nat = Some l -> b l = b d).
    { induction n as [|n IHn]; intros l Hn Hl.
      - rewrite Nat.add_0_r in Hl. congruence.
      - destruct (lookup_lt_is_Some_2 ls (i + n)%nat) as [p Hp].
        { apply lookup_lt_Some in Hl. lia. }
        replace (i + S n)%nat with (S (i + n)) in Hl by lia.
        rewrite (Hstep _ _ _ Hp Hl).
        assert (Hpm : mode p = "-"%char).
        { destruct n as [|n].
          - rewrite Nat.add_0_r in Hp. congruence.
          - apply (Hbetween (i + S n)%nat); [lia|done]. }
        rewrite Hpm. simpl. apply IHn; [lia|done]. }
    symmetry. apply (Hgen (j - i)%nat); [lia|]. by replace (i + (j - i))%nat with j by lia.
Qed.

(** C6, at an input: the hunk of the specification's example. *)
Lemma split_hunk_rows_witness :
  exists ls,
    split_hunk (lines_text ["@@ -1,3 +1,4 @@"; " line1"; "+line2"; "-line3"; " line4"])
    = Ok (Some ls)
    /\ map b ls = [1; 2; 3; 3]
    /\ (forall i j l1 l2, (i <= j)%nat -> ls !! i = Some l1 -> ls !! j = Some l2 ->
          b l1 <= b l2).
Proof.
  eexists. split; [reflexivity|]. split; [reflexivity|].
  exact (proj1 (proj2 (proj2 (split_hunk_rows
    (lines_text ["@@ -1,3 +1,4 @@"; " line1"; "+line2"; "-line3"; " line4"]) _ eq_refl)))).
Defined.

(** ** Header and hunk of an offset *)


Lemma pair_ltb_lt (p q : Z * Z) : pair_ltb p q = true <-> pair_lt p q.
Proof. unfold pair_ltb, pair_lt. destruct p, q; simpl. lia. Qed.

Lemma pair_ltb_nlt (p q : Z * Z) : pair_ltb p q = false <-> ~ pair_lt p q.
Proof. rewrite <- pair_ltb_lt. by destruct (pair_ltb p q). Qed.

Lemma pair_lt_irrefl (p : Z * Z) : ~ pair_lt p p.
Proof. unfold pair_lt. lia. Qed.

Lemma pair_lt_trans (p q r : Z * Z) : pair_lt p q -> pair_lt q r -> pair_lt p r.
Proof. unfold pair_lt. lia. Qed.

Lemma pair_le_lt_trans (p q r : Z * Z) : pair_le p q -> pair_lt q r -> pair_lt p r.
Proof. intros [H| ->]; [apply pair_lt_trans, H|done]. Qed.

Lemma pair_lt_le_trans (p q r : Z * Z) : pair_lt p q -> pair_le q r -> pair_lt p r.
Proof. intros H [H'| <-]; [eapply pair_lt_trans; eauto|done]. Qed.

Lemma pair_le_trans (p q r : Z * Z) : pair_le p q -> pair_le q r -> pair_le p r.
Proof. intros [H| ->]; [|done]. intros H'. left. eapply pair_lt_le_trans; eauto. Qed.

Lemma pair_le_refl (p : Z * Z) : pair_le p p.
Proof. by right. Qed.

Lemma pair_le_antisym (p q : Z * Z) : pair_le p q -> pair_le q p -> p = q.
Proof.
  intros [H|H] [H'|H']; try done. exfalso. eapply pair_lt_irrefl, pair_lt_trans; eauto.
Qed.

Lemma pair_total (p q : Z * Z) : pair_lt p q \/ pair_le q p.
Proof.
  unfold pair_le, pair_lt. destruct p as [p1 p2], q as [q1 q2]; simpl.
  destruct (Z.lt_total p1 q1) as [?|[?|?]]; [lia| |lia].
  destruct (Z.lt_total p2 q2) as [?|[?|?]]; [lia| |lia].
  right. right. congruence.
Qed.

Lemma pair_nlt_le (p q : Z * Z) : ~ pair_lt p q <-> pair_le q p.
Proof.
  split.
  - intros H. by destruct (pair_total p q).
  - intros H H'. eapply pair_lt_irrefl, pair_lt_le_trans; eauto.
Qed.

Lemma holds_spec (h : Z * Z) (pt : Z) :
  (fst h <=? pt) && (pt <? snd h) = true <-> holds h pt.
Proof. unfold holds. lia. Qed.

Lemma max_fold_spec (l : list (Z * Z)) (x : Z * Z) :
  let m := fold_left (fun m y => if pair_ltb m y then y else m) l x in
  (m = x \/ m ∈ l) /\ pair_le x m /\ forall y, y ∈ l -> pair_le y m.
Proof.
  revert x. induction l as [|y l IH]; intros x; simpl.
  - split; [by left|]. split; [apply pair_le_refl|]. by intros y ?%elem_of_nil.
  - destruct (pair_ltb x y) eqn:Hxy.
    + destruct (IH y) as (Hin & Hle & Hall). split; [|split].
      * right. destruct Hin as [-> | ?]; [by left|by right].
      * eapply pair_le_trans; [|exact Hle]. left. by apply pair_ltb_lt.
      * intros z [-> | ?]%elem_of_cons; [done|by apply Hall].
    + destruct (IH x) as (Hin & Hle & Hall). split; [|split].
      * destruct Hin as [-> | ?]; [by left|right; by right].
      * done.
      * intros z [-> | ?]%elem_of_cons; [|by apply Hall].
        eapply pair_le_trans; [|exact Hle]. apply pair_nlt_le. by apply pair_ltb_nlt.
Qed.

Lemma max_pair_spec (l : list (Z * Z)) :
  match max_pair l with
  | Ok m => m ∈ l /\ forall y, y ∈ l -> pair_le y m
  | Raise e => e = ValueError /\ l = []
  end.
Proof.
  destruct l as [|x l]; simpl; [done|].
  destruct (max_fold_spec l x) as (Hin & Hle & Hall). split.
  - destruct Hin as [-> | ?]; [by left|by right].
  - intros y [-> | ?]%elem_of_cons; [done|by apply Hall].
Qed.

Lemma hunk_for_pt_first (hs : list (Z * Z)) (pt : Z) :
  match hunk_for_pt hs pt with
  | Some hunk =>
      exists before after, hs = before ++ hunk :: after
        /\ Forall (fun h => ~ holds h pt) before /\ holds hunk pt
  | None => Forall (fun h => ~ holds h pt) hs
  end.
Proof.
  unfold hunk_for_pt. induction hs as [|h hs IH]; simpl; [constructor|].
  destruct ((fst h <=? pt) && (pt <? snd h)) eqn:Hh.
  - exists [], hs. split; [done|]. split; [constructor|by apply holds_spec].
  - assert (~ holds h pt) by (rewrite <- holds_spec; congruence).
    destruct (List.find _ hs) as [hunk|].
    + destruct IH as (before & after & -> & Hb & Hp).
      exists (h :: before), after. split; [done|]. split; [by constructor|done].
    + by constructor.
Qed.

Lemma hunk_for_pt_unique (hs : list (Z * Z)) (pt : Z) (before after : list (Z * Z)) (hunk : Z * Z) :
  hs = before ++ hunk :: after ->
  Forall (fun h => ~ holds h pt) before -> holds hunk pt ->
  hunk_for_pt hs pt = Some hunk.
Proof.
  intros -> Hb Hp. unfold hunk_for_pt.
  induction before as [|h before IH]; simpl.
  - apply holds_spec in Hp. by rewrite Hp.
  - apply Forall_cons in Hb as [Hh Hb].
    destruct ((fst h <=? pt) && (pt <? snd h)) eqn:E; [by apply holds_spec in E|].
    by apply IH.
Qed.

(** C4: for every parsed diff and offset, the query answers [None] exactly
    when no hunk span (half-open) holds the offset; when a span holds it, the
    hunk of the answer is the first such span of the list (the only one when
    spans do not overlap), paired with the greatest header pair below the
    hunk's pair in the order on pairs; and when no header pair is below the
    hunk's, the query raises [ValueError]. *)
Theorem head_and_hunk_for_pt_cases (diff : ParsedDiff) (pt : Z) :
  ((forall h, h ∈ hunks diff -> ~ holds h pt) <-> head_and_hunk_for_pt diff pt = Ok None)
  /\ (forall before hunk after,
        hunks diff = before ++ hunk :: after ->
        Forall (fun h => ~ holds h pt) before ->
        holds hunk pt ->
        ((exists header, header ∈ headers diff /\ pair_lt header hunk) ->
           exists best,
             head_and_hunk_for_pt diff pt = Ok (Some (best, hunk))
             /\ best ∈ headers diff
             /\ pair_lt best hunk
             /\ forall h, h ∈ headers diff -> pair_lt h hunk -> pair_le h best)
        /\ ((forall header, header ∈ headers diff -> ~ pair_lt header hunk) ->
              head_and_hunk_for_pt diff pt = Raise ValueError))
  /\ (forall hunk,
        hunk ∈ hunks diff -> holds hunk pt ->
        (forall h, h ∈ hunks diff -> holds h pt -> h = hunk) ->
        hunk_for_pt (hunks diff) pt = Some hunk).
Proof.
  unfold head_and_hunk_for_pt. split; [|split].
  - pose proof (hunk_for_pt_first (hunks diff) pt) as Hf.
    destruct (hunk_for_pt (hunks diff) pt) as [hunk|].
    + destruct Hf as (before & after & Heq & Hb & Hp). split.
      * intros Hno. exfalso. apply (Hno hunk); [|done]. rewrite Heq. set_solver.
      * destruct (max_pair _); done.
    + split; [done|]. intros _ h Hh. by eapply Forall_forall in Hf.
  - intros before hunk after Heq Hb Hp.
    rewrite (hunk_for_pt_unique _ _ _ _ _ Heq Hb Hp).
    pose proof (max_pair_spec (filter (fun h => pair_ltb h hunk) (headers diff))) as Hm.
    split.
    + intros (header & Hin & Hlt).
      destruct (max_pair _) as [best|e].
      * destruct Hm as [Hbest Hall]. exists best. split; [done|].
        apply list_elem_of_filter in Hbest as [Hbl%Is_true_true Hbest].
        split; [done|]. split; [by apply pair_ltb_lt|].
        intros h Hh Hhl. apply Hall, list_elem_of_filter.
        split; [by apply Is_true_true, pair_ltb_lt|done].
      * destruct Hm as [_ Hnil]. exfalso.
        assert (Hmem : header ∈ filter (fun h => pair_ltb h hunk) (headers diff)).
        { apply list_elem_of_filter. split; [by apply Is_true_true, pair_ltb_lt|done]. }
        rewrite Hnil in Hmem. by apply elem_of_nil in Hmem.
    + intros Hnone. destruct (max_pair _) as [best|e].
      * destruct Hm as [Hbest _]. exfalso.
        apply list_elem_of_filter in Hbest as [Hbl%Is_true_true Hbest].
        apply (Hnone best); [done|by apply pair_ltb_lt].
      * destruct Hm as [-> _]. done.
  - intros hunk Hin Hp Huniq.
    pose proof (hunk_for_pt_first (hunks diff) pt) as Hf.
    destruct (hunk_for_pt (hunks diff) pt) as [hunk'|].
    + destruct Hf as (before & after & Heq & Hb & Hp'). f_equal. apply Huniq; [|done].
      rewrite Heq. set_solver.
    + exfalso. by eapply Forall_forall in Hf.
Qed.

(** ** A cursor on a deleted line *)


Lemma first_visible_row_ge (index : Z) (ls : list HunkLine) :
  1 <= index -> 1 <= first_visible_row index ls.
Proof.
  revert index. induction ls as [|l ls IH]; intros index Hi; simpl; [lia|].
  destruct (_ && _); [done|]. apply IH. lia.
Qed.

Lemma py_index_lookup {A} (l : list A) (i : Z) (x : A) :
  0 <= i -> l !! Z.to_nat i = Some x -> py_index l i = Ok x.
Proof.
  intros Hi Hx. unfold py_index.
  apply lookup_lt_Some in Hx as Hlt.
  replace (i <? 0) with false by lia.
  replace ((i <? 0) || (len l <=? i)) with false by (unfold len; lia).
  by rewrite Hx.
Qed.

Lemma py_slice_from_drop {A} (l : list A) (i : Z) :
  0 <= i -> py_slice_from l i = drop (Z.to_nat i) l.
Proof. intros Hi. unfold py_slice_from. by replace (i <? 0) with false by lia. Qed.

Lemma next_available_passed_over (line : HunkLine) (col : Z) (skipped rest : list HunkLine) :
  Forall passed_over skipped ->
  next_available line col (skipped ++ rest) = next_available line col rest.
Proof.
  induction 1 as [|l skipped [Hp Hc] _ IH]; [done|]. simpl.
  apply ascii_eqb_neq in Hp, Hc. by rewrite Hp, Hc.
Qed.

Lemma next_available_none (line : HunkLine) (col : Z) (rest : list HunkLine) :
  Forall passed_over rest -> next_available line col rest = (b line, 1).
Proof.
  intros H. rewrite <- (app_nil_r rest). by rewrite next_available_passed_over.
Qed.

(** What [real_rowcol_in_hunk] computes once the targeted line is known to be
    a deleted one. *)
Lemma real_rowcol_in_hunk_deleted (hunk : text) (hunk_lines : list HunkLine)
    (row col : Z) (line : HunkLine) :
  split_hunk hunk = Ok (Some hunk_lines) ->
  0 <= row ->
  let target := if row =? 0 then first_visible_row 1 hunk_lines else row in
  hunk_lines !! Z.to_nat (target - 1) = Some line ->
  mode line = "-"%char ->
  real_rowcol_in_hunk hunk (row, col)
  = Ok (Some (next_available line (if row =? 0 then 1 else col)
                             (drop (Z.to_nat target) hunk_lines))).
Proof.
  intros Hsplit Hrow target Hline Hmode. unfold real_rowcol_in_hunk.
  rewrite Hsplit. simpl bind.
  destruct hunk_lines as [|l0 ls]; [by rewrite lookup_nil in Hline|].
  assert (Htarget : 1 <= target).
  { unfold target. destruct (row =? 0) eqn:E; [by apply first_visible_row_ge|lia]. }
  fold target. rewrite (py_index_lookup _ _ line) by (done || lia). simpl bind.
  rewrite Hmode. simpl negb. cbv iota.
  rewrite py_slice_from_drop by lia. done.
Qed.

(** C3 (amended): for every hunk and every cursor whose targeted body line is
    a deleted one, the mapper scans the lines after it and stops at the first
    line that is added or context, whichever comes first: an added line
    gives its row and the column cut to one past its text; a context line
    gives its row and its indentation plus one when it is indented like the
    deleted line, and otherwise the row before the deleted line's (at least
    1) and column 1; when no line after the deleted one is added or context
    (in particular when no line follows) the answer is the deleted line's own
    row and column 1. For the hunk of the example a cursor on the [-line3]
    row gets row and column of the context line [line4] that follows. *)
Theorem real_rowcol_on_deleted_line :
  (forall (hunk : text) (hunk_lines : list HunkLine) (row col : Z) (line : HunkLine),
      split_hunk hunk = Ok (Some hunk_lines) ->
      0 <= row ->
      let target := if row =? 0 then first_visible_row 1 hunk_lines else row in
      let column := if row =? 0 then 1 else col in
      hunk_lines !! Z.to_nat (target - 1) = Some line ->
      mode line = "-"%char ->
      (forall skipped next_line after,
          drop (Z.to_nat target) hunk_lines = skipped ++ next_line :: after ->
          Forall passed_over skipped ->
          (mode next_line = "+"%char ->
             real_rowcol_in_hunk hunk (row, col)
             = Ok (Some (b next_line, Z.min column (len (text_ next_line) + 1))))
          /\ (mode next_line = " "%char ->
              line_indentation (text_ next_line) = line_indentation (text_ line) ->
              real_rowcol_in_hunk hunk (row, col)
              = Ok (Some (b next_line, line_indentation (text_ next_line) + 1)))
          /\ (mode next_line = " "%char ->
              line_indentation (text_ next_line) <> line_indentation (text_ line) ->
              real_rowcol_in_hunk hunk (row, col)
              = Ok (Some (Z.max 1 (b line - 1), 1))))
      /\ (Forall passed_over (drop (Z.to_nat target) hunk_lines) ->
          real_rowcol_in_hunk hunk (row, col) = Ok (Some (b line, 1))))
  /\ (forall col,
        exists line1 line2 line3 line4,
          split_hunk hunk_example = Ok (Some [line1; line2; line3; line4])
          /\ mode line3 = "-"%char /\ text_ line3 = str "line3"
          /\ mode line4 = " "%char /\ text_ line4 = str "line4"
          /\ real_rowcol_in_hunk hunk_example (3, col)
             = Ok (Some (b line4, line_indentation (text_ line4) + 1))
          /\ (b line4, line_indentation (text_ line4) + 1) = (3, 1)).
Proof.
  split.
  - intros hunk hunk_lines row col line Hsplit Hrow target column Hline Hmode.
    pose proof (real_rowcol_in_hunk_deleted _ _ _ col _ Hsplit Hrow Hline Hmode) as Hreal.
    fold target column in Hreal. split.
    + intros skipped next_line after Hrest Hskipped.
      rewrite Hreal, Hrest, next_available_passed_over by done. simpl.
      split; [|split].
      * intros ->. done.
      * intros -> Hind. simpl. apply Z.eqb_eq in Hind. by rewrite Hind.
      * intros -> Hind. simpl. apply Z.eqb_neq in Hind. by rewrite Hind.
    + intros Hnone. by rewrite Hreal, next_available_none.
  - intros col. do 4 eexists. split; [reflexivity|]. repeat split.
Qed.

(** C3, at an input: a deleted line with an added line right after it. *)
Lemma real_rowcol_on_deleted_line_witness :
  real_rowcol_in_hunk (lines_text ["@@ -4,2 +4,2 @@"; " keep"; "-old"; "+newer"]) (2, 9)
  = Ok (Some (5, 6)).
Proof.
  exact (proj1 (proj1 (proj1 real_rowcol_on_deleted_line
    (lines_text ["@@ -4,2 +4,2 @@"; " keep"; "-old"; "+newer"])
    [mkHunkLine " " (str "keep") 4; mkHunkLine "-" (str "old") 5;
     mkHunkLine "+" (str "newer") 5]
    2 9 (mkHunkLine "-" (str "old") 5) eq_refl ltac:(done) eq_refl eq_refl)
    [] (mkHunkLine "+" (str "newer") 5) [] eq_refl (List.Forall_nil _)) eq_refl).
Defined.

(** C3, as stated, fails: with a context line between the deleted line and
    the first added line the code answers from the context line (row 1),
    where the first added line would give row 2. *)
Lemma real_rowcol_context_before_added :
  split_hunk hunk_deleted_context_added
  = Ok (Some [mkHunkLine "-" (str "old") 1; mkHunkLine " " (str "ctx") 1;
              mkHunkLine "+" (str "new") 2])
  /\ first_with_mode "+"%char [mkHunkLine " " (str "ctx") 1; mkHunkLine "+" (str "new") 2]
     = Some (mkHunkLine "+" (str "new") 2)
  /\ next_available_as_specified (mkHunkLine "-" (str "old") 1) 1
       [mkHunkLine " " (str "ctx") 1; mkHunkLine "+" (str "new") 2] = (2, 1)
  /\ real_rowcol_in_hunk hunk_deleted_context_added (1, 1) = Ok (Some (1, 1)).
Proof. repeat split. Qed.

(** ** The patch under the cursors *)


Lemma unique_fold {A} `{EqDecision A} (items rv : list A) :
  NoDup rv ->
  exists added,
    fold_left unique_step items rv = rv ++ added
    /\ NoDup (rv ++ added)
    /\ added `sublist_of` items
    /\ forall x, x ∈ rv ++ added <-> x ∈ rv \/ x ∈ items.
Proof.
  revert rv. induction items as [|item items IH]; intros rv Hrv; simpl.
  - exists []. rewrite app_nil_r. split; [done|]. split; [done|]. split; [done|].
    intros x. rewrite elem_of_nil. tauto.
  - unfold unique_step at 2. case_decide as Hin.
    + destruct (IH rv Hrv) as (added & Heq & Hnd & Hsub & Hmem).
      exists added. split; [done|]. split; [done|]. split; [by constructor|].
      intros x. rewrite Hmem, elem_of_cons. split; [tauto|].
      intros [?|[->|?]]; tauto.
    + assert (Hnd' : NoDup (rv ++ [item])).
      { apply NoDup_app. split; [done|]. split; [|apply NoDup_singleton].
        intros x Hx ->%list_elem_of_singleton. done. }
      destruct (IH _ Hnd') as (added & Heq & Hnd & Hsub & Hmem).
      exists (item :: added). rewrite <- app_assoc in Heq, Hnd, Hmem. simpl in *.
      split; [done|]. split; [done|]. split; [by constructor|].
      intros x. rewrite Hmem, elem_of_app, list_elem_of_singleton, elem_of_cons. tauto.
Qed.

(** [unique] keeps one copy of every item, in the order of the first
    occurrences. *)
Lemma unique_spec {A} `{EqDecision A} (items : list A) :
  NoDup (unique items)
  /\ unique items `sublist_of` items
  /\ forall x, x ∈ unique items <-> x ∈ items.
Proof.
  destruct (unique_fold items [] (NoDup_nil_2)) as (added & Heq & Hnd & Hsub & Hmem).
  unfold unique. rewrite Heq. simpl in *.
  split; [done|]. split; [done|]. intros x. rewrite Hmem, elem_of_nil. tauto.
Qed.

Lemma unique_step_in {A} `{EqDecision A} (rv : list A) (item : A) :
  item ∈ rv -> unique_step rv item = rv.
Proof. intros. unfold unique_step. by rewrite decide_True. Qed.

Lemma unique_step_notin {A} `{EqDecision A} (rv : list A) (item : A) :
  item ∉ rv -> unique_step rv item = rv ++ [item].
Proof. intros. unfold unique_step. by rewrite decide_False. Qed.


Lemma spans_under_blocks (diff : ParsedDiff) (pts : list Z) (spans : list (Z * Z)) :
  spans_under diff pts = Ok spans -> spans = concat (map (blocks_of diff) pts).
Proof.
  revert spans. induction pts as [|pt pts IH]; intros spans; simpl.
  - by intros [= <-].
  - unfold blocks_of at 1.
    destruct (head_and_hunk_for_pt diff pt) as [found|e]; [|done]. simpl.
    destruct (spans_under diff pts) as [more|e]; [|done]. simpl.
    specialize (IH more eq_refl).
    destruct found as [[header hunk]|]; intros [= <-]; simpl; by rewrite IH.
Qed.

Lemma spans_under_total (diff : ParsedDiff) (pts : list Z) :
  Forall (fun pt => exists found, head_and_hunk_for_pt diff pt = Ok found) pts <->
  exists spans, spans_under diff pts = Ok spans.
Proof.
  induction pts as [|pt pts IH]; simpl.
  - split; [by exists []|constructor].
  - rewrite Forall_cons, IH. split.
    + intros [[found ->] [more ->]]. simpl. destruct found as [[? ?]|]; by eexists.
    + intros [spans H]. destruct (head_and_hunk_for_pt diff pt) as [found|]; [|done].
      simpl in H. destruct (spans_under diff pts) as [more|]; [|done].
      split; by eexists.
Qed.

Lemma head_and_hunk_for_pt_inv (diff : ParsedDiff) (pt : Z) (header hunk : Z * Z) :
  head_and_hunk_for_pt diff pt = Ok (Some (header, hunk)) ->
  hunk_for_pt (hunks diff) pt = Some hunk
  /\ max_pair (filter (fun h => pair_ltb h hunk) (headers diff)) = Ok header
  /\ pair_lt header hunk.
Proof.
  unfold head_and_hunk_for_pt.
  destruct (hunk_for_pt (hunks diff) pt) as [hunk'|] eqn:Hh; [|done].
  pose proof (max_pair_spec (filter (fun h => pair_ltb h hunk') (headers diff))) as Hm.
  destruct (max_pair _) as [best|] eqn:Hb; [|done]. simpl. intros [= <- <-].
  split; [done|]. split; [done|].
  destruct Hm as [Hin _]. apply list_elem_of_filter in Hin as [Hlt%Is_true_true _].
  by apply pair_ltb_lt.
Qed.

(** Later offsets fall into later hunks when the hunks start in increasing
    order. *)
Lemma hunk_for_pt_mono (hs : list (Z * Z)) (p1 p2 : Z) (h1 h2 : Z * Z) :
  StronglySorted Z.lt (map fst hs) ->
  p1 <= p2 ->
  hunk_for_pt hs p1 = Some h1 -> hunk_for_pt hs p2 = Some h2 ->
  pair_le h1 h2.
Proof.
  intros Hs Hp. unfold hunk_for_pt.
  induction hs as [|h hs IH]; simpl; [done|].
  simpl in Hs. apply StronglySorted_cons in Hs as [Hh Hs].
  rewrite Forall_forall in Hh.
  destruct ((fst h <=? p1) && (p1 <? snd h)) eqn:E1.
  - intros [= <-]. destruct ((fst h <=? p2) && (p2 <? snd h)) eqn:E2.
    + intros [= <-]. apply pair_le_refl.
    + intros [Hin _]%find_some. left. left. apply Hh.
      apply list_elem_of_In in Hin. by apply list_elem_of_fmap_2.
  - destruct ((fst h <=? p2) && (p2 <? snd h)) eqn:E2.
    + intros [Hin Hholds]%find_some [= <-]. exfalso.
      assert (fst h < fst h1).
      { apply Hh. apply list_elem_of_In in Hin. by apply list_elem_of_fmap_2. }
      lia.
    + by apply IH.
Qed.

(** A later hunk has a later header, and a new header lies beyond the
    earlier hunk. *)
Lemma header_mono (hds : list (Z * Z)) (h1 h2 H1 H2 : Z * Z) :
  pair_le h1 h2 ->
  max_pair (filter (fun h => pair_ltb h h1) hds) = Ok H1 ->
  max_pair (filter (fun h => pair_ltb h h2) hds) = Ok H2 ->
  pair_le H1 H2 /\ (H1 = H2 \/ pair_le h1 H2).
Proof.
  intros Hle E1 E2.
  pose proof (max_pair_spec (filter (fun h => pair_ltb h h1) hds)) as M1.
  pose proof (max_pair_spec (filter (fun h => pair_ltb h h2) hds)) as M2.
  rewrite E1 in M1. rewrite E2 in M2.
  destruct M1 as [Hin1 Hmax1], M2 as [Hin2 Hmax2].
  apply list_elem_of_filter in Hin1 as [Hlt1%Is_true_true%pair_ltb_lt Hin1].
  apply list_elem_of_filter in Hin2 as [Hlt2%Is_true_true%pair_ltb_lt Hin2].
  assert (H12 : pair_le H1 H2).
  { apply Hmax2, list_elem_of_filter. split; [|done].
    apply Is_true_true, pair_ltb_lt. eapply pair_lt_le_trans; eauto. }
  split; [done|].
  destruct (pair_total H2 h1) as [Hlt|Hge]; [|by right].
  left. apply pair_le_antisym; [done|].
  apply Hmax1, list_elem_of_filter. split; [|done]. by apply Is_true_true, pair_ltb_lt.
Qed.

Lemma StronglySorted_snoc_lt (rv : list (Z * Z)) (x : Z * Z) :
  StronglySorted pair_lt rv -> (forall y, y ∈ rv -> pair_lt y x) ->
  StronglySorted pair_lt (rv ++ [x]).
Proof.
  intros Hs Hx. apply StronglySorted_app_2; [|done|repeat constructor].
  intros y z Hy ->%list_elem_of_singleton. by apply Hx.
Qed.

Lemma pair_le_neq_lt (p q : Z * Z) : pair_le p q -> p <> q -> pair_lt p q.
Proof. by intros [?|?]. Qed.


Lemma collected_step (diff : ParsedDiff) (rv : list (Z * Z)) (pt : Z) (pts : list Z)
    (header hunk : Z * Z) :
  StronglySorted Z.lt (map fst (hunks diff)) ->
  StronglySorted Z.le (pt :: pts) ->
  collected diff rv (pt :: pts) ->
  head_and_hunk_for_pt diff pt = Ok (Some (header, hunk)) ->
  collected diff (unique_step (unique_step rv header) hunk) pts.
Proof.
  intros Hstarts Hpts [Hsorted Hlast] Hq.
  apply StronglySorted_cons in Hpts as [Hpt _].
  destruct (head_and_hunk_for_pt_inv _ _ _ _ Hq) as (Hhunk & Hheader & Hlt).
  assert (Hbelow : forall y, y ∈ rv -> pair_le y hunk /\ (header ∈ rv \/ pair_lt y header)).
  { intros y Hy. destruct Hlast as [->|(header0 & hunk0 & p & Hq0 & Hh0 & Hk0 & Hmax & Hp)].
    { by apply elem_of_nil in Hy. }
    destruct (head_and_hunk_for_pt_inv _ _ _ _ Hq0) as (Hhunk0 & Hheader0 & Hlt0).
    apply Forall_cons in Hp as [Hp _].
    pose proof (hunk_for_pt_mono _ _ _ _ _ Hstarts Hp Hhunk0 Hhunk) as Hhunks.
    destruct (header_mono _ _ _ _ _ Hhunks Hheader0 Hheader) as [Hheaders Hnew].
    split; [eapply pair_le_trans; eauto|].
    destruct (decide (header ∈ rv)) as [?|Hnotin]; [by left|right].
    destruct Hnew as [<-|Hnew]; [done|].
    eapply pair_le_lt_trans; [by apply Hmax|].
    apply pair_le_neq_lt; [done|]. by intros ->. }
  set (rv1 := unique_step rv header).
  assert (H1 : StronglySorted pair_lt rv1 /\ header ∈ rv1
               /\ forall y, y ∈ rv1 -> pair_le y hunk).
  { unfold rv1, unique_step. case_decide as Hin.
    - split; [done|]. split; [done|]. intros y Hy. by apply Hbelow.
    - split; [|split].
      + apply StronglySorted_snoc_lt; [done|]. intros y Hy.
        destruct (Hbelow y Hy) as [_ [?|?]]; done.
      + apply elem_of_app; right; by apply list_elem_of_singleton.
      + intros y [Hy| ->%list_elem_of_singleton]%elem_of_app; [by apply Hbelow|by left]. }
  destruct H1 as (Hs1 & Hin1 & Hmax1).
  unfold collected. fold rv1.
  assert (Hcase : (hunk ∈ rv1 /\ unique_step rv1 hunk = rv1)
                  \/ ((hunk ∉ rv1) /\ unique_step rv1 hunk = rv1 ++ [hunk])).
  { unfold unique_step. case_decide; [by left|by right]. }
  destruct Hcase as [[Hin ->]|[Hin ->]].
  - split; [done|]. right. exists header, hunk, pt.
    split; [done|]. split; [done|]. split; [done|]. split; [done|exact Hpt].
  - split.
    + apply StronglySorted_snoc_lt; [done|]. intros y Hy.
      apply pair_le_neq_lt; [by apply Hmax1|]. by intros ->.
    + right. exists header, hunk, pt. split; [done|].
      split; [apply elem_of_app; by left|].
      split; [apply elem_of_app; right; by apply list_elem_of_singleton|].
      split; [|exact Hpt].
      intros y [Hy| ->%list_elem_of_singleton]%elem_of_app; [by apply Hmax1|apply pair_le_refl].
Qed.

Lemma collected_skip (diff : ParsedDiff) (rv : list (Z * Z)) (pt : Z) (pts : list Z) :
  collected diff rv (pt :: pts) -> collected diff rv pts.
Proof.
  intros [Hs [->|(header & hunk & p & ? & ? & ? & ? & Hp)]]; split; try done; [by left|].
  right. exists header, hunk, p. apply Forall_cons in Hp as [_ Hp]. done.
Qed.

Lemma unique_fold_sorted (diff : ParsedDiff) (pts : list Z) (spans rv : list (Z * Z)) :
  StronglySorted Z.lt (map fst (hunks diff)) ->
  StronglySorted Z.le pts ->
  spans_under diff pts = Ok spans ->
  collected diff rv pts ->
  StronglySorted pair_lt (fold_left unique_step spans rv).
Proof.
  intros Hstarts. revert spans rv.
  induction pts as [|pt pts IH]; intros spans rv Hpts Hspans Hrv.
  - injection Hspans as <-. simpl. by destruct Hrv.
  - simpl in Hspans.
    destruct (head_and_hunk_for_pt diff pt) as [found|] eqn:Hq; [|done]. simpl in Hspans.
    destruct (spans_under diff pts) as [more|] eqn:Hmore; [|done]. simpl in Hspans.
    assert (Hpts' : StronglySorted Z.le pts) by (by apply StronglySorted_cons in Hpts as [_ ?]).
    destruct found as [[header hunk]|]; injection Hspans as <-.
    + simpl. apply IH; [done|done|]. by eapply collected_step.
    + apply IH; [done|done|]. by eapply collected_skip.
Qed.

(** The regions [find_all_bol] finds start in increasing order. *)
Lemma find_all_bol_sorted (f : text -> option Z) (at_bol : bool) (pos : Z) (buf : text) :
  StronglySorted Z.lt (map Region.a (find_all_bol f at_bol pos buf))
  /\ Forall (fun a => pos <= a) (map Region.a (find_all_bol f at_bol pos buf)).
Proof.
  revert at_bol pos. induction buf as [|c rest IH]; intros at_bol pos; simpl.
  - split; constructor.
  - destruct (IH (ascii_eqb c LF) (pos + 1)) as [Hs Hge].
    assert (Hge' : Forall (fun a => pos < a)
                     (map Region.a (find_all_bol f (ascii_eqb c LF) (pos + 1) rest))).
    { eapply Forall_impl; [exact Hge|]. simpl. intros; lia. }
    assert (Hge'' : Forall (fun a => pos <= a)
                     (map Region.a (find_all_bol f (ascii_eqb c LF) (pos + 1) rest))).
    { eapply Forall_impl; [exact Hge|]. simpl. intros; lia. }
    destruct at_bol; [|done]. destruct (f (c :: rest)); [|done]. simpl. split.
    + by constructor.
    + constructor; [lia|done].
Qed.

Lemma StronglySorted_combine_fst {B} (l1 : list Z) (l2 : list B) :
  StronglySorted Z.lt l1 -> StronglySorted Z.lt (map fst (combine l1 l2)).
Proof.
  revert l2. induction l1 as [|x l1 IH]; intros l2 Hs; simpl; [constructor|].
  destruct l2 as [|y l2]; simpl; [constructor|].
  apply StronglySorted_cons in Hs as [Hx Hs]. constructor; [by apply IH|].
  rewrite Forall_forall in Hx. apply Forall_forall. intros z Hz. apply Hx.
  apply list_elem_of_fmap in Hz as [[z1 z2] [-> Hz]].
  apply list_elem_of_In, in_combine_l in Hz. by apply list_elem_of_In.
Qed.

Lemma parse_diff_hunks_sorted (v : View) :
  StronglySorted Z.lt (map fst (hunks (parse_diff_in_view v))).
Proof.
  unfold parse_diff_in_view. simpl. apply StronglySorted_combine_fst.
  apply find_all_bol_sorted.
Qed.

(** C2 (amended): for every view, the synthesized patch is the concatenation
    of the texts of the header and hunk spans its zero-width cursors resolve
    to, taken cursor by cursor and de-duplicated by comparing the spans (the
    offset pairs), not their text: every resolved span occurs exactly once,
    in the order of first occurrence, and for cursors in ascending order, as
    the host's selection has them, that is the order of the buffer. A hunk
    under two cursors contributes its text once. *)
Theorem synthesize_patch_blocks (v : View) (spans : list (Z * Z)) :
  let diff := parse_diff_in_view v in
  let pts := cursor_pts_of v in
  spans_under diff pts = Ok spans ->
  spans = concat (map (blocks_of diff) pts)
  /\ exists patches,
       synthesize_patch v = Ok (concat (map (extract_content v) patches))
       /\ NoDup patches
       /\ (forall span, span ∈ patches <-> span ∈ spans)
       /\ patches `sublist_of` spans
       /\ (StronglySorted Z.le pts -> StronglySorted pair_lt patches)
       /\ (forall p1 p2 header hunk,
             pts = [p1; p2] ->
             head_and_hunk_for_pt diff p1 = Ok (Some (header, hunk)) ->
             head_and_hunk_for_pt diff p2 = Ok (Some (header, hunk)) ->
             patches = [header; hunk]
             /\ synthesize_patch v
                = Ok (extract_content v header ++ extract_content v hunk)).
Proof.
  intros diff pts Hspans. split; [by apply spans_under_blocks|].
  exists (unique spans).
  assert (Hsyn : synthesize_patch v = Ok (concat (map (extract_content v) (unique spans)))).
  { unfold synthesize_patch. fold diff pts. by rewrite Hspans. }
  destruct (unique_spec spans) as (Hnd & Hsub & Hmem).
  split; [done|]. split; [done|]. split; [done|]. split; [done|]. split.
  - intros Hsorted. unfold unique.
    eapply unique_fold_sorted; [apply parse_diff_hunks_sorted|exact Hsorted|exact Hspans|].
    split; [constructor|by left].
  - intros p1 p2 header hunk Hpts H1 H2.
    assert (Hu : unique spans = [header; hunk]).
    { rewrite (spans_under_blocks _ _ _ Hspans), Hpts. simpl. unfold blocks_of.
      rewrite H1, H2. simpl.
      destruct (head_and_hunk_for_pt_inv _ _ _ _ H1) as (_ & _ & Hlt).
      assert (header <> hunk) by (intros ->; by apply pair_lt_irrefl in Hlt).
      change (unique_step (unique_step (unique_step (unique_step [] header) hunk) header) hunk
              = [header; hunk]).
      rewrite (unique_step_notin [] header) by apply not_elem_of_nil. simpl.
      rewrite (unique_step_notin [header] hunk)
        by (intros ?%list_elem_of_singleton; congruence). simpl.
      rewrite (unique_step_in [header; hunk] header) by (left).
      rewrite (unique_step_in [header; hunk] hunk) by (right; left). done. }
    split; [done|]. rewrite Hsyn, Hu. simpl. by rewrite app_nil_r.
Qed.

(** C2, at an input: two cursors in the first hunk of [buffer_example]. *)
Lemma synthesize_patch_blocks_witness :
  exists patches,
    synthesize_patch (view_example [75; 80])
    = Ok (concat (map (extract_content (view_example [75; 80])) patches))
    /\ NoDup patches
    /\ (forall span, span ∈ patches <-> span ∈ [(24, 70); (70, 88); (24, 70); (70, 88)])
    /\ patches `sublist_of` [(24, 70); (70, 88); (24, 70); (70, 88)]
    /\ (StronglySorted Z.le [75; 80] -> StronglySorted pair_lt patches)
    /\ (forall p1 p2 header hunk,
          [75; 80] = [p1; p2] ->
          head_and_hunk_for_pt (parse_diff_in_view (view_example [75; 80])) p1
          = Ok (Some (header, hunk)) ->
          head_and_hunk_for_pt (parse_diff_in_view (view_example [75; 80])) p2
          = Ok (Some (header, hunk)) ->
          patches = [header; hunk]
          /\ synthesize_patch (view_example [75; 80])
             = Ok (extract_content (view_example [75; 80]) header
                   ++ extract_content (view_example [75; 80]) hunk)).
Proof.
  exact (proj2 (synthesize_patch_blocks (view_example [75; 80])
                  [(24, 70); (70, 88); (24, 70); (70, 88)] eq_refl)).
Defined.

(** C2, as stated, fails: with a cursor in each of the two hunks that read
    alike, the patch holds the text of both, where removing duplicates by
    text keeps one. *)
Lemma synthesize_patch_keeps_equal_texts :
  synthesize_patch (view_example [80; 150])
  = Ok (lines_text ["diff --git a/x b/x"; "index 1..2"; "--- a/x"; "+++ b/x";
                    "@@ -1 +1 @@"; "-a"; "+b";
                    "diff --git a/y b/y"; "--- a/y"; "+++ b/y";
                    "@@ -1 +1 @@"; "-a"; "+b"; ""])
  /\ synthesize_patch_by_text (view_example [80; 150])
     = Ok (lines_text ["diff --git a/x b/x"; "index 1..2"; "--- a/x"; "+++ b/x";
                       "@@ -1 +1 @@"; "-a"; "+b";
                       "diff --git a/y b/y"; "--- a/y"; "+++ b/y"; ""])
  /\ extract_content (view_example [80; 150]) (70, 88)
     = extract_content (view_example [80; 150]) (141, 160).
Proof. repeat split. Qed.

(** ** Relocating a hunk by its first line *)


Lemma startswith_prefix (p s : text) :
  startswith p s = true <-> exists rest, s = p ++ rest.
Proof.
  revert s. induction p as [|a p IH]; intros s; simpl.
  - split; [by exists s|done].
  - destruct s as [|c s]; [split; [done|by intros [? ?]]|].
    rewrite andb_true_iff, ascii_eqb_eq, IH. split.
    + intros [-> [rest ->]]. by exists rest.
    + intros [rest [= -> ->]]. split; [done|by exists rest].
Qed.

Lemma takewhile_dropwhile {A} (p : A -> bool) (l : list A) :
  takewhile p l ++ dropwhile p l = l.
Proof. induction l as [|x l IH]; simpl; [done|]. destruct (p x); simpl; by rewrite ?IH. Qed.

Lemma dropwhile_app_all {A} (p : A -> bool) (l1 l2 : list A) :
  Forall (fun x => p x = true) l1 -> dropwhile p (l1 ++ l2) = dropwhile p l2.
Proof. induction 1 as [|x l1 Hx _ IH]; simpl; [done|]. by rewrite Hx. Qed.

(** The first part of a split is the text up to the first separator. *)
Lemma split_unfold (sep : ascii) (s : text) :
  split sep s
  = takewhile (fun c => negb (ascii_eqb c sep)) s
    :: match dropwhile (fun c => negb (ascii_eqb c sep)) s with
       | [] => []
       | _ :: r => split sep r
       end.
Proof.
  induction s as [|c s IH]; simpl; [done|].
  destruct (ascii_eqb c sep); simpl; [done|]. by rewrite IH.
Qed.

Lemma split_app_sep (sep : ascii) (s1 s2 : text) :
  split sep (s1 ++ sep :: s2) = split sep s1 ++ split sep s2.
Proof.
  induction s1 as [|c s1 IH]; simpl.
  - replace (ascii_eqb sep sep) with true by (symmetry; by apply ascii_eqb_eq). done.
  - destruct (ascii_eqb c sep); [by rewrite IH|].
    rewrite IH. rewrite (split_unfold sep s1). done.
Qed.

Lemma find_literal_spec (pat : text) (pos : Z) (buf : text) :
  match find_literal pat pos buf with
  | Some i =>
      exists k : nat,
        i = pos + Z.of_nat k
        /\ startswith pat (drop k buf) = true
        /\ forall j, (j < k)%nat -> startswith pat (drop j buf) = false
  | None => forall j : nat, startswith pat (drop j buf) = false
  end.
Proof.
  revert pos. induction buf as [|c rest IH]; intros pos.
  - simpl. destruct (startswith pat []) eqn:E.
    + exists 0%nat. split; [lia|]. split; [done|]. intros; lia.
    + intros j. by rewrite drop_nil.
  - simpl find_literal. destruct (startswith pat (c :: rest)) eqn:E.
    + exists 0%nat. split; [lia|]. split; [done|]. intros; lia.
    + specialize (IH (pos + 1)). destruct (find_literal pat (pos + 1) rest) as [i|].
      * destruct IH as (k & -> & Hk & Hmin). exists (S k). split; [lia|]. split; [done|].
        intros [|j] Hj; [done|]. apply Hmin. lia.
      * intros [|j]; [done|]. apply IH.
Qed.

Lemma startswith_takewhile_hunk_start (s : text) :
  startswith (str "@@ ") s = true -> startswith (str "@@ ") (takewhile not_LF s) = true.
Proof.
  intros [rest ->]%startswith_prefix. done.
Qed.

Lemma takewhile_take_prefix {A} (p : A -> bool) (n : nat) (l : list A) :
  exists rest, l = takewhile p (take n l) ++ rest.
Proof.
  exists (dropwhile p (take n l) ++ drop n l).
  by rewrite app_assoc, takewhile_dropwhile, take_drop.
Qed.

(** The text of a span that starts before it ends. *)
Lemma extract_content_forward (v : View) (span : Z * Z) :
  0 <= fst span <= snd span ->
  extract_content v span
  = take (Z.to_nat (snd span) - Z.to_nat (fst span)) (drop (Z.to_nat (fst span)) (content v)).
Proof.
  intros H. unfold extract_content, view_substr, substr, Region.begin_, Region.end_. simpl.
  by rewrite Z.min_l, Z.max_r by lia.
Qed.

(** [extract_first_hunk] on a header made of whole lines, none a hunk start,
    followed by a hunk. *)
Lemma extract_first_hunk_header_hunk (header_text hunk_text : text) :
  header_text = [] \/ (exists lines, header_text = lines ++ [LF]) ->
  Forall (fun line => not_hunk_start line = true) (split LF header_text) ->
  startswith (str "@@ ") hunk_text = true ->
  exists rest,
    extract_first_hunk (header_text ++ hunk_text) = Some (takewhile not_LF hunk_text :: rest).
Proof.
  intros Hwhole Hlines Hstart. unfold extract_first_hunk.
  assert (Hhunk : exists tail, dropwhile not_hunk_start (split LF hunk_text)
                               = takewhile not_LF hunk_text :: tail).
  { rewrite split_unfold. simpl. fold not_LF. unfold not_hunk_start at 1.
    rewrite (startswith_takewhile_hunk_start _ Hstart). simpl. by eexists. }
  destruct Hhunk as [tail Htail].
  destruct Hwhole as [->|[lines ->]].
  - simpl. rewrite Htail. by eexists.
  - rewrite <- app_assoc. simpl. rewrite split_app_sep.
    rewrite <- (app_nil_r [LF]) in Hlines. simpl in Hlines.
    rewrite split_app_sep in Hlines. apply Forall_app in Hlines as [Hlines _].
    rewrite dropwhile_app_all by done. rewrite Htail. by eexists.
Qed.

(** The relocation of a hunk from its header and hunk text: the first
    occurrence of the hunk's first line. *)
Lemma find_hunk_in_view_first_line (v : View) (header hunk : Z * Z) :
  0 <= fst hunk < snd hunk ->
  (extract_content v header = [] \/ exists lines, extract_content v header = lines ++ [LF]) ->
  Forall (fun line => not_hunk_start line = true) (split LF (extract_content v header)) ->
  startswith (str "@@ ") (extract_content v hunk) = true ->
  let first_line := takewhile not_LF (extract_content v hunk) in
  exists region,
    find_hunk_in_view v (extract_content v header ++ extract_content v hunk) = Some region
    /\ view_substr v region = first_line
    /\ Region.b region = Region.a region + len first_line
    /\ Region.a region <= fst hunk
    /\ occurs_at first_line (content v) (Region.a region)
    /\ (forall i, occurs_at first_line (content v) i -> Region.a region <= i)
    /\ occurs_at first_line (content v) (fst hunk).
Proof.
  intros Hspan Hwhole Hlines Hstart first_line.
  destruct (extract_first_hunk_header_hunk _ _ Hwhole Hlines Hstart) as [rest Hfirst].
  fold first_line in Hfirst.
  assert (Hocc : startswith first_line (drop (Z.to_nat (fst hunk)) (content v)) = true).
  { apply startswith_prefix. unfold first_line.
    rewrite extract_content_forward by lia. apply takewhile_take_prefix. }
  assert (Hlen : 3 <= len first_line).
  { pose proof (startswith_takewhile_hunk_start _ Hstart) as [r Hr]%startswith_prefix.
    fold first_line in Hr. rewrite Hr. unfold len. rewrite length_app. simpl. lia. }
  pose proof (find_literal_spec first_line 0 (content v)) as Hfind.
  unfold find_hunk_in_view. rewrite Hfirst. unfold view_find.
  destruct (find_literal first_line 0 (content v)) as [i|].
  - destruct Hfind as (k & -> & Hk & Hmin). rewrite Z.add_0_l. cbv zeta.
    assert (Htruthy : Region.truthy (Region.mk (Z.of_nat k) (Z.of_nat k + len first_line)) = true).
    { unfold Region.truthy, Region.size, Region.begin_, Region.end_. simpl. lia. }
    rewrite Htruthy. eexists. split; [done|]. simpl.
    assert (Hle : (k <= Z.to_nat (fst hunk))%nat).
    { destruct (decide (k <= Z.to_nat (fst hunk))%nat) as [?|Hgt]; [done|].
      rewrite Hmin in Hocc by lia. done. }
    split; [|split; [done|split; [lia|split; [|split]]]].
    + unfold view_substr, substr, Region.begin_, Region.end_. simpl.
      rewrite Z.min_l, Z.max_r by lia. rewrite Nat2Z.id.
      apply startswith_prefix in Hk as [r ->].
      replace (Z.to_nat (Z.of_nat k + len first_line) - k)%nat with (length first_line)
        by (unfold len; lia).
      by rewrite take_app_length.
    + split; [lia|]. by rewrite Nat2Z.id.
    + intros j [Hj Hoccj]. destruct (decide (Z.of_nat k <= j)) as [?|Hlt]; [done|].
      rewrite Hmin in Hoccj by lia. done.
    + split; [lia|done].
  - rewrite Hfind in Hocc. done.
Qed.

(** Where [find_all_bol] finds a region: at the first character of a line,
    and [f] matched there. *)
Lemma find_all_bol_elem (f : text -> option Z) (at_bol : bool) (pos : Z) (buf : text)
    (r : Region.t) :
  r ∈ find_all_bol f at_bol pos buf ->
  exists k : nat,
    Region.a r = pos + Z.of_nat k
    /\ (k < length buf)%nat
    /\ f (drop k buf) = Some (Region.b r - Region.a r)
    /\ (k = 0%nat -> at_bol = true)
    /\ ((0 < k)%nat -> buf !! (k - 1)%nat = Some LF).
Proof.
  revert at_bol pos. induction buf as [|c rest IH]; intros at_bol pos; simpl.
  - by intros ?%elem_of_nil.
  - intros [Hhere|Hrec]%elem_of_app.
    + destruct at_bol; [|by apply elem_of_nil in Hhere].
      destruct (f (c :: rest)) as [n|] eqn:Hf; [|by apply elem_of_nil in Hhere].
      apply list_elem_of_singleton in Hhere as ->. exists 0%nat. simpl.
      split; [lia|]. split; [lia|]. split; [rewrite Hf; f_equal; lia|].
      split; [done|lia].
    + destruct (IH _ _ Hrec) as (k & Ha & Hk & Hf & Hbol & Hprev).
      exists (S k). simpl. split; [lia|]. split; [lia|]. split; [done|].
      split; [lia|]. intros _. rewrite Nat.sub_0_r.
      destruct k as [|k]; simpl.
      * specialize (Hbol eq_refl). apply ascii_eqb_eq in Hbol. by subst.
      * rewrite <- Hprev by lia. simpl. by rewrite Nat.sub_0_r.
Qed.

(** A match of the header-end pattern ends right behind a newline. *)
Lemma re_header_end_newline (s : text) (n : Z) :
  re_header_end s = Some n ->
  exists m : nat, n = Z.of_nat (S m) /\ s !! m = Some LF.
Proof.
  unfold re_header_end.
  destruct (strip_prefix (str "+++") s) as [r|] eqn:Hp; [|done].
  assert (Hs : s = str "+++" ++ r).
  { revert Hp. generalize (str "+++"). intros p. revert s.
    induction p as [|a p IH]; intros s; simpl; [by intros [= ->]|].
    destruct s as [|c s]; [done|]. destruct (ascii_eqb a c) eqn:E; [|done].
    apply ascii_eqb_eq in E as ->. intros H. f_equal. by apply IH. }
  pose proof (takewhile_dropwhile (fun c => negb (ascii_eqb c LF)) r) as Hr.
  destruct (takewhile _ r) as [|c0 line] eqn:Ht; [done|].
  destruct (dropwhile _ r) as [|c1 next] eqn:Hd; [done|].
  destruct (startswith (str "@@") next); [|done]. intros [= <-].
  assert (Hc1 : c1 = LF).
  { clear -Hd. induction r as [|c r IH]; simpl in Hd; [done|].
    destruct (ascii_eqb c LF) eqn:E; simpl in Hd.
    - injection Hd as -> _. by apply ascii_eqb_eq.
    - by apply IH. }
  subst c1. exists (3 + length (c0 :: line))%nat. split; [unfold len; lia|].
  rewrite Hs, <- Hr. simpl. rewrite lookup_app_r by lia.
  rewrite Nat.sub_diag. done.
Qed.

Lemma text_ends_with (buf : text) (lo hi : nat) :
  (lo < hi <= length buf)%nat ->
  buf !! (hi - 1)%nat = Some LF ->
  exists lines, take (hi - lo) (drop lo buf) = lines ++ [LF].
Proof.
  intros Hlh Hlast. apply last_Some. rewrite last_lookup.
  rewrite length_take, length_drop.
  rewrite lookup_take_lt by lia. rewrite lookup_drop. rewrite <- Hlast. f_equal. lia.
Qed.

(** The text of a parsed header is made of whole lines. *)
Lemma parsed_header_whole_lines (v : View) (header : Z * Z) :
  header ∈ headers (parse_diff_in_view v) ->
  extract_content v header = [] \/ exists lines, extract_content v header = lines ++ [LF].
Proof.
  unfold parse_diff_in_view. simpl. intros Hin.
  destruct header as [a b]. apply list_elem_of_In in Hin.
  pose proof (in_combine_l _ _ _ _ Hin) as Ha. pose proof (in_combine_r _ _ _ _ Hin) as Hb.
  apply list_elem_of_In, list_elem_of_fmap in Ha as (ra & -> & Hra).
  apply list_elem_of_In, list_elem_of_fmap in Hb as (rb & -> & Hrb).
  apply find_all_bol_elem in Hra as (ka & Haa & Hka & _ & _ & Hpa).
  apply find_all_bol_elem in Hrb as (kb & Hab & Hkb & Hfb & _ & _).
  apply re_header_end_newline in Hfb as (m & Hm & HLF).
  rewrite lookup_drop in HLF. apply lookup_lt_Some in HLF as Hlt.
  unfold extract_content, view_substr, substr, Region.begin_, Region.end_. simpl.
  rewrite Haa. replace (Region.b rb) with (Z.of_nat (kb + S m)) by lia.
  rewrite !Z.add_0_l.
  destruct (Z.lt_total (Z.of_nat ka) (Z.of_nat (kb + S m))) as [Hlt'|[Heq|Hgt]].
  - right. rewrite Z.min_l, Z.max_r, !Nat2Z.id by lia.
    apply text_ends_with; [lia|]. rewrite <- HLF. f_equal. lia.
  - left. rewrite Heq, Z.min_id, Z.max_id, Nat.sub_diag. done.
  - right. rewrite Z.min_r, Z.max_l, !Nat2Z.id by lia.
    apply text_ends_with; [lia|]. apply Hpa. lia.
Qed.

Lemma parsed_hunk_start_nonneg (v : View) (hunk : Z * Z) :
  hunk ∈ hunks (parse_diff_in_view v) -> 0 <= fst hunk.
Proof.
  unfold parse_diff_in_view. simpl. intros Hin. destruct hunk as [s e].
  apply list_elem_of_In, in_combine_l, list_elem_of_In in Hin.
  destruct (find_all_bol_sorted re_hunk true 0 (content v)) as [_ Hge].
  rewrite Forall_forall in Hge. by apply Hge.
Qed.

Lemma head_and_hunk_for_pt_elem (diff : ParsedDiff) (pt : Z) (header hunk : Z * Z) :
  head_and_hunk_for_pt diff pt = Ok (Some (header, hunk)) ->
  header ∈ headers diff /\ hunk ∈ hunks diff /\ holds hunk pt.
Proof.
  intros (Hhunk & Hheader & _)%head_and_hunk_for_pt_inv.
  pose proof (max_pair_spec (filter (fun h => pair_ltb h hunk) (headers diff))) as Hm.
  rewrite Hheader in Hm. destruct Hm as [Hin _].
  apply list_elem_of_filter in Hin as [_ Hin].
  pose proof (hunk_for_pt_first (hunks diff) pt) as Hf. rewrite Hhunk in Hf.
  destruct Hf as (before & after & Heq & _ & Hholds).
  split; [done|]. split; [|done]. rewrite Heq. apply elem_of_app. right. by left.
Qed.

(** C5 (amended): for every header and hunk span that the query finds in a
    parsed buffer, where the hunk begins with ["@@ "] and no line of the
    header text does, extracting the header and hunk text and relocating it
    with [find_hunk_in_view] in the same buffer finds the first literal
    occurrence of the hunk's first line: the region holds exactly that line,
    it starts at or before the hunk span's start, and it starts at the hunk
    span's start exactly when the line's text does not occur earlier in the
    buffer. *)
Theorem find_hunk_in_view_relocates (v : View) (pt : Z) (header hunk : Z * Z) :
  head_and_hunk_for_pt (parse_diff_in_view v) pt = Ok (Some (header, hunk)) ->
  startswith (str "@@ ") (extract_content v hunk) = true ->
  Forall (fun line => not_hunk_start line = true) (split LF (extract_content v header)) ->
  let first_line := takewhile not_LF (extract_content v hunk) in
  exists region,
    find_hunk_in_view v (extract_content v header ++ extract_content v hunk) = Some region
    /\ view_substr v region = first_line
    /\ occurs_at first_line (content v) (Region.a region)
    /\ (forall i, occurs_at first_line (content v) i -> Region.a region <= i)
    /\ occurs_at first_line (content v) (fst hunk)
    /\ Region.a region <= fst hunk
    /\ (Region.a region = fst hunk
        <-> forall i, 0 <= i < fst hunk -> ~ occurs_at first_line (content v) i).
Proof.
  intros Hq Hstart Hlines first_line.
  destruct (head_and_hunk_for_pt_elem _ _ _ _ Hq) as (Hheader & Hhunk & Hholds).
  pose proof (parsed_hunk_start_nonneg _ _ Hhunk) as Hnonneg.
  pose proof (parsed_header_whole_lines _ _ Hheader) as Hwhole.
  destruct (find_hunk_in_view_first_line v header hunk) as
    (region & Hfind & Htext & _ & Hle & Hocc & Hmin & Hhere);
    [unfold holds in Hholds; lia|done|done|done|].
  exists region. fold first_line in Htext, Hocc, Hmin, Hhere.
  split; [done|]. split; [done|]. split; [done|]. split; [done|]. split; [done|].
  split; [done|]. split.
  - intros Heq i Hi Hocci. apply Hmin in Hocci. lia.
  - intros Hnone. destruct (decide (Region.a region = fst hunk)) as [?|Hne]; [done|].
    exfalso. apply (Hnone (Region.a region)); [|done]. destruct Hocc. lia.
Qed.

(** C5, at an input: the first hunk of [buffer_example] is found where it
    is. *)
Lemma find_hunk_in_view_relocates_witness :
  exists region,
    find_hunk_in_view (view_example [])
      (extract_content (view_example []) (24, 70)
       ++ extract_content (view_example []) (70, 88)) = Some region
    /\ view_substr (view_example []) region = str "@@ -1 +1 @@"
    /\ Region.a region <= 70.
Proof.
  destruct (find_hunk_in_view_relocates (view_example []) 75 (24, 70) (70, 88)
              eq_refl eq_refl)
    as (region & Hfind & Htext & _ & _ & _ & Hle & _).
  - vm_compute. repeat constructor.
  - exists region. split; [exact Hfind|]. split; [exact Htext|exact Hle].
Defined.

(** C5, as stated, fails: the hunk of file [y] starts at 141, and its header
    and hunk text relocate to 70, where the hunk of file [x] has the same
    first line. *)
Lemma find_hunk_in_view_finds_earlier_hunk :
  head_and_hunk_for_pt (parse_diff_in_view (view_example [])) 141
  = Ok (Some ((106, 141), (141, 160)))
  /\ find_hunk_in_view (view_example [])
       (extract_content (view_example []) (106, 141)
        ++ extract_content (view_example []) (141, 160))
     = Some (Region.mk 70 81).
Proof. split; reflexivity. Qed.

(** ** The commands *)

Create HintDb grows.

Section CommandFacts.
Context {host : Host}.

Notation "'do' x <- m ; k" := (bindM m (fun x => k))
  (at level 10, x name, m at level 100, k at level 200).
Notation "m ;; k" := (bindM m (fun _ => k))
  (at level 100, k at level 200, right associativity).


Lemma grows_ret {A} (x : A) : grows (ret x).
Proof. intros w. exists []. by rewrite app_nil_r. Qed.

Lemma grows_raise {A} (e : exn) : grows (@raise host A e).
Proof. intros w. exists []. by rewrite app_nil_r. Qed.

Lemma grows_lift {A} (r : result A) : grows (lift r).
Proof. intros w. exists []. by rewrite app_nil_r. Qed.

Lemma grows_get (key : string) : grows (get key).
Proof. intros w. exists []. by rewrite app_nil_r. Qed.

Lemma grows_get_view : grows get_view.
Proof. intros w. exists []. by rewrite app_nil_r. Qed.

Lemma grows_set_view (f : View -> View) : grows (set_view f).
Proof. intros w. exists []. by rewrite app_nil_r. Qed.

Lemma grows_set (key : string) (x : value) : grows (set key x).
Proof. apply grows_set_view. Qed.

Lemma grows_emit (e : Event) : grows (emit e).
Proof. intros w. by exists [e]. Qed.

Lemma grows_call_git (args : list value) (stdin : option text) :
  grows (call_git args stdin).
Proof.
  intros w. unfold call_git. destruct (git (repo w) args stdin) as [r repo'].
  by exists [GitCall args stdin].
Qed.

Lemma grows_bind {A B} (m : M A) (k : A -> M B) :
  grows m -> (forall x, grows (k x)) -> grows (bindM m k).
Proof.
  intros Hm Hk w. unfold bindM. destruct (Hm w) as [more Hmore].
  destruct (m w) as [[x|e] w1]; simpl in *.
  - destruct (Hk x w1) as [more' Hmore']. exists (more ++ more').
    by rewrite Hmore', Hmore, app_assoc.
  - by exists more.
Qed.

Lemma grows_if {A} (c : bool) (m1 m2 : M A) : grows m1 -> grows m2 -> grows (if c then m1 else m2).
Proof. by destruct c. Qed.

Hint Resolve grows_ret grows_raise grows_lift grows_get grows_get_view grows_set_view
  grows_set grows_emit grows_call_git : grows.

Ltac grows_tac :=
  repeat first
    [ assumption
    | solve [auto with grows]
    | apply grows_if
    | apply grows_bind; [|intros ?] ].

Lemma grows_gs_replace_view_text (new_text : text) : grows (gs_replace_view_text new_text).
Proof. unfold gs_replace_view_text. grows_tac. Qed.

Lemma grows_gs_diff_navigate : grows gs_diff_navigate.
Proof. unfold gs_diff_navigate. grows_tac. Qed.

Lemma grows_gs_diff_refresh : grows gs_diff_refresh.
Proof.
  unfold gs_diff_refresh, GsDiffRefreshCommand__run.
  apply grows_bind; [auto with grows|]. intros disabled.
  apply grows_if; [auto with grows|].
  apply grows_bind; [auto with grows|]. intros v w.
  destruct (grows_call_git (diff_args v) None w) as [more Hmore].
  destruct (call_git (diff_args v) None w) as [[diff|err] w1]; simpl in Hmore.
  - assert (Hrest : grows
      (do old_diff <- get "git_savvy.diff_view.raw_diff";
       set "git_savvy.diff_view.raw_diff" (VStr diff) ;;
       gs_replace_view_text (prelude_of v ++ [LF] ++ str "--" ++ [LF] ++ diff) ;;
       if negb (truthy old_diff) then gs_diff_navigate else ret tt)).
    { pose proof grows_gs_replace_view_text. pose proof grows_gs_diff_navigate.
      grows_tac; auto. }
    destruct (Hrest w1) as [more' Hmore']. exists (more ++ more').
    by rewrite Hmore', Hmore, app_assoc.
  - destruct err as [| | | |[|]]; simpl; by exists more.
Qed.

(** C9: whenever the view ignores whitespace or shows a word diff, the
    stage/discard command shows its error message and returns: the view
    (content, selection and every setting, the undo history among them) and
    the repository are as before, and the one thing done is the message,
    so [git] was not called. *)
Theorem stage_refused_outside_clean_diff (reset : bool) (w : World) :
  truthy (settings_get "git_savvy.diff_view.ignore_whitespace" (view w))
  || truthy (settings_get "git_savvy.diff_view.show_word_diff" (view w)) = true ->
  GsDiffStageOrResetHunkCommand_run reset w
  = (Ok tt,
     mkWorld (view w) (repo w) (prefs w)
             (log w ++ [ErrorMessage (str "You have to be in a clean diff to stage.")]))
  /\ view (snd (GsDiffStageOrResetHunkCommand_run reset w)) = view w
  /\ repo (snd (GsDiffStageOrResetHunkCommand_run reset w)) = repo w
  /\ settings_get "git_savvy.diff_view.history"
       (view (snd (GsDiffStageOrResetHunkCommand_run reset w)))
     = settings_get "git_savvy.diff_view.history" (view w)
  /\ forall args stdin,
       GitCall args stdin ∈ log (snd (GsDiffStageOrResetHunkCommand_run reset w)) ->
       GitCall args stdin ∈ log w.
Proof.
  intros H.
  assert (Hrun : GsDiffStageOrResetHunkCommand_run reset w
    = (Ok tt, mkWorld (view w) (repo w) (prefs w)
             (log w ++ [ErrorMessage (str "You have to be in a clean diff to stage.")]))).
  { unfold GsDiffStageOrResetHunkCommand_run, bindM, get. simpl. by rewrite H. }
  rewrite Hrun. simpl. repeat split; try done.
  intros args stdin [Hin|Hin]%elem_of_app; [done|].
  by apply list_elem_of_singleton in Hin.
Qed.

Lemma apply_args_table (reset : bool) (in_cached_mode context_lines : value) :
  let args := apply_args reset in_cached_mode context_lines in
  reverse_apply args = reset || truthy in_cached_mode
  /\ target_of args
     = if truthy in_cached_mode || negb reset then IndexOnly else IndexAndWorkingTree.
Proof.
  unfold apply_args, reverse_apply, target_of, has_arg, arg_if.
  destruct reset, (truthy in_cached_mode), (eq_zero context_lines); by vm_compute.
Qed.

(** C1 (amended): every stage/discard invocation in a clean diff whose
    synthesized patch is not empty calls the external apply first, with the
    patch on its input; outside cached mode a stage ([reset=false]) is not
    reversed and goes to the index only, and a discard ([reset=true]) is
    reversed and goes to index and working tree; in cached mode the call is
    reversed and goes to the index only, for [reset=true] and for
    [reset=false] alike: no combination skips the apply. *)
Theorem stage_or_reset_applies (reset : bool) (w : World) (patch : text) :
  truthy (settings_get "git_savvy.diff_view.ignore_whitespace" (view w))
  || truthy (settings_get "git_savvy.diff_view.show_word_diff" (view w)) = false ->
  synthesize_patch (view w) = Ok patch ->
  patch <> [] ->
  let cached := truthy (settings_get "git_savvy.diff_view.in_cached_mode" (view w)) in
  let args := apply_args reset
                (settings_get "git_savvy.diff_view.in_cached_mode" (view w))
                (settings_get "git_savvy.diff_view.context_lines" (view w)) in
  (exists more,
      log (snd (GsDiffStageOrResetHunkCommand_run reset w))
      = log w ++ GitCall args (Some patch) :: more)
  /\ args !! 1%nat = Some (arg_if (reset || cached) "-R")
  /\ args !! 2%nat = Some (arg_if (cached || negb reset) "--cached")
  /\ (cached = false -> reset = false ->
      reverse_apply args = false /\ target_of args = IndexOnly)
  /\ (cached = false -> reset = true ->
      reverse_apply args = true /\ target_of args = IndexAndWorkingTree)
  /\ (cached = true ->
      reverse_apply args = true /\ target_of args = IndexOnly).
Proof.
  intros Hclean Hpatch Hne cached args.
  destruct (apply_args_table reset
              (settings_get "git_savvy.diff_view.in_cached_mode" (view w))
              (settings_get "git_savvy.diff_view.context_lines" (view w))) as [Hrev Htgt].
  fold args cached in Hrev, Htgt.
  split; [|split; [done|split; [done|split; [|split]]]].
  - unfold GsDiffStageOrResetHunkCommand_run, bindM at 1 2, get at 1 2. simpl.
    rewrite Hclean. unfold bindM at 1, get_view. simpl.
    unfold bindM at 1, lift. rewrite Hpatch.
    destruct patch as [|c patch]; [done|].
    unfold apply_patch, bindM at 1 2, get at 1 2. simpl. fold args.
    unfold bindM at 1.
    destruct (grows_call_git args (Some (c :: patch)) w) as [more Hmore].
    unfold call_git in *. destruct (git (repo w) args (Some (c :: patch))) as [r repo'].
    simpl in Hmore.
    set (w1 := mkWorld (view w) repo' (prefs w) (log w ++ [GitCall args (Some (c :: patch))])).
    destruct r as [out|e].
    + assert (Hrest : grows
        (do history <- get "git_savvy.diff_view.history";
         match history with
         | VList entries =>
             set "git_savvy.diff_view.history"
               (VList (entries ++ [VList [VList args; VStr (c :: patch);
                                          VList (map VInt (cursor_pts_of (view w)));
                                          settings_get "git_savvy.diff_view.in_cached_mode" (view w)]])) ;;
             set "git_savvy.diff_view.just_hunked" (VStr (c :: patch)) ;;
             gs_diff_refresh
         | _ => raise AttributeError
         end)).
      { pose proof grows_gs_diff_refresh.
        apply grows_bind; [auto with grows|]. intros history.
        destruct history; cbv iota; grows_tac; auto. }
      destruct (Hrest w1) as [more' Hmore']. exists more'.
      rewrite Hmore'. simpl. by rewrite <- app_assoc.
    + exists []. done.
  - intros Hc ->. rewrite Hrev, Htgt, Hc. done.
  - intros Hc ->. rewrite Hrev, Htgt, Hc. done.
  - intros Hc. rewrite Hrev, Htgt, Hc. by destruct reset.
Qed.

(** *** Refresh *)


Lemma settings_get_set (key key' : string) (x : value) (v : View) :
  settings_get key' (settings_set key x v)
  = if decide (key = key') then x else settings_get key' v.
Proof.
  unfold settings_get, settings_set. simpl. rewrite lookup_insert.
  by case_decide.
Qed.

(** What one run of [_run] leaves of a view that is not disabled, by the
    answer of [git diff]. *)
Lemma refresh_enabled (w : World) :
  disabled (view w) = false ->
  let v := view w in
  let w1 := mkWorld v (snd (git (repo w) (diff_args v) None)) (prefs w)
                    (log w ++ [GitCall (diff_args v) None]) in
  GsDiffRefreshCommand__run w
  = match fst (git (repo w) (diff_args v) None) with
    | Raise (GitSavvyError true) => set "git_savvy.disable_diff" (VBool true) w1
    | Raise err => (Raise err, w1)
    | Ok diff =>
        (do old_diff <- get "git_savvy.diff_view.raw_diff";
         set "git_savvy.diff_view.raw_diff" (VStr diff) ;;
         gs_replace_view_text (prelude_of v ++ [LF] ++ str "--" ++ [LF] ++ diff) ;;
         if negb (truthy old_diff) then gs_diff_navigate else ret tt) w1
    end.
Proof.
  intros Hd v w1. unfold GsDiffRefreshCommand__run, bindM at 1, get at 1. simpl.
  unfold disabled in Hd. rewrite Hd. unfold bindM at 1, get_view. simpl.
  unfold call_git. fold v. destruct (git (repo w) (diff_args v) None) as [r repo']. done.
Qed.

Lemma refresh_settings (w : World) :
  disabled (view w) = false ->
  settings (view (snd (GsDiffRefreshCommand__run w)))
  = match fst (git (repo w) (diff_args (view w)) None) with
    | Raise (GitSavvyError true) =>
        <["git_savvy.disable_diff"%string := VBool true]> (settings (view w))
    | Raise _ => settings (view w)
    | Ok diff => <["git_savvy.diff_view.raw_diff"%string := VStr diff]> (settings (view w))
    end.
Proof.
  intros Hd. rewrite (refresh_enabled w Hd).
  destruct (fst (git (repo w) (diff_args (view w)) None)) as [diff|err].
  - unfold bindM, get, set, set_view, gs_replace_view_text, gs_diff_navigate, emit, ret.
    simpl. by destruct (negb _).
  - by destruct err as [| | | |[|]].
Qed.

Lemma refresh_settings_frame (w : World) (key : string) :
  key <> "git_savvy.diff_view.raw_diff"%string ->
  key <> "git_savvy.disable_diff"%string ->
  settings_get key (view (snd (gs_diff_refresh w))) = settings_get key (view w).
Proof.
  intros Hraw Hdis. unfold gs_diff_refresh.
  destruct (disabled (view w)) eqn:Hd.
  - unfold GsDiffRefreshCommand__run, bindM at 1, get at 1. simpl.
    unfold disabled in Hd. by rewrite Hd.
  - unfold settings_get. rewrite (refresh_settings w Hd).
    destruct (fst (git (repo w) (diff_args (view w)) None)) as [diff|err].
    + by rewrite lookup_insert_ne.
    + destruct err as [| | | |[|]]; try done. by rewrite lookup_insert_ne.
Qed.

(** C7: a refresh of a view whose disable-diff flag is set does nothing at
    all: no [git] call, the same content, selection and settings, however
    often it is repeated; and a refresh of a view whose flag is not set
    leaves the flag set exactly when its [git diff] failed to decode. *)
Theorem refresh_disabled_is_noop :
  (forall w : World,
      disabled (view w) = true -> GsDiffRefreshCommand__run w = (Ok tt, w))
  /\ (forall (w : World) (n : nat),
        disabled (view w) = true ->
        Nat.iter n (fun w0 => snd (GsDiffRefreshCommand__run w0)) w = w)
  /\ (forall w : World,
        disabled (view w) = false ->
        (disabled (view (snd (GsDiffRefreshCommand__run w))) = true
         <-> fst (git (repo w) (diff_args (view w)) None) = Raise (GitSavvyError true))).
Proof.
  assert (Hnoop : forall w : World,
             disabled (view w) = true -> GsDiffRefreshCommand__run w = (Ok tt, w)).
  { intros w Hd. unfold GsDiffRefreshCommand__run, bindM at 1, get at 1. simpl.
    unfold disabled in Hd. by rewrite Hd. }
  split; [exact Hnoop|split].
  - intros w n Hd. induction n as [|n IH]; [done|]. simpl. rewrite IH.
    by rewrite (Hnoop w Hd).
  - intros w Hd. unfold disabled at 1, settings_get. rewrite (refresh_settings w Hd).
    unfold disabled, settings_get in Hd.
    destruct (fst (git (repo w) (diff_args (view w)) None)) as [diff|err].
    + rewrite lookup_insert_ne by done. rewrite Hd. split; done.
    + destruct err as [| | | |[|]]; try (rewrite Hd; split; done).
      rewrite lookup_insert_eq. simpl. done.
Qed.

(** *** Toggling *)

(** C10: on a view whose base and target commit are both truthy (set to
    values that are not empty), the toggle command writes the target commit
    into the base setting and the base commit into the target setting,
    touches no other setting, content or selection, and hands over to the
    refresh; when the refresh is done
    the two commits are still swapped, and the cached-mode flag, the undo
    history, the just-hunked patch, the context-line count, the two toggles
    and every other setting but the refresh's own two (the raw diff and the
    disable-diff flag) are as they were. *)
Theorem toggle_swaps_commits (w : World) :
  let base_commit := settings_get "git_savvy.diff_view.base_commit" (view w) in
  let target_commit := settings_get "git_savvy.diff_view.target_commit" (view w) in
  truthy base_commit && truthy target_commit = true ->
  let swapped :=
    settings_set "git_savvy.diff_view.target_commit" base_commit
      (settings_set "git_savvy.diff_view.base_commit" target_commit (view w)) in
  let final := view (snd (GsDiffToggleCachedMode_run w)) in
  GsDiffToggleCachedMode_run w
  = gs_diff_refresh (mkWorld swapped (repo w) (prefs w) (log w))
  /\ settings swapped
     = <["git_savvy.diff_view.target_commit"%string := base_commit]>
         (<["git_savvy.diff_view.base_commit"%string := target_commit]>
            (settings (view w)))
  /\ content swapped = content (view w)
  /\ sel swapped = sel (view w)
  /\ (forall key,
        key <> "git_savvy.diff_view.base_commit"%string ->
        key <> "git_savvy.diff_view.target_commit"%string ->
        settings_get key swapped = settings_get key (view w))
  /\ settings_get "git_savvy.diff_view.base_commit" final = target_commit
  /\ settings_get "git_savvy.diff_view.target_commit" final = base_commit
  /\ settings_get "git_savvy.diff_view.in_cached_mode" final
     = settings_get "git_savvy.diff_view.in_cached_mode" (view w)
  /\ settings_get "git_savvy.diff_view.history" final
     = settings_get "git_savvy.diff_view.history" (view w)
  /\ settings_get "git_savvy.diff_view.just_hunked" final
     = settings_get "git_savvy.diff_view.just_hunked" (view w)
  /\ settings_get "git_savvy.diff_view.context_lines" final
     = settings_get "git_savvy.diff_view.context_lines" (view w)
  /\ settings_get "git_savvy.diff_view.ignore_whitespace" final
     = settings_get "git_savvy.diff_view.ignore_whitespace" (view w)
  /\ settings_get "git_savvy.diff_view.show_word_diff" final
     = settings_get "git_savvy.diff_view.show_word_diff" (view w)
  /\ (forall key,
        key <> "git_savvy.diff_view.base_commit"%string ->
        key <> "git_savvy.diff_view.target_commit"%string ->
        key <> "git_savvy.diff_view.raw_diff"%string ->
        key <> "git_savvy.disable_diff"%string ->
        settings_get key final = settings_get key (view w)).
Proof.
  intros base_commit target_commit Hboth swapped final.
  assert (Hrun : GsDiffToggleCachedMode_run w
                 = gs_diff_refresh (mkWorld swapped (repo w) (prefs w) (log w))).
  { unfold GsDiffToggleCachedMode_run, bindM at 1 2, get at 1 2. simpl.
    fold base_commit target_commit. rewrite Hboth. done. }
  assert (Hswapped : forall key,
             settings_get key swapped
             = if decide ("git_savvy.diff_view.target_commit"%string = key) then base_commit
               else if decide ("git_savvy.diff_view.base_commit"%string = key) then target_commit
               else settings_get key (view w)).
  { intros key. unfold swapped. by rewrite !settings_get_set. }
  assert (Hfinal : forall key,
             key <> "git_savvy.diff_view.raw_diff"%string ->
             key <> "git_savvy.disable_diff"%string ->
             settings_get key final = settings_get key swapped).
  { intros key Hraw Hdis. unfold final. rewrite Hrun.
    by rewrite refresh_settings_frame. }
  split; [exact Hrun|]. split; [done|]. split; [done|]. split; [done|].
  split.
  { intros key Hb Ht. rewrite Hswapped. by rewrite !decide_False. }
  repeat split; try (rewrite Hfinal by done; rewrite Hswapped; done).
  intros key Hb Ht Hraw Hdis. rewrite Hfinal by done. rewrite Hswapped.
  by rewrite !decide_False.
Qed.

End CommandFacts.

(** ** The facts at the worked inputs *)

(** C4, at an input: offset 150 of [buffer_example] lies in the hunk of file
    [y], whose header is the second one. *)
Lemma head_and_hunk_for_pt_cases_witness :
  exists best,
    head_and_hunk_for_pt (parse_diff_in_view (view_example [])) 150
    = Ok (Some (best, (141, 160)))
    /\ best ∈ headers (parse_diff_in_view (view_example []))
    /\ pair_lt best (141, 160)
    /\ forall h, h ∈ headers (parse_diff_in_view (view_example [])) ->
                 pair_lt h (141, 160) -> pair_le h best.
Proof.
  apply (proj1 (proj2 (head_and_hunk_for_pt_cases (parse_diff_in_view (view_example [])) 150))
           [(70, 88); (88, 106)] (141, 160) [] eq_refl).
  - repeat constructor; unfold holds; simpl; lia.
  - unfold holds; simpl; lia.
  - exists (106, 141). split; [|left; simpl; lia].
    change (headers (parse_diff_in_view (view_example []))) with [(24, 70); (106, 141)].
    set_solver.
Defined.

(** C9, at an input: staging while whitespace is ignored. *)
Lemma stage_refused_outside_clean_diff_witness :
  @GsDiffStageOrResetHunkCommand_run example_host false
    (@mkWorld example_host (view_example_ignoring_whitespace [80]) [] ∅ [])
  = (Ok tt,
     @mkWorld example_host (view_example_ignoring_whitespace [80]) [] ∅
       [ErrorMessage (str "You have to be in a clean diff to stage.")]).
Proof.
  exact (proj1 (@stage_refused_outside_clean_diff example_host false
                  (@mkWorld example_host (view_example_ignoring_whitespace [80]) [] ∅ [])
                  eq_refl)).
Defined.

(** C1, at an input: staging the first hunk of [buffer_example]. *)
Lemma stage_or_reset_applies_witness :
  exists more,
    log (snd (@GsDiffStageOrResetHunkCommand_run example_host false (world_example [80])))
    = GitCall [VStr (str "apply"); VNone; VStr (str "--cached"); VNone; VStr (str "-")]
              (Some patch_example) :: more.
Proof.
  exact (proj1 (@stage_or_reset_applies example_host false (world_example [80]) patch_example
                  eq_refl eq_refl ltac:(discriminate))).
Defined.

(** C1, as stated, fails: in cached mode with [reset=false] the command
    applies the patch, reversed and to the index. *)
Lemma stage_in_cached_mode_applies :
  head (log (snd (@GsDiffStageOrResetHunkCommand_run example_host false
                    (@mkWorld example_host (view_example_cached [80]) [] ∅ []))))
  = Some (GitCall [VStr (str "apply"); VStr (str "-R"); VStr (str "--cached"); VNone;
                   VStr (str "-")]
                  (Some patch_example))
  /\ head (repo (snd (@GsDiffStageOrResetHunkCommand_run example_host false
                        (@mkWorld example_host (view_example_cached [80]) [] ∅ []))))
     = Some [VStr (str "apply"); VStr (str "-R"); VStr (str "--cached"); VNone; VStr (str "-")].
Proof. split; vm_compute; reflexivity. Qed.

(** C7, at an input: a refresh whose [git diff] cannot be decoded sets the
    flag, and the refresh after it does nothing. *)
Lemma refresh_disabled_is_noop_witness :
  let w1 := snd (@GsDiffRefreshCommand__run undecodable_host
                   (world_undecodable (view_example [80]))) in
  disabled (view w1) = true
  /\ @GsDiffRefreshCommand__run undecodable_host w1 = (Ok tt, w1).
Proof.
  split; [reflexivity|].
  apply (proj1 (@refresh_disabled_is_noop undecodable_host)). reflexivity.
Defined.

(** C10, at an input: toggling a view that compares two commits. *)
Lemma toggle_swaps_commits_witness :
  let w := @mkWorld example_host (view_example_commits [80]) [] ∅ [] in
  let final := view (snd (@GsDiffToggleCachedMode_run example_host w)) in
  settings_get "git_savvy.diff_view.base_commit" final = VStr (str "def456")
  /\ settings_get "git_savvy.diff_view.target_commit" final = VStr (str "abc123")
  /\ settings_get "git_savvy.diff_view.in_cached_mode" final = VBool false.
Proof.
  pose proof (@toggle_swaps_commits example_host
                (@mkWorld example_host (view_example_commits [80]) [] ∅ []) eq_refl)
    as (_ & _ & _ & _ & _ & Hb & Ht & Hc & _).
  split; [exact Hb|]. split; [exact Ht|exact Hc].
Defined.

(** C10, as stated, fails: the refresh the command ends with writes two
    view settings of its own. On a view that compares two commits and has no
    raw diff yet, the raw diff is the output of [git diff] afterwards; and
    where that output cannot be decoded, the disable-diff flag, not set
    before, is [True] afterwards. *)
Lemma toggle_refresh_writes_settings :
  let w := @mkWorld example_host (view_example_commits [80]) [] ∅ [] in
  let w' := world_undecodable (view_example_commits [80]) in
  truthy (settings_get "git_savvy.diff_view.base_commit" (view w))
  && truthy (settings_get "git_savvy.diff_view.target_commit" (view w)) = true
  /\ settings_get "git_savvy.diff_view.raw_diff" (view w) = VNone
  /\ settings_get "git_savvy.diff_view.raw_diff"
       (view (snd (@GsDiffToggleCachedMode_run example_host w)))
     = VStr diff_example
  /\ settings_get "git_savvy.disable_diff" (view w') = VNone
  /\ settings_get "git_savvy.disable_diff"
       (view (snd (@GsDiffToggleCachedMode_run undecodable_host w')))
     = VBool true.
Proof. repeat split; vm_compute; reflexivity. Qed.

(** * Further facts *)

(** ** Selections in the settings *)

(** X1: pickling a selection and unpickling it gives the selection back,
    every region as a region of the buffer. *)
Theorem unpickle_pickle_sel (s : list Region.t) :
  unpickle_sel (pickle_sel s) = Ok (map BufferRegion s).
Proof.
  unfold unpickle_sel, pickle_sel.
  induction s as [|[a0 b0] s IH]; simpl; [done|]. by rewrite IH.
Qed.

(** ** [unique] *)

Lemma unique_fold_fresh {A} `{EqDecision A} (items rv : list A) :
  NoDup items -> (forall x, x ∈ items -> x ∉ rv) ->
  fold_left unique_step items rv = rv ++ items.
Proof.
  revert rv. induction items as [|x items IH]; intros rv Hnd Hfresh; simpl.
  - by rewrite app_nil_r.
  - apply NoDup_cons in Hnd as [Hx Hnd].
    rewrite unique_step_notin by (apply Hfresh; left).
    rewrite IH; [by rewrite <- app_assoc|done|].
    intros y Hy [Hin| ->%list_elem_of_singleton]%elem_of_app; [|done].
    by apply (Hfresh y); [right|].
Qed.

(** X2: [unique] keeps exactly one copy of every item and keeps the items in
    their order; a list without duplicates comes back as it is, so applying
    [unique] twice is applying it once. *)
Theorem unique_removes_duplicates {A} `{EqDecision A} (items : list A) :
  NoDup (unique items)
  /\ (forall x, x ∈ unique items <-> x ∈ items)
  /\ unique items `sublist_of` items
  /\ (NoDup items -> unique items = items)
  /\ unique (unique items) = unique items.
Proof.
  destruct (unique_spec items) as (Hnd & Hsub & Hmem).
  assert (Hid : forall l : list A, NoDup l -> unique l = l).
  { intros l Hl. unfold unique. rewrite unique_fold_fresh; [done|done|].
    intros x _. apply not_elem_of_nil. }
  split; [done|]. split; [done|]. split; [done|]. split; [apply Hid|by apply Hid].
Qed.

(** ** The first hunk of a patch *)

Lemma takewhile_all {A} (p : A -> bool) (l : list A) :
  Forall (fun x => p x = true) (takewhile p l).
Proof.
  induction l as [|x l IH]; simpl; [constructor|].
  destruct (p x) eqn:E; by constructor.
Qed.

Lemma dropwhile_head {A} (p : A -> bool) (l : list A) (x : A) (rest : list A) :
  dropwhile p l = x :: rest -> p x = false.
Proof.
  induction l as [|y l IH]; simpl; [done|].
  destruct (p y) eqn:E; [done|]. by intros [= <- _].
Qed.

Lemma dropwhile_nil {A} (p : A -> bool) (l : list A) :
  dropwhile p l = [] <-> Forall (fun x => p x = true) l.
Proof.
  induction l as [|y l IH]; simpl; [split; [constructor|done]|].
  destruct (p y) eqn:E.
  - rewrite IH. split; [by constructor|by intros [_ ?]%Forall_cons].
  - split; [done|]. intros [? _]%Forall_cons. congruence.
Qed.

Lemma extract_first_hunk_start (patch : text) (hunk_content : list text) :
  extract_first_hunk patch = Some hunk_content ->
  exists start body,
    hunk_content = start :: body /\ startswith (str "@@ ") start = true.
Proof.
  unfold extract_first_hunk.
  destruct (dropwhile not_hunk_start (split LF patch)) as [|start rest] eqn:Hd; [done|].
  intros [= <-]. exists start, (takewhile not_hunk_start rest). split; [done|].
  apply dropwhile_head in Hd. unfold not_hunk_start in Hd.
  by destruct (startswith (str "@@ ") start).
Qed.

Lemma extract_first_hunk_none (patch : text) :
  Forall (fun line => not_hunk_start line = true) (split LF patch) ->
  extract_first_hunk patch = None.
Proof.
  intros Hall%dropwhile_nil. unfold extract_first_hunk. by rewrite Hall.
Qed.

(** X3: [extract_first_hunk] answers [None] exactly when no line of the patch
    starts with ["@@ "]; otherwise it answers the first such line followed by
    the lines up to the next such line (or the end), after skipping the lines
    before it. *)
Theorem extract_first_hunk_lines (patch : text) :
  (extract_first_hunk patch = None
   <-> Forall (fun line => not_hunk_start line = true) (split LF patch))
  /\ (forall hunk_content,
        extract_first_hunk patch = Some hunk_content ->
        exists before start body after,
          hunk_content = start :: body
          /\ split LF patch = before ++ start :: body ++ after
          /\ Forall (fun line => not_hunk_start line = true) before
          /\ startswith (str "@@ ") start = true
          /\ Forall (fun line => not_hunk_start line = true) body
          /\ (after = [] \/ exists next more, after = next :: more
                                        /\ startswith (str "@@ ") next = true)).
Proof.
  unfold extract_first_hunk. split.
  - rewrite <- dropwhile_nil. by destruct (dropwhile not_hunk_start (split LF patch)).
  - intros hunk_content.
    pose proof (takewhile_dropwhile not_hunk_start (split LF patch)) as Hsplit.
    destruct (dropwhile not_hunk_start (split LF patch)) as [|start rest] eqn:Hd; [done|].
    intros [= <-].
    exists (takewhile not_hunk_start (split LF patch)), start,
           (takewhile not_hunk_start rest), (dropwhile not_hunk_start rest).
    split; [done|]. split.
    { by rewrite takewhile_dropwhile. }
    split; [apply takewhile_all|]. split.
    { apply dropwhile_head in Hd. unfold not_hunk_start in Hd.
      by destruct (startswith (str "@@ ") start). }
    split; [apply takewhile_all|].
    destruct (dropwhile not_hunk_start rest) as [|next more] eqn:Hd'; [by left|right].
    exists next, more. split; [done|].
    apply dropwhile_head in Hd'. unfold not_hunk_start in Hd'.
    by destruct (startswith (str "@@ ") next).
Qed.

(** ** What relocation returns *)

Lemma view_find_truthy (v : View) (pat : text) :
  Region.truthy (view_find v pat) = true ->
  view_substr v (view_find v pat) = pat
  /\ occurs_at pat (content v) (Region.a (view_find v pat)).
Proof.
  unfold view_find. pose proof (find_literal_spec pat 0 (content v)) as Hspec.
  destruct (find_literal pat 0 (content v)) as [i|]; [|by vm_compute].
  destruct Hspec as (k & -> & Hk & _). rewrite Z.add_0_l. intros _.
  unfold view_substr, substr, occurs_at, Region.begin_, Region.end_. simpl.
  assert (0 <= len pat) by (unfold len; lia).
  rewrite Z.min_l, Z.max_r, Nat2Z.id by lia. split; [|split; [lia|done]].
  apply startswith_prefix in Hk as [r ->].
  replace (Z.to_nat (Z.of_nat k + len pat) - k)%nat with (length pat) by (unfold len; lia).
  by rewrite take_app_length.
Qed.

Lemma fuzzy_search_candidates_hunk_start (v : View) (cands : list (list text)) (r : Region.t) :
  fuzzy_search_candidates v cands = Some r ->
  startswith (str "@@ ") (view_substr v r) = true.
Proof.
  induction cands as [|c cands IH]; simpl; [done|].
  destruct (Region.truthy _); [|done].
  unfold find_hunk_start_before_pt. by intros [_ ?]%find_some.
Qed.

(** X4: whatever region [find_hunk_in_view] returns reads, in the view, as
    text that starts with ["@@ "]; and for a patch without such a line it
    returns [None]. *)
Theorem find_hunk_in_view_hunk_start (v : View) (patch : text) :
  (forall region,
      find_hunk_in_view v patch = Some region ->
      startswith (str "@@ ") (view_substr v region) = true)
  /\ (Forall (fun line => not_hunk_start line = true) (split LF patch) ->
      find_hunk_in_view v patch = None).
Proof.
  split.
  - intros region. unfold find_hunk_in_view.
    destruct (extract_first_hunk patch) as [hunk_content|] eqn:He; [|done].
    destruct (extract_first_hunk_start _ _ He) as (start & body & -> & Hstart).
    destruct (Region.truthy (view_find v start)) eqn:Ht.
    + intros [= <-]. by rewrite (proj1 (view_find_truthy _ _ Ht)).
    + apply fuzzy_search_candidates_hunk_start.
  - intros Hnone. unfold find_hunk_in_view.
    by rewrite (extract_first_hunk_none _ Hnone).
Qed.

(** ** The shape of a parsed diff *)

Lemma insert_sorted_spec (x : Z) (l : list Z) :
  StronglySorted Z.lt l ->
  StronglySorted Z.lt (insert_sorted x l)
  /\ forall y, y ∈ insert_sorted x l <-> y = x \/ y ∈ l.
Proof.
  induction l as [|z l IH]; intros Hs; simpl.
  - split; [repeat constructor|]. intros y. rewrite list_elem_of_singleton, elem_of_nil. tauto.
  - apply StronglySorted_cons in Hs as [Hz Hs]. destruct (IH Hs) as [IHs IHm].
    destruct (x <? z) eqn:E1; [|destruct (x =? z) eqn:E2].
    + split.
      * constructor; [by constructor|]. constructor; [lia|].
        eapply Forall_impl; [exact Hz|]. simpl. intros; lia.
      * intros y. rewrite !elem_of_cons. tauto.
    + split; [by constructor|]. intros y. rewrite elem_of_cons.
      assert (x = z) by lia. subst. tauto.
    + split.
      * constructor; [done|]. apply Forall_forall. intros y [-> |Hy]%IHm; [lia|].
        rewrite Forall_forall in Hz. by apply Hz.
      * intros y. rewrite !elem_of_cons, IHm. tauto.
Qed.

Lemma sorted_set_spec (l : list Z) :
  StronglySorted Z.lt (sorted_set l) /\ forall y, y ∈ sorted_set l <-> y ∈ l.
Proof.
  induction l as [|x l [IHs IHm]]; simpl.
  - split; [constructor|done].
  - destruct (insert_sorted_spec x _ IHs) as [Hs Hm]. split; [done|].
    intros y. rewrite Hm, elem_of_cons, IHm. tauto.
Qed.

Lemma StronglySorted_combine_snd {B} (l1 : list B) (l2 : list Z) :
  StronglySorted Z.lt l2 -> StronglySorted Z.lt (map snd (combine l1 l2)).
Proof.
  revert l1. induction l2 as [|x l2 IH]; intros l1 Hs.
  - destruct l1; simpl; constructor.
  - destruct l1 as [|y l1]; simpl; [constructor|].
    apply StronglySorted_cons in Hs as [Hx Hs]. constructor; [by apply IH|].
    rewrite Forall_forall in Hx. apply Forall_forall. intros z Hz. apply Hx.
    apply list_elem_of_fmap in Hz as [[z1 z2] [-> Hz]].
    apply list_elem_of_In, in_combine_r in Hz. by apply list_elem_of_In.
Qed.

Lemma find_all_bol_start (f : text -> option Z) (buf : text) (r : Region.t) :
  r ∈ find_all_bol f true 0 buf ->
  exists k : nat,
    Region.a r = Z.of_nat k /\ (k < length buf)%nat /\ line_start buf k
    /\ f (drop k buf) = Some (Region.b r - Region.a r).
Proof.
  intros (k & Ha & Hk & Hf & _ & Hprev)%find_all_bol_elem.
  exists k. split; [lia|]. split; [done|]. split; [|done].
  destruct k as [|k]; [by left|right]. apply Hprev. lia.
Qed.

(** X5: in a parsed diff the header starts, the hunk starts and the hunk ends
    each increase strictly along their list; every header starts at the first
    character of a line that begins with ["diff"], every hunk at the first
    character of a line that begins with ["@@"], and no hunk ends beyond one
    past the end of the buffer. *)
Theorem parse_diff_in_view_shape (v : View) :
  let diff := parse_diff_in_view v in
  StronglySorted Z.lt (map fst (headers diff))
  /\ StronglySorted Z.lt (map fst (hunks diff))
  /\ StronglySorted Z.lt (map snd (hunks diff))
  /\ (forall header, header ∈ headers diff ->
        exists k : nat,
          fst header = Z.of_nat k /\ line_start (content v) k
          /\ startswith (str "diff") (drop k (content v)) = true)
  /\ (forall hunk, hunk ∈ hunks diff ->
        (exists k : nat,
            fst hunk = Z.of_nat k /\ line_start (content v) k
            /\ startswith (str "@@") (drop k (content v)) = true)
        /\ 0 <= snd hunk <= view_size v + 1).
Proof.
  unfold parse_diff_in_view. cbn [headers hunks]. split; [|split; [|split; [|split]]].
  - apply StronglySorted_combine_fst, find_all_bol_sorted.
  - apply StronglySorted_combine_fst, find_all_bol_sorted.
  - apply StronglySorted_combine_snd, sorted_set_spec.
  - intros [a0 b0] Hin. cbn [fst snd].
    apply list_elem_of_In, in_combine_l, list_elem_of_In, list_elem_of_fmap in Hin
      as (r & -> & Hr).
    apply find_all_bol_start in Hr as (k & Ha & _ & Hline & Hf).
    exists k. split; [done|]. split; [done|].
    unfold re_diff in Hf. by destruct (startswith (str "diff") (drop k (content v))).
  - intros [s e] Hin. cbn [fst snd]. apply list_elem_of_In in Hin. split.
    + apply in_combine_l, list_elem_of_In, list_elem_of_fmap in Hin as (r & -> & Hr).
      apply find_all_bol_start in Hr as (k & Ha & _ & Hline & Hf).
      exists k. split; [done|]. split; [done|].
      unfold re_hunk in Hf. by destruct (startswith (str "@@") (drop k (content v))).
    + apply in_combine_r, list_elem_of_In in Hin.
      apply (proj1 (proj2 (sorted_set_spec _) _)) in Hin.
      unfold view_size, len.
      apply elem_of_app in Hin as [Hin|[Hin|Hin]%elem_of_app].
      * assert (Hin' : e ∈ map Region.a (view_find_all re_diff v)).
        { destruct (map Region.a (view_find_all re_diff v)); [done|]. by right. }
        apply list_elem_of_fmap in Hin' as (r & -> & Hr).
        apply find_all_bol_start in Hr as (k & Ha & Hk & _). lia.
      * apply list_elem_of_filter in Hin as [_ Hin].
        apply list_elem_of_fmap in Hin as (r & -> & Hr).
        apply find_all_bol_start in Hr as (k & Ha & Hk & _). lia.
      * apply list_elem_of_singleton in Hin. unfold view_size, len in Hin. lia.
Qed.

(** ** A cursor on a line that is there *)

Lemma line_indentation_nonneg (line : text) : 0 <= line_indentation line.
Proof.
  unfold line_indentation, lstrip, len.
  assert (length (dropwhile isspace line) <= length line)%nat; [|lia].
  induction line as [|c line IH]; simpl; [lia|]. destruct (isspace c); simpl; lia.
Qed.

Lemma next_available_col (line : HunkLine) (col : Z) (rest : list HunkLine) :
  1 <= col -> 1 <= snd (next_available line col rest).
Proof.
  intros Hcol. induction rest as [|nl rest IH]; simpl; [lia|].
  destruct (ascii_eqb (mode nl) "+").
  - simpl. unfold len. lia.
  - destruct (ascii_eqb (mode nl) " "); [|done].
    destruct (_ =? _); simpl; [|lia].
    pose proof (line_indentation_nonneg (text_ nl)). lia.
Qed.

Lemma first_visible_row_spec (index : Z) (ls : list HunkLine) :
  (exists i line,
      first_visible_row index ls = index + Z.of_nat i
      /\ ls !! i = Some line /\ visible line = true
      /\ forall j l, (j < i)%nat -> ls !! j = Some l -> visible l = false)
  \/ (first_visible_row index ls = 1 /\ Forall (fun l => visible l = false) ls).
Proof.
  revert index. induction ls as [|l ls IH]; intros index; simpl.
  - right. split; [done|constructor].
  - fold (visible l). destruct (visible l) eqn:Hv.
    + left. exists 0%nat, l. split; [lia|]. split; [done|]. split; [done|]. intros; lia.
    + destruct (IH (index + 1)) as [(i & line & Hrow & Hline & Hvis & Hmin)|[Hrow Hall]].
      * left. exists (S i), line. split; [lia|]. split; [done|]. split; [done|].
        intros [|j] l' Hj; simpl; [by intros [= <-]|]. apply Hmin. lia.
      * right. split; [done|by constructor].
Qed.

(** X6: on a line of the hunk body that is not a deleted one the mapper
    answers that line's row with the column it was given; on the [@@] line it
    answers the row of the first line that shows in the new file and is not
    blank, with column 1. *)
Theorem real_rowcol_on_present_line (hunk : text) (hunk_lines : list HunkLine) :
  split_hunk hunk = Ok (Some hunk_lines) ->
  (forall row col line,
      1 <= row ->
      hunk_lines !! Z.to_nat (row - 1) = Some line ->
      mode line <> "-"%char ->
      real_rowcol_in_hunk hunk (row, col) = Ok (Some (b line, col)))
  /\ (forall col i line,
        hunk_lines !! i = Some line ->
        visible line = true ->
        (forall j l, (j < i)%nat -> hunk_lines !! j = Some l -> visible l = false) ->
        real_rowcol_in_hunk hunk (0, col) = Ok (Some (b line, 1))).
Proof.
  intros Hsplit. split.
  - intros row col line Hrow Hline Hmode. unfold real_rowcol_in_hunk.
    rewrite Hsplit. simpl bind.
    destruct hunk_lines as [|l0 ls]; [by rewrite lookup_nil in Hline|].
    replace (row =? 0) with false by lia.
    rewrite (py_index_lookup _ _ line) by (done || lia). simpl bind.
    apply ascii_eqb_neq in Hmode. by rewrite Hmode.
  - intros col i line Hline Hvis Hmin. unfold real_rowcol_in_hunk.
    rewrite Hsplit. simpl bind.
    destruct hunk_lines as [|l0 ls] eqn:Hls; [by rewrite lookup_nil in Hline|].
    rewrite <- Hls in *. simpl (0 =? 0). cbv iota.
    assert (Hrow : first_visible_row 1 hunk_lines = 1 + Z.of_nat i).
    { destruct (first_visible_row_spec 1 hunk_lines)
        as [(i' & line' & Hrow & Hline' & Hvis' & Hmin')|[_ Hall]].
      - destruct (Nat.lt_trichotomy i i') as [Hlt|[->|Hgt]]; [|done|].
        + rewrite (Hmin' _ _ Hlt Hline) in Hvis. done.
        + rewrite (Hmin _ _ Hgt Hline') in Hvis'. done.
      - rewrite Forall_forall in Hall. apply list_elem_of_lookup_2 in Hline.
        rewrite (Hall _ Hline) in Hvis. done. }
    rewrite Hrow. replace (1 + Z.of_nat i - 1) with (Z.of_nat i) by lia.
    rewrite (py_index_lookup _ _ line) by (rewrite ?Nat2Z.id; done || lia). simpl bind.
    unfold visible in Hvis. apply andb_true_iff in Hvis as [Hm _].
    assert (Hnm : ascii_eqb (mode line) "-" = false).
    { apply ascii_eqb_neq. intros Heq. rewrite Heq in Hm. done. }
    by rewrite Hnm.
Qed.

(** X6, at an input: a cursor in column 4 of the added line of the example
    hunk. *)
Lemma real_rowcol_on_present_line_witness :
  real_rowcol_in_hunk hunk_example (2, 4) = Ok (Some (2, 4)).
Proof.
  exact (proj1 (real_rowcol_on_present_line hunk_example
                  [mkHunkLine " " (str "line1") 1; mkHunkLine "+" (str "line2") 2;
                   mkHunkLine "-" (str "line3") 3; mkHunkLine " " (str "line4") 3]
                  eq_refl)
               2 4 (mkHunkLine "+" (str "line2") 2) ltac:(done) eq_refl ltac:(done)).
Defined.

(** X7: a row past the last line of the hunk, as a cursor on blank lines
    that [rstrip] cut off has it, makes the mapper raise [IndexError]. *)
Theorem real_rowcol_past_last_line (hunk : text) (hunk_lines : list HunkLine) (row col : Z) :
  split_hunk hunk = Ok (Some hunk_lines) ->
  hunk_lines <> [] ->
  len hunk_lines < row ->
  real_rowcol_in_hunk hunk (row, col) = Raise IndexError.
Proof.
  intros Hsplit Hne Hrow. unfold real_rowcol_in_hunk. rewrite Hsplit. simpl bind.
  destruct hunk_lines as [|l0 ls] eqn:Hls; [done|]. rewrite <- Hls in *.
  assert (0 <= len hunk_lines) by (unfold len; lia).
  replace (row =? 0) with false by lia.
  unfold py_index. replace (row - 1 <? 0) with false by lia.
  replace ((row - 1 <? 0) || (len hunk_lines <=? row - 1)) with true by lia. done.
Qed.

(** X7, at an input: the example hunk followed by a blank line, the cursor on
    that line. *)
Lemma real_rowcol_past_last_line_witness :
  real_rowcol_in_hunk (hunk_example ++ [LF; LF]) (5, 0) = Raise IndexError.
Proof.
  exact (real_rowcol_past_last_line (hunk_example ++ [LF; LF])
           [mkHunkLine " " (str "line1") 1; mkHunkLine "+" (str "line2") 2;
            mkHunkLine "-" (str "line3") 3; mkHunkLine " " (str "line4") 3]
           5 0 eq_refl ltac:(done) ltac:(done)).
Defined.

(** The mapper never answers a column below 1 when it is given a column of
    at least 1. *)
Lemma real_rowcol_column_positive (hunk : text) (row col r c : Z) :
  1 <= col ->
  real_rowcol_in_hunk hunk (row, col) = Ok (Some (r, c)) ->
  1 <= c.
Proof.
  intros Hcol. unfold real_rowcol_in_hunk.
  destruct (split_hunk hunk) as [[hunk_lines|]|]; simpl; [|done|done].
  destruct hunk_lines as [|l0 ls]; [done|].
  set (ls0 := l0 :: ls).
  set (target := if row =? 0 then first_visible_row 1 ls0 else row).
  set (column := if row =? 0 then 1 else col).
  assert (Hcolumn : 1 <= column) by (unfold column; destruct (row =? 0); lia).
  destruct (py_index ls0 (target - 1)) as [line|]; simpl; [|done].
  destruct (negb (ascii_eqb (mode line) "-")).
  - intros [= <- <-]. done.
  - pose proof (next_available_col line column (py_slice_from ls0 target) Hcolumn) as Hn.
    destruct (next_available line column (py_slice_from ls0 target)) as [r' c'].
    intros [= <- <-]. done.
Qed.

(** ** The outcomes of [split_hunk] *)

Lemma split_nonempty (sep : ascii) (s : text) : split sep s <> [].
Proof. by rewrite split_unfold. Qed.

Lemma recount_lines_body (lines : list text) (b0 : Z) (ls : list HunkLine) :
  _recount_lines lines b0 = Ok ls -> map body_line_of ls = lines.
Proof.
  revert b0 ls. induction lines as [|line rest IH]; intros b0 ls; simpl.
  - by intros [= <-].
  - destruct line as [|c tail]; [done|].
    destruct (_recount_lines rest _) as [more|] eqn:Hrest; [|done].
    simpl. intros [= <-]. simpl. f_equal. by eapply IH.
Qed.

Lemma recount_lines_raises (lines : list text) (b0 : Z) (e : exn) :
  _recount_lines lines b0 = Raise e -> e = IndexError /\ [] ∈ lines.
Proof.
  revert b0. induction lines as [|line rest IH]; intros b0; simpl; [done|].
  destruct line as [|c tail]; [intros [= <-]; split; [done|left]|].
  destruct (_recount_lines rest _) as [more|e'] eqn:Hrest; [done|].
  simpl. intros [= <-]. destruct (IH _ Hrest) as [-> Hin]. split; [done|by right].
Qed.

(** X8: [split_hunk] answers [None] exactly when the first line of the hunk
    does not match the [@@] pattern; when it matches, the hunk splits into
    one record per body line, first character and rest, provided that no
    body line is empty, and an empty body line makes [split_hunk] raise
    [IndexError]. Trailing white space of the hunk is not part of the
    body. *)
Theorem split_hunk_outcomes (hunk : text) :
  exists head body,
    split LF (rstrip hunk) = head :: body
    /\ (split_hunk hunk = Ok None <-> hunks_lines_re_search head = None)
    /\ (forall hunk_lines,
          split_hunk hunk = Ok (Some hunk_lines) ->
          map body_line_of hunk_lines = body /\ [] ∉ body)
    /\ (hunks_lines_re_search head <> None -> [] ∉ body ->
        exists hunk_lines, split_hunk hunk = Ok (Some hunk_lines))
    /\ (forall e, split_hunk hunk = Raise e ->
          e = IndexError /\ hunks_lines_re_search head <> None /\ [] ∈ body)
    /\ (hunks_lines_re_search head <> None -> [] ∈ body ->
        split_hunk hunk = Raise IndexError).
Proof.
  unfold split_hunk.
  destruct (split LF (rstrip hunk)) as [|head body] eqn:Hs; [by apply split_nonempty in Hs|].
  exists head, body. split; [done|].
  destruct (hunks_lines_re_search head) as [[g1 g2]|] eqn:Hre.
  - pose proof (recount_lines_body body (int_of_digits g2)) as Hbody.
    pose proof (recount_lines_raises body (int_of_digits g2)) as Hraise.
    pose proof (proj1 (recount_lines_total body (int_of_digits g2))) as Htotal.
    destruct (_recount_lines body (int_of_digits g2)) as [ls|e]; simpl.
    + assert (Hne : [] ∉ body).
      { rewrite <- (Hbody ls eq_refl). intros (l & Hl & _)%list_elem_of_fmap. done. }
      split; [split; done|]. split.
      { intros ? [= <-]. split; [by apply Hbody|done]. }
      split; [by eexists|]. split; [done|]. intros _ Hin. done.
    + destruct (Hraise e eq_refl) as [-> Hin].
      split; [split; done|]. split; [done|]. split.
      { intros _ Hne. done. }
      split; [by intros ? [= <-]|done].
  - simpl. split; [split; done|]. split; [done|]. split; [done|]. split; done.
Qed.

(** ** Rows and columns relative to a hunk *)

Lemma split_length (sep : ascii) (s : text) :
  length (split sep s)
  = S (length (filter (fun c => c = sep) s)).
Proof.
  induction s as [|c s IH]; simpl; [done|].
  rewrite filter_cons. destruct (ascii_eqb c sep) eqn:E.
  - apply ascii_eqb_eq in E. rewrite decide_True by done. simpl. by rewrite IH.
  - apply ascii_eqb_neq in E. rewrite decide_False by done.
    destruct (split sep s) eqn:Hs; [by apply split_nonempty in Hs|]. simpl in *. done.
Qed.

Lemma view_rowcol_row_mono (v : View) (p1 p2 : Z) :
  p1 <= p2 -> fst (view_rowcol v p1) <= fst (view_rowcol v p2).
Proof.
  intros Hp. unfold view_rowcol, len. simpl. rewrite !split_length.
  assert (Hle : (Z.to_nat p1 <= Z.to_nat p2)%nat) by lia.
  pose proof (filter_take_le (fun c => c = LF) (content v) _ _ Hle). lia.
Qed.

Lemma relative_rowcol_in_hunk_col (v : View) (hunk_start pt : Z) :
  1 <= snd (relative_rowcol_in_hunk v hunk_start pt).
Proof.
  unfold relative_rowcol_in_hunk. destruct (view_rowcol v pt). simpl. lia.
Qed.

(** X9: for an offset at or after the start of a hunk, the row relative to
    the hunk is not negative (0 at the start itself), and the column is at
    least 1 whatever the offset. *)
Theorem relative_rowcol_in_hunk_bounds (v : View) (hunk_start pt : Z) :
  (hunk_start <= pt -> 0 <= fst (relative_rowcol_in_hunk v hunk_start pt))
  /\ fst (relative_rowcol_in_hunk v hunk_start hunk_start) = 0
  /\ 1 <= snd (relative_rowcol_in_hunk v hunk_start pt).
Proof.
  unfold relative_rowcol_in_hunk. split; [|split].
  - intros Hp. pose proof (view_rowcol_row_mono v _ _ Hp).
    destruct (view_rowcol v pt). simpl in *. lia.
  - destruct (view_rowcol v hunk_start). simpl. lia.
  - apply (relative_rowcol_in_hunk_col v hunk_start pt).
Qed.

(** ** The file name of a header *)

Lemma strip_prefix_app (p s r : text) : strip_prefix p s = Some r <-> s = p ++ r.
Proof.
  revert s. induction p as [|a p IH]; intros s; simpl.
  - split; [by intros [= ->]|by intros ->].
  - destruct s as [|c s]; [done|]. destruct (ascii_eqb a c) eqn:E.
    + apply ascii_eqb_eq in E as ->. rewrite IH. split; [by intros ->|by intros [= ->]].
    + apply ascii_eqb_neq in E. split; [done|]. intros [= -> _]. done.
Qed.

Lemma takewhile_not_LF_app (name rest : text) :
  LF ∉ name -> takewhile not_LF (name ++ LF :: rest) = name
               /\ dropwhile not_LF (name ++ LF :: rest) = LF :: rest.
Proof.
  induction name as [|c name IH]; intros Hno; simpl.
  - done.
  - assert (Hc : not_LF c = true).
    { unfold not_LF. apply negb_true_iff, ascii_eqb_neq. intros ->. apply Hno. left. }
    rewrite Hc. destruct IH as [-> ->]; [|done]. intros Hin. apply Hno. by right.
Qed.

Lemma takewhile_not_LF_all (name : text) :
  LF ∉ name -> takewhile not_LF name = name /\ dropwhile not_LF name = [].
Proof.
  induction name as [|c name IH]; intros Hno; simpl; [done|].
  assert (Hc : not_LF c = true).
  { unfold not_LF. apply negb_true_iff, ascii_eqb_neq. intros ->. apply Hno. left. }
  rewrite Hc. destruct IH as [-> ->]; [|done]. intros Hin. apply Hno. by right.
Qed.

Lemma takewhile_not_LF_free (s : text) : LF ∉ takewhile not_LF s.
Proof.
  intros Hin. pose proof (takewhile_all not_LF s) as Hall.
  rewrite Forall_forall in Hall. specialize (Hall _ Hin). by vm_compute in Hall.
Qed.

Lemma dropwhile_not_LF_first (r1 r2 : text) :
  exists t, dropwhile not_LF (r1 ++ LF :: r2) = LF :: t /\ (r2 <> [] -> t <> []).
Proof.
  induction r1 as [|c r1 IH]; simpl.
  - by exists r2.
  - destruct (not_LF c) eqn:E; [done|].
    assert (c = LF).
    { unfold not_LF in E. apply negb_false_iff in E. by apply ascii_eqb_eq. }
    subst. exists (r1 ++ LF :: r2). split; [done|]. by destruct r1.
Qed.

Lemma header_to_file_re_match_inv (s name : text) :
  header_to_file_re_match s = Some name ->
  name <> [] /\ (LF ∉ name)
  /\ (s = str "+++ b/" ++ name \/ s = str "+++ b/" ++ name ++ [LF]).
Proof.
  unfold header_to_file_re_match.
  destruct (strip_prefix (str "+++ b/") s) as [r|] eqn:Hp; [|done].
  apply strip_prefix_app in Hp.
  pose proof (takewhile_dropwhile not_LF r) as Hr.
  pose proof (takewhile_not_LF_free r) as Hfree.
  destruct (takewhile not_LF r) as [|c0 line]; [done|].
  destruct (dropwhile not_LF r) as [|c1 [|c2 rest]] eqn:Hd; [| |done].
  - intros [= <-]. rewrite app_nil_r in Hr. subst r. split; [done|]. split; [done|by left].
  - intros [= <-]. apply dropwhile_head in Hd as Hc1.
    assert (c1 = LF).
    { unfold not_LF in Hc1. apply negb_false_iff in Hc1. by apply ascii_eqb_eq. }
    subst c1. split; [done|]. split; [done|]. right. by rewrite Hp, <- Hr.
Qed.

Lemma header_to_file_re_search_cons (c : ascii) (s : text) :
  header_to_file_re_search (c :: s)
  = match header_to_file_re_match (c :: s) with
    | Some name => Some name
    | None => header_to_file_re_search s
    end.
Proof. done. Qed.

Lemma LF_not_in_prefix : LF ∉ str "+++ b/".
Proof. intros Hin%list_elem_of_In. vm_compute in Hin. intuition discriminate. Qed.

(** No match starts before the last line. *)
Lemma header_to_file_re_match_earlier (q rest : text) (c : ascii) :
  rest <> [] -> header_to_file_re_match (c :: q ++ LF :: rest) = None.
Proof.
  intros Hrest.
  destruct (header_to_file_re_match (c :: q ++ LF :: rest)) as [name|] eqn:Hm; [|done].
  exfalso. apply header_to_file_re_match_inv in Hm as (_ & Hfree & Hs).
  assert (Hpfree : LF ∉ str "+++ b/" ++ name).
  { intros [Hin|Hin]%elem_of_app; [by apply LF_not_in_prefix|done]. }
  destruct Hs as [Hs|Hs].
  - apply Hpfree. rewrite <- Hs. change (c :: q ++ LF :: rest) with ((c :: q) ++ LF :: rest).
    apply elem_of_app. right. left.
  - rewrite app_assoc in Hs.
    change (c :: q ++ LF :: rest) with ((c :: q) ++ LF :: rest) in Hs.
    assert (Hlast : List.last ((c :: q) ++ LF :: rest) LF = LF).
    { rewrite Hs. by rewrite last_last. }
    assert (Hlen : length ((c :: q) ++ LF :: rest)
                   = length ((str "+++ b/" ++ name) ++ [LF])) by (by rewrite Hs).
    assert (Hnth : (str "+++ b/" ++ name) !! length (c :: q) = Some LF).
    { assert (Hlk : ((c :: q) ++ LF :: rest) !! length (c :: q) = Some LF).
      { by rewrite lookup_app_r, Nat.sub_diag by lia. }
      rewrite Hs in Hlk. rewrite lookup_app_l in Hlk; [done|].
      rewrite !length_app in Hlen. simpl in Hlen.
      destruct rest; [done|]. simpl in Hlen. rewrite length_app. simpl. lia. }
    apply Hpfree. by eapply list_elem_of_lookup_2.
Qed.

Lemma extract_filename_from_header_name (header name : text) :
  extract_filename_from_header header = Some name ->
  name <> [] /\ LF ∉ name.
Proof.
  unfold extract_filename_from_header. induction header as [|c header IH]; [done|].
  rewrite header_to_file_re_search_cons.
  destruct (header_to_file_re_match (c :: header)) as [n|] eqn:Hm; [|exact IH].
  intros [= ->]. by apply header_to_file_re_match_inv in Hm as (? & ? & _).
Qed.

(** X10: the file name [extract_filename_from_header] finds is never empty
    and holds no newline, and it is what follows a ["+++ b/"] on the last
    line of the header; and for a header of whole lines followed by a
    last line ["+++ b/"] and a name, the name is found. *)
Theorem extract_filename_from_header_last_line :
  (forall header name,
      extract_filename_from_header header = Some name ->
      name <> [] /\ (LF ∉ name)
      /\ exists before, header = before ++ str "+++ b/" ++ name
                        \/ header = before ++ str "+++ b/" ++ name ++ [LF])
  /\ (forall before name,
        before = [] \/ (exists lines, before = lines ++ [LF]) ->
        name <> [] -> LF ∉ name ->
        extract_filename_from_header (before ++ str "+++ b/" ++ name ++ [LF]) = Some name
        /\ extract_filename_from_header (before ++ str "+++ b/" ++ name) = Some name).
Proof.
  unfold extract_filename_from_header. split.
  - intros header name. induction header as [|c header IH].
    + done.
    + rewrite header_to_file_re_search_cons.
      destruct (header_to_file_re_match (c :: header)) as [n|] eqn:Hm.
      * intros [= ->]. apply header_to_file_re_match_inv in Hm as (? & ? & Hs).
        split; [done|]. split; [done|]. exists []. done.
      * intros (Hne & Hfree & before & Hs)%IH. split; [done|]. split; [done|].
        exists (c :: before). destruct Hs as [-> | ->]; [by left|by right].
  - intros before name Hwhole Hne Hfree.
    assert (Hlast : forall tail, tail = [] \/ tail = [LF] ->
              header_to_file_re_search (str "+++ b/" ++ name ++ tail) = Some name).
    { intros tail Htail.
      assert (Hm : header_to_file_re_match (str "+++ b/" ++ name ++ tail) = Some name).
      { unfold header_to_file_re_match.
        rewrite (proj2 (strip_prefix_app _ _ (name ++ tail)) eq_refl).
        destruct Htail as [-> | ->].
        - rewrite app_nil_r. destruct (takewhile_not_LF_all name Hfree) as [-> ->].
          by destruct name.
        - destruct (takewhile_not_LF_app name [] Hfree) as [-> ->]. by destruct name. }
      change (str "+++ b/" ++ name ++ tail)
        with ("+"%char :: str "++ b/" ++ name ++ tail) in *.
      by rewrite header_to_file_re_search_cons, Hm. }
    assert (Hskip : forall lines tail, tail = [] \/ tail = [LF] ->
              header_to_file_re_search ((lines ++ [LF]) ++ str "+++ b/" ++ name ++ tail)
              = Some name).
    { intros lines tail Htail. induction lines as [|c lines IH].
      - change (([] ++ [LF]) ++ str "+++ b/" ++ name ++ tail)
          with (LF :: str "+++ b/" ++ name ++ tail).
        rewrite header_to_file_re_search_cons.
        replace (header_to_file_re_match (LF :: str "+++ b/" ++ name ++ tail)) with (@None text)
          by done.
        by apply Hlast.
      - change (((c :: lines) ++ [LF]) ++ str "+++ b/" ++ name ++ tail)
          with (c :: (lines ++ [LF]) ++ str "+++ b/" ++ name ++ tail).
        rewrite header_to_file_re_search_cons.
        replace (c :: (lines ++ [LF]) ++ str "+++ b/" ++ name ++ tail)
          with (c :: lines ++ LF :: (str "+++ b/" ++ name ++ tail))
          by (by rewrite <- app_assoc).
        rewrite header_to_file_re_match_earlier; [|done]. exact IH. }
    destruct Hwhole as [-> |[lines ->]].
    + split; [apply (Hlast [LF]); by right|].
      rewrite <- (app_nil_r name) at 1. apply (Hlast []). by left.
    + split; [apply (Hskip lines [LF]); by right|].
      rewrite <- (app_nil_r name) at 1. apply (Hskip lines []). by left.
Qed.

(** X10, at an input: the header of file [x] in [buffer_example]. *)
Lemma extract_filename_from_header_last_line_witness :
  extract_filename_from_header
    (lines_text ["diff --git a/x b/x"; "index 1..2"; "--- a/x"; ""] ++ str "+++ b/" ++ str "x" ++ [LF])
  = Some (str "x").
Proof.
  apply (proj2 extract_filename_from_header_last_line
           (lines_text ["diff --git a/x b/x"; "index 1..2"; "--- a/x"; ""]) (str "x")).
  - right. by exists (lines_text ["diff --git a/x b/x"; "index 1..2"; "--- a/x"]).
  - done.
  - intros Hin%list_elem_of_In. vm_compute in Hin. intuition discriminate.
Defined.

(** ** One jump per file *)

Lemma first_per_file_from_spec (seen : gset text) (items : list (text * Z * Z)) :
  let out := first_per_file_from seen items in
  NoDup (map filename_of out)
  /\ out `sublist_of` items
  /\ (forall name, name ∈ map filename_of out
                   <-> (name ∉ seen) /\ name ∈ map filename_of items)
  /\ (forall item, item ∈ out ->
        exists before after,
          items = before ++ item :: after
          /\ filename_of item ∉ map filename_of before).
Proof.
  revert seen. induction items as [|item items IH]; intros seen; simpl.
  - split; [constructor|]. split; [done|]. split.
    + intros name. rewrite elem_of_nil. tauto.
    + by intros item ?%elem_of_nil.
  - fold (filename_of item). case_decide as Hseen.
    + destruct (IH seen) as (Hnd & Hsub & Hnames & Hfirst).
      split; [done|]. split; [by constructor|]. split.
      * intros name. rewrite Hnames. simpl. rewrite elem_of_cons. split; [tauto|].
        intros [Hn [-> |Hin]]; tauto.
      * intros it Hit. destruct (Hfirst it Hit) as (before & after & -> & Hb).
        exists (item :: before), after. split; [done|]. simpl.
        intros [Heq|Hin]%elem_of_cons; [|done].
        assert (Hout : filename_of it ∈ map filename_of (first_per_file_from seen (before ++ it :: after))).
        { apply list_elem_of_fmap. by exists it. }
        apply Hnames in Hout as [Hns _]. congruence.
    + destruct (IH ({[filename_of item]} ∪ seen)) as (Hnd & Hsub & Hnames & Hfirst).
      split; [|split; [by constructor|split]].
      * simpl. constructor; [|done]. intros Hin%Hnames. set_solver.
      * intros name. simpl. rewrite !elem_of_cons, Hnames. split.
        -- intros [-> |[Hn Hin]]; [tauto|]. split; [set_solver|tauto].
        -- intros [Hn [-> |Hin]]; [tauto|].
           destruct (decide (name = filename_of item)) as [->|Hne]; [tauto|].
           right. split; [set_solver|done].
      * intros it [-> |Hit]%elem_of_cons.
        -- exists [], items. split; [done|]. simpl. apply not_elem_of_nil.
        -- destruct (Hfirst it Hit) as (before & after & -> & Hb).
           exists (item :: before), after. split; [done|]. simpl.
           intros [Heq|Hin]%elem_of_cons; [|done].
           assert (Hout : filename_of it ∈ map filename_of
                            (first_per_file_from ({[filename_of item]} ∪ seen)
                               (before ++ it :: after))).
           { apply list_elem_of_fmap. by exists it. }
           apply Hnames in Hout as [Hns _]. set_solver.
Qed.

(** X11: [first_per_file] keeps, for every file name among the items, the
    first item with that name and no other, in the order of the items. *)
Theorem first_per_file_keeps_first (items : list (text * Z * Z)) :
  NoDup (map filename_of (first_per_file items))
  /\ first_per_file items `sublist_of` items
  /\ (forall name, name ∈ map filename_of (first_per_file items)
                   <-> name ∈ map filename_of items)
  /\ (forall item, item ∈ first_per_file items ->
        exists before after,
          items = before ++ item :: after
          /\ filename_of item ∉ map filename_of before).
Proof.
  destruct (first_per_file_from_spec ∅ items) as (Hnd & Hsub & Hnames & Hfirst).
  split; [done|]. split; [done|]. split; [|done].
  intros name. rewrite (Hnames name). set_solver.
Qed.

(** ** Where a cursor jumps to *)

Lemma head_and_hunk_for_pt_outside (diff : ParsedDiff) (pt : Z) :
  (forall hunk, hunk ∈ hunks diff -> ~ holds hunk pt) ->
  head_and_hunk_for_pt diff pt = Ok None.
Proof.
  intros Hno. unfold head_and_hunk_for_pt.
  pose proof (hunk_for_pt_first (hunks diff) pt) as Hf.
  destruct (hunk_for_pt (hunks diff) pt) as [hunk|]; [|done].
  destruct Hf as (before & after & Heq & _ & Hp).
  exfalso. apply (Hno hunk); [|done]. rewrite Heq. set_solver.
Qed.

(** X12: a cursor outside every hunk has no jump position; a jump position,
    when there is one, belongs to a hunk that holds the cursor, names a file
    by a non-empty name without newline, and has a column of at least 1, so
    that a cursor on the first character of a line does not send column 0 to
    the editor. *)
Theorem jump_position_to_file_column (v : View) (diff : ParsedDiff) (pt : Z) :
  ((forall hunk, hunk ∈ hunks diff -> ~ holds hunk pt) ->
   jump_position_to_file v diff pt = Ok None)
  /\ (forall filename row col,
        jump_position_to_file v diff pt = Ok (Some (filename, row, col)) ->
        1 <= col
        /\ filename <> [] /\ (LF ∉ filename)
        /\ exists header hunk,
             head_and_hunk_for_pt diff pt = Ok (Some (header, hunk))
             /\ holds hunk pt
             /\ extract_filename_from_header (extract_content v header) = Some filename).
Proof.
  unfold jump_position_to_file. split.
  - intros Hnone.
    by rewrite (head_and_hunk_for_pt_outside diff pt Hnone).
  - intros filename row col.
    destruct (head_and_hunk_for_pt diff pt) as [[[header hunk]|]|] eqn:Hq; simpl; [|done|done].
    pose proof (relative_rowcol_in_hunk_col v (fst hunk) pt) as Hcol.
    destruct (relative_rowcol_in_hunk v (fst hunk) pt) as [rrow rcol]. simpl in Hcol.
    destruct (real_rowcol_in_hunk (extract_content v hunk) (rrow, rcol))
      as [[[r c]|]|] eqn:Hreal; simpl; [|done|done].
    destruct (extract_filename_from_header (extract_content v header)) as [name|] eqn:Hname;
      [|done].
    intros [= <- <- <-].
    split; [by eapply real_rowcol_column_positive|].
    destruct (extract_filename_from_header_name _ _ Hname) as (Hne & Hfree).
    split; [done|]. split; [done|]. exists header, hunk. split; [done|]. split; [|done].
    by apply head_and_hunk_for_pt_elem in Hq as (_ & _ & ?).
Qed.

(** ** The commands, further *)

Section MoreCommandFacts.
Context {host : Host}.

Notation "'do' x <- m ; k" := (bindM m (fun x => k))
  (at level 10, x name, m at level 100, k at level 200).
Notation "m ;; k" := (bindM m (fun _ => k))
  (at level 100, k at level 200, right associativity).

Lemma bindM_get {B} (key : string) (k : value -> M B) (w : World) :
  bindM (get key) k w = k (settings_get key (view w)) w.
Proof. done. Qed.

Lemma bindM_get_view {B} (k : View -> M B) (w : World) :
  bindM get_view k w = k (view w) w.
Proof. done. Qed.

Lemma bindM_set {B} (key : string) (x : value) (k : unit -> M B) (w : World) :
  bindM (set key x) k w
  = k tt (mkWorld (settings_set key x (view w)) (repo w) (prefs w) (log w)).
Proof. done. Qed.

Lemma bindM_emit {B} (e : Event) (k : unit -> M B) (w : World) :
  bindM (emit e) k w = k tt (mkWorld (view w) (repo w) (prefs w) (log w ++ [e])).
Proof. done. Qed.

Lemma bindM_lift {A B} (r : result A) (k : A -> M B) (w : World) :
  bindM (lift r) k w = match r with Ok x => k x w | Raise e => (Raise e, w) end.
Proof. by destruct r. Qed.

Lemma bindM_window_status_message {B} (msg : text) (k : unit -> M B) (w : World) :
  bindM (window_status_message msg) k w
  = if has_window (view w)
    then k tt (mkWorld (view w) (repo w) (prefs w) (log w ++ [StatusMessage msg]))
    else (Raise AttributeError, w).
Proof.
  unfold window_status_message, bindM, get_view, emit, raise. simpl.
  by destruct (has_window (view w)).
Qed.

Lemma call_git_after (w : World) (args : list value) (stdin : option text) :
  call_git args stdin w = (fst (git (repo w) args stdin), after_git w args stdin).
Proof. unfold call_git, after_git. by destruct (git (repo w) args stdin). Qed.

Lemma spans_under_outside (diff : ParsedDiff) (pts : list Z) :
  Forall (fun pt => forall hunk, hunk ∈ hunks diff -> ~ holds hunk pt) pts ->
  spans_under diff pts = Ok [].
Proof.
  induction 1 as [|pt pts Hpt _ IH]; simpl; [done|].
  rewrite (head_and_hunk_for_pt_outside diff pt Hpt). simpl.
  by rewrite IH.
Qed.

(** X13: in a clean diff, when no zero-width cursor lies in a hunk (no
    cursor at all, or only range selections, among the cases), the
    stage/discard command calls no [git] and changes nothing: it shows
    ["Not within a hunk"] if the view has a window and does nothing at all
    otherwise. *)
Theorem stage_outside_hunks (reset : bool) (w : World) :
  truthy (settings_get "git_savvy.diff_view.ignore_whitespace" (view w))
  || truthy (settings_get "git_savvy.diff_view.show_word_diff" (view w)) = false ->
  Forall (fun pt => forall hunk, hunk ∈ hunks (parse_diff_in_view (view w)) -> ~ holds hunk pt)
         (cursor_pts_of (view w)) ->
  GsDiffStageOrResetHunkCommand_run reset w
  = (Ok tt,
     mkWorld (view w) (repo w) (prefs w)
       (log w ++ if has_window (view w) then [StatusMessage (str "Not within a hunk")] else [])).
Proof.
  intros Hclean Hout.
  unfold GsDiffStageOrResetHunkCommand_run, bindM at 1 2, get at 1 2. simpl.
  rewrite Hclean. unfold bindM at 1, get_view. simpl.
  unfold bindM at 1, lift, synthesize_patch. rewrite (spans_under_outside _ _ Hout). simpl.
  destruct (has_window (view w)); unfold emit, ret; simpl; [done|].
  rewrite app_nil_r. by destruct w.
Qed.

(** X14: when the external apply fails, [apply_patch] raises what [git]
    raised and leaves the view as it was: no undo entry, no just-hunked
    patch, no refresh; the call to [git] is the only thing done. *)
Theorem apply_patch_failure (patch : text) (pts : list Z) (reset : bool) (w : World) (e : exn) :
  let args := apply_args reset
                (settings_get "git_savvy.diff_view.in_cached_mode" (view w))
                (settings_get "git_savvy.diff_view.context_lines" (view w)) in
  fst (git (repo w) args (Some patch)) = Raise e ->
  apply_patch patch pts reset w = (Raise e, after_git w args (Some patch))
  /\ view (snd (apply_patch patch pts reset w)) = view w.
Proof.
  intros args Hgit.
  assert (Hrun : apply_patch patch pts reset w = (Raise e, after_git w args (Some patch))).
  { unfold apply_patch, bindM at 1 2, get at 1 2. simpl. fold args.
    unfold bindM at 1. by rewrite call_git_after, Hgit. }
  by rewrite Hrun.
Qed.

(** X15: when the external apply succeeds and the history setting is a
    list, [apply_patch] pushes one entry, made of the arguments, the patch,
    the cursor offsets and the cached-mode flag, onto the end of the history
    and stores the patch as just-hunked, both still there after the
    refresh; when the history setting is not a list, the patch has been
    applied all the same and [AttributeError] is raised with nothing
    recorded. *)
Theorem apply_patch_success (patch : text) (pts : list Z) (reset : bool) (w : World)
    (out : text) :
  let in_cached_mode := settings_get "git_savvy.diff_view.in_cached_mode" (view w) in
  let args := apply_args reset in_cached_mode
                (settings_get "git_savvy.diff_view.context_lines" (view w)) in
  fst (git (repo w) args (Some patch)) = Ok out ->
  (forall entries,
      settings_get "git_savvy.diff_view.history" (view w) = VList entries ->
      let final := view (snd (apply_patch patch pts reset w)) in
      settings_get "git_savvy.diff_view.history" final
      = VList (entries ++ [undo_entry args patch pts in_cached_mode])
      /\ settings_get "git_savvy.diff_view.just_hunked" final = VStr patch)
  /\ ((forall entries, settings_get "git_savvy.diff_view.history" (view w) <> VList entries) ->
      apply_patch patch pts reset w = (Raise AttributeError, after_git w args (Some patch))).
Proof.
  intros in_cached_mode args Hgit.
  assert (Hrun : apply_patch patch pts reset w
    = match settings_get "git_savvy.diff_view.history" (view w) with
      | VList entries =>
          gs_diff_refresh
            (mkWorld
               (settings_set "git_savvy.diff_view.just_hunked" (VStr patch)
                  (settings_set "git_savvy.diff_view.history"
                     (VList (entries ++ [undo_entry args patch pts in_cached_mode]))
                     (view w)))
               (snd (git (repo w) args (Some patch))) (prefs w)
               (log w ++ [GitCall args (Some patch)]))
      | _ => (Raise AttributeError, after_git w args (Some patch))
      end).
  { unfold apply_patch, bindM at 1 2, get at 1 2. simpl. fold in_cached_mode args.
    unfold bindM at 1. rewrite call_git_after, Hgit.
    unfold bindM at 1, get at 1. cbn [fst snd view after_git].
    by destruct (settings_get "git_savvy.diff_view.history" (view w)). }
  split.
  - intros entries Hh final. unfold final. rewrite Hrun, Hh.
    rewrite !refresh_settings_frame by done. cbn [view].
    by rewrite !settings_get_set.
  - intros Hno. rewrite Hrun.
    destruct (settings_get "git_savvy.diff_view.history" (view w)) eqn:Hh; try done.
    by destruct (Hno l).
Qed.

(** X16: with an empty or missing undo history, undo calls no [git] and
    changes nothing; it shows ["Undo stack is empty"] if the view has a
    window. *)
Theorem undo_empty_history (w : World) :
  truthy (settings_get "git_savvy.diff_view.history" (view w)) = false ->
  GsDiffUndo_run w
  = (Ok tt,
     mkWorld (view w) (repo w) (prefs w)
       (log w ++ if has_window (view w) then [StatusMessage (str "Undo stack is empty")] else [])).
Proof.
  intros Hempty. unfold GsDiffUndo_run, bindM at 1, get at 1. simpl. rewrite Hempty. simpl.
  unfold bindM, get_view. simpl.
  destruct (has_window (view w)); unfold emit, ret; simpl; [done|].
  rewrite app_nil_r. by destruct w.
Qed.

Lemma last_snoc_take {A} (l : list A) (x : A) :
  last (l ++ [x]) = Some x /\ take (length (l ++ [x]) - 1) (l ++ [x]) = l.
Proof.
  split; [apply last_snoc|]. rewrite length_app. simpl.
  replace (length l + 1 - 1)%nat with (length l) by lia. apply take_app_length.
Qed.

(** X17: undo pops the last entry of the history and calls [git] with the
    entry's arguments, the reverse flag in the second place turned over
    ([-R] taken away if it was there, put there if it was not), and the
    entry's patch on the input. When that call fails nothing is changed and
    the entry stays in the history; when it succeeds the history is the
    history without the entry and the patch is the just-hunked patch. For an
    entry that [apply_patch] recorded the call goes the other way on the same
    target. *)
Theorem undo_reverses_last_entry (w : World) (entries args : list value) (patch : text)
    (cs in_cached_mode flag : value) :
  settings_get "git_savvy.diff_view.history" (view w)
  = VList (entries ++ [VList [VList args; VStr patch; cs; in_cached_mode]]) ->
  args !! 1%nat = Some flag ->
  let args' := <[1%nat := if truthy flag then VNone else VStr (str "-R")]> args in
  (exists more, log (snd (GsDiffUndo_run w)) = log w ++ GitCall args' (Some patch) :: more)
  /\ (forall e, fst (git (repo w) args' (Some patch)) = Raise e ->
        GsDiffUndo_run w = (Raise e, after_git w args' (Some patch)))
  /\ (forall out, fst (git (repo w) args' (Some patch)) = Ok out ->
        let final := view (snd (GsDiffUndo_run w)) in
        settings_get "git_savvy.diff_view.history" final = VList entries
        /\ settings_get "git_savvy.diff_view.just_hunked" final = VStr patch)
  /\ (forall reset icm context_lines,
        args = apply_args reset icm context_lines ->
        reverse_apply args' = negb (reverse_apply args)
        /\ target_of args' = target_of args).
Proof.
  intros Hh Hflag args'.
  destruct (last_snoc_take entries (VList [VList args; VStr patch; cs; in_cached_mode]))
    as [Hlast Htake].
  assert (Htruthy : truthy (VList (entries ++ [VList [VList args; VStr patch; cs; in_cached_mode]]))
                    = true) by (by destruct entries).
  set (tail :=
    (set "git_savvy.diff_view.history" (VList entries) ;;
     set "git_savvy.diff_view.just_hunked" (VStr patch) ;;
     gs_diff_refresh ;;
     do now <- get "git_savvy.diff_view.in_cached_mode";
     if py_eq now in_cached_mode then set_and_show_cursor_value cs else ret tt) : M unit).
  assert (Hrun : GsDiffUndo_run w
    = match fst (git (repo w) args' (Some patch)) with
      | Ok _ => tail (after_git w args' (Some patch))
      | Raise e => (Raise e, after_git w args' (Some patch))
      end).
  { unfold GsDiffUndo_run, bindM at 1, get at 1. simpl. rewrite Hh, Htruthy. simpl negb.
    cbv iota. rewrite Hlast, Htake.
    cbn [negb]. cbv iota. unfold bindM at 1, lift at 1. cbn [unpack_entry]. cbv iota beta.
    unfold bindM at 1, lift at 1. cbn [toggle_reverse]. rewrite Hflag. fold args'.
    unfold bindM at 1, lift at 1. cbn [stdin_of]. cbv iota beta.
    unfold bindM at 1. rewrite call_git_after. done. }
  split; [|split; [|split]].
  - rewrite Hrun. destruct (fst (git (repo w) args' (Some patch))) as [out|e].
    + assert (Hg : grows tail).
      { unfold tail. pose proof grows_gs_diff_refresh.
        apply grows_bind; [apply grows_set|intros _].
        apply grows_bind; [apply grows_set|intros _].
        apply grows_bind; [done|intros _].
        apply grows_bind; [apply grows_get|intros now].
        destruct (py_eq now in_cached_mode); [|apply grows_ret].
        unfold set_and_show_cursor_value.
        assert (Hshow : forall c, grows (set_and_show_cursor c)).
        { intros c. unfold set_and_show_cursor.
          apply grows_bind; [apply grows_set_view|intros _; apply grows_emit]. }
        destruct cs as [|cb|cz|[|cc ct]|l]; try apply Hshow;
          try (apply grows_bind; [apply grows_set_view|intros _];
               first [apply grows_emit|apply grows_raise]).
        destruct (add_points l []) as [added [|]];
          (apply grows_bind; [apply grows_set_view|intros _];
           first [apply grows_emit|apply grows_raise]). }
      destruct (Hg (after_git w args' (Some patch))) as [more Hmore].
      exists more. rewrite Hmore. simpl. by rewrite <- app_assoc.
    + exists []. done.
  - intros e He. by rewrite Hrun, He.
  - intros out Hout final. unfold final. rewrite Hrun, Hout.
    assert (Hkeep : forall key x (w0 : World),
      key <> "git_savvy.diff_view.raw_diff"%string ->
      key <> "git_savvy.disable_diff"%string ->
      settings_get key (view w0) = x ->
      settings_get key
        (view (snd ((gs_diff_refresh ;;
                     do now <- get "git_savvy.diff_view.in_cached_mode";
                     if py_eq now in_cached_mode then set_and_show_cursor_value cs else ret tt)
                    w0))) = x).
    { intros key x w0 Hraw Hdis Hx. unfold bindM at 1.
      pose proof (refresh_settings_frame w0 key Hraw Hdis) as Hr.
      destruct (gs_diff_refresh w0) as [[[]|e] w1]; simpl in *; [|congruence].
      unfold bindM at 1, get at 1. simpl.
      destruct (py_eq _ in_cached_mode); [|simpl; congruence].
      unfold set_and_show_cursor_value, set_and_show_cursor, bindM, set_view, emit, raise.
      unfold settings_get in *.
      destruct cs as [|cb|cz|[|cc ct]|l]; simpl; try congruence.
      destruct (add_points l []) as [added [|]]; simpl; congruence. }
    unfold tail. unfold bindM at 1 2, set at 1 2, set_view. simpl.
    split; apply Hkeep; try done; simpl; by rewrite !settings_get_set.
  - intros reset icm context_lines ->.
    unfold apply_args in Hflag. simpl in Hflag. injection Hflag as <-.
    unfold args', apply_args, reverse_apply, target_of, has_arg, arg_if.
    destruct reset, (truthy icm), (eq_zero context_lines); by vm_compute.
Qed.

End MoreCommandFacts.

(** ** Settings a command keeps *)

Section KeepFacts.
Context {host : Host}.
Variable set_iteration : list Z -> list Z.

Notation "'do' x <- m ; k" := (bindM m (fun x => k))
  (at level 10, x name, m at level 100, k at level 200).
Notation "m ;; k" := (bindM m (fun _ => k))
  (at level 100, k at level 200, right associativity).

Lemma keeps_ret (key : string) {A} (x : A) : keeps key (ret x).
Proof. by intros w. Qed.

Lemma keeps_raise (key : string) {A} (e : exn) : keeps key (@raise host A e).
Proof. by intros w. Qed.

Lemma keeps_lift (key : string) {A} (r : result A) : keeps key (lift r).
Proof. by intros w. Qed.

Lemma keeps_get (key key' : string) : keeps key (get key').
Proof. by intros w. Qed.

Lemma keeps_get_view (key : string) : keeps key get_view.
Proof. by intros w. Qed.

Lemma keeps_emit (key : string) (e : Event) : keeps key (emit e).
Proof. by intros w. Qed.

Lemma keeps_set (key key' : string) (x : value) : key' <> key -> keeps key (set key' x).
Proof.
  intros Hne w. unfold set, set_view. simpl. rewrite settings_get_set. by rewrite decide_False.
Qed.

Lemma keeps_bind (key : string) {A B} (m : M A) (k : A -> M B) :
  keeps key m -> (forall x, keeps key (k x)) -> keeps key (bindM m k).
Proof.
  intros Hm Hk w. unfold bindM. specialize (Hm w).
  destruct (m w) as [[x|e] w1]; simpl in *; [|done]. by rewrite Hk.
Qed.

Lemma keeps_if (key : string) {A} (c : bool) (m1 m2 : M A) :
  keeps key m1 -> keeps key m2 -> keeps key (if c then m1 else m2).
Proof. by destruct c. Qed.

Lemma keeps_refresh (key : string) :
  key <> "git_savvy.diff_view.raw_diff"%string ->
  key <> "git_savvy.disable_diff"%string ->
  keeps key gs_diff_refresh.
Proof. intros Hraw Hdis w. by apply refresh_settings_frame. Qed.

Lemma keeps_set_and_show_cursor (key : string) (cs : cursors) :
  keeps key (set_and_show_cursor cs).
Proof. by intros w. Qed.

Lemma keeps_set_and_show_built (key : string) (rs : list built_region) :
  keeps key (set_and_show_built rs).
Proof.
  intros w. unfold set_and_show_built. by destruct (add_built rs []) as [added []].
Qed.

Lemma add_built_buffer (rs added : list Region.t) :
  add_built (map BufferRegion rs) added = (fold_left selection_add rs added, true).
Proof.
  revert added. induction rs as [|r rs IH]; intros added; simpl; [done|]. by rewrite IH.
Qed.

(** For regions of the buffer the two readings of [set_and_show_cursor]
    agree. *)
Lemma set_and_show_built_buffer (rs : list Region.t) :
  set_and_show_built (map BufferRegion rs) = set_and_show_cursor (ManyRegions rs).
Proof. unfold set_and_show_built, set_and_show_cursor. by rewrite add_built_buffer. Qed.

(** A refresh of a view that is not disabled calls [git diff] first and
    calls [git] no second time. *)
Lemma refresh_calls_git_once (w : World) :
  disabled (view w) = false ->
  exists rest,
    log (snd (gs_diff_refresh w)) = log w ++ GitCall (diff_args (view w)) None :: rest
    /\ Forall (fun e => is_git_call e = false) rest.
Proof.
  intros Hd. unfold gs_diff_refresh. rewrite (refresh_enabled w Hd). cbv zeta.
  destruct (fst (git (repo w) (diff_args (view w)) None)) as [diff|e].
  - unfold bindM, get, set, set_view, gs_replace_view_text, gs_diff_navigate, emit, ret.
    simpl.
    destruct (truthy (settings_get "git_savvy.diff_view.raw_diff" (view w)));
      simpl; unfold bindM, set_view, emit, ret; simpl; eexists;
      (split; [by rewrite <- ?app_assoc|]); by repeat constructor.
  - exists []. split; [|constructor]. by destruct e as [| | | |[|]].
Qed.

Lemma keeps_finally (key : string) {A} (body : M A) (cleanup : M unit) :
  keeps key body -> keeps key cleanup -> keeps key (finally body cleanup).
Proof.
  intros Hb Hc w. unfold finally. specialize (Hb w).
  destruct (body w) as [r w1]. specialize (Hc w1).
  destruct (cleanup w1) as [[[]|e] w2]; simpl in *; congruence.
Qed.

Lemma keeps_no_animations (key : string) {A} (body : M A) :
  keeps key body -> keeps key (no_animations body).
Proof.
  intros Hb w. unfold no_animations.
  match goal with |- context [bindM ?m ?k] => assert (Hk : keeps key (bindM m k)) end.
  { apply keeps_bind; [by intros w0|intros _]. apply keeps_finally; [done|by intros w0]. }
  apply Hk.
Qed.

(** *** GsDiffToggleSetting *)

Lemma toggle_key_not_flag (setting : string) :
  String.append "git_savvy.diff_view." setting <> "git_savvy.disable_diff"%string.
Proof. intros H. cbv [String.append] in H. discriminate. Qed.

Lemma toggle_key_raw (setting : string) :
  setting <> "raw_diff"%string ->
  String.append "git_savvy.diff_view." setting <> "git_savvy.diff_view.raw_diff"%string.
Proof. intros Hne H. cbv [String.append] in H. injection H as ->. done. Qed.

(** X18: the toggle command of the diff view sets the named setting to the
    negation of its truth value before, shows the new value in the status
    bar and refreshes: what it does from there on is the refresh of the view
    so changed, which on a view that is not disabled calls [git diff] with
    the arguments of the changed view. No other setting changes, the
    refresh's own two apart. Without a window it raises [AttributeError]
    after the setting is written and before any refresh. *)
Theorem toggle_setting_flips (setting : string) (w : World) :
  let key := String.append "git_savvy.diff_view." setting in
  let next := negb (truthy (settings_get key (view w))) in
  (has_window (view w) = false ->
   GsDiffToggleSetting_run setting w
   = (Raise AttributeError,
      mkWorld (settings_set key (VBool next) (view w)) (repo w) (prefs w) (log w)))
  /\ (has_window (view w) = true ->
      (exists more,
          log (snd (GsDiffToggleSetting_run setting w))
          = log w ++ StatusMessage (str setting ++ str " is now " ++ py_str (VBool next))
                  :: more)
      /\ (setting <> "raw_diff"%string ->
          settings_get key (view (snd (GsDiffToggleSetting_run setting w))) = VBool next)
      /\ (forall key',
            key' <> key ->
            key' <> "git_savvy.diff_view.raw_diff"%string ->
            key' <> "git_savvy.disable_diff"%string ->
            settings_get key' (view (snd (GsDiffToggleSetting_run setting w)))
            = settings_get key' (view w))
      /\ GsDiffToggleSetting_run setting w
         = gs_diff_refresh
             (mkWorld (settings_set key (VBool next) (view w)) (repo w) (prefs w)
                (log w ++ [StatusMessage
                             (str setting ++ str " is now " ++ py_str (VBool next))]))
      /\ (disabled (view w) = false ->
          exists rest,
            log (snd (GsDiffToggleSetting_run setting w))
            = log w ++ StatusMessage (str setting ++ str " is now " ++ py_str (VBool next))
                    :: GitCall (diff_args (settings_set key (VBool next) (view w))) None
                    :: rest
            /\ Forall (fun e => is_git_call e = false) rest)).
Proof.
  intros key next.
  set (w1 := mkWorld (settings_set key (VBool next) (view w)) (repo w) (prefs w) (log w)).
  set (msg := str setting ++ str " is now " ++ py_str (VBool next)).
  assert (Hrun : GsDiffToggleSetting_run setting w
    = if has_window (view w)
      then gs_diff_refresh (mkWorld (view w1) (repo w1) (prefs w1) (log w ++ [StatusMessage msg]))
      else (Raise AttributeError, w1)).
  { unfold GsDiffToggleSetting_run. rewrite bindM_get. fold key next.
    rewrite bindM_set. fold w1. fold msg. rewrite bindM_window_status_message.
    cbn [view w1 settings_set has_window]. by destruct (has_window (view w)). }
  split.
  - intros Hwin. by rewrite Hrun, Hwin.
  - intros Hwin. rewrite Hrun, Hwin. split; [|split; [|split; [|split]]].
    + destruct (grows_gs_diff_refresh
                  (mkWorld (view w1) (repo w1) (prefs w1) (log w ++ [StatusMessage msg])))
        as [more Hmore].
      exists more. rewrite Hmore. simpl. by rewrite <- app_assoc.
    + intros Hraw. rewrite refresh_settings_frame;
        [|by apply toggle_key_raw|apply toggle_key_not_flag].
      simpl. rewrite settings_get_set. by rewrite decide_True.
    + intros key' Hne Hraw Hdis. rewrite refresh_settings_frame by done.
      simpl. rewrite settings_get_set. by rewrite decide_False.
    + done.
    + intros Hd.
      destruct (refresh_calls_git_once
                  (mkWorld (view w1) (repo w1) (prefs w1) (log w ++ [StatusMessage msg])))
        as (rest & Hlog & Hrest).
      { cbn [view w1]. unfold disabled in *. rewrite settings_get_set.
        rewrite decide_False; [done|apply toggle_key_not_flag]. }
      exists rest. split; [|done]. rewrite Hlog. cbn [log view w1].
      by rewrite <- app_assoc.
Qed.

(** *** GsDiffToggleCachedMode, the cached-mode branch *)

(** X19: on a view where base and target commit are not both set, the
    toggle command stores the selection as the last cursors and sets the
    cached-mode flag to the negation of its truth value before; both are as
    stored when the command is done, whatever the refresh and the relocation
    of the cursor do. Without a window it raises [AttributeError] once the
    two settings are written, before any refresh. *)
Theorem toggle_cached_mode_flips (w : World) :
  truthy (settings_get "git_savvy.diff_view.base_commit" (view w))
  && truthy (settings_get "git_savvy.diff_view.target_commit" (view w)) = false ->
  let next := negb (truthy (settings_get "git_savvy.diff_view.in_cached_mode" (view w))) in
  let stored :=
    settings_set "git_savvy.diff_view.in_cached_mode" (VBool next)
      (settings_set "git_savvy.diff_view.last_cursors" (pickle_sel (sel (view w))) (view w)) in
  (has_window (view w) = false ->
   GsDiffToggleCachedMode_run w
   = (Raise AttributeError, mkWorld stored (repo w) (prefs w) (log w)))
  /\ (has_window (view w) = true ->
      let final := view (snd (GsDiffToggleCachedMode_run w)) in
      settings_get "git_savvy.diff_view.in_cached_mode" final = VBool next
      /\ settings_get "git_savvy.diff_view.last_cursors" final = pickle_sel (sel (view w))).
Proof.
  intros Hboth next stored.
  set (last_cursors :=
         py_or (settings_get "git_savvy.diff_view.last_cursors" (view w)) (VList [])).
  set (tail :=
    (gs_diff_refresh ;;
     do just_hunked <- get "git_savvy.diff_view.just_hunked";
     let restore : M unit :=
       if truthy last_cursors then
         no_animations
           (do rs <- lift (unpickle_sel last_cursors);
            set_and_show_built rs)
       else ret tt in
     if truthy just_hunked && truthy last_cursors then
       set "git_savvy.diff_view.just_hunked" (VStr []) ;;
       match just_hunked with
       | VStr patch =>
           do v' <- get_view;
           match find_hunk_in_view v' patch with
           | Some region =>
               if Region.truthy region
               then set_and_show_cursor (OnePoint (Region.a region))
               else restore
           | None => restore
           end
       | _ => raise AttributeError
       end
     else restore) : M unit).
  assert (Hrun : GsDiffToggleCachedMode_run w
    = (window_status_message
         (str "Showing " ++ (if next then str "staged" else str "unstaged") ++ str " changes") ;;
       tail) (mkWorld stored (repo w) (prefs w) (log w))).
  { unfold GsDiffToggleCachedMode_run. rewrite !bindM_get, Hboth, bindM_get.
    fold last_cursors. rewrite bindM_get_view, bindM_set, bindM_get. cbn [view].
    rewrite settings_get_set, decide_False by done. fold next.
    rewrite bindM_set. cbn [view repo prefs log]. done. }
  split.
  - intros Hwin. rewrite Hrun, bindM_window_status_message.
    unfold stored, settings_set. cbn [view has_window]. by rewrite Hwin.
  - intros Hwin final.
    assert (Htail : forall key,
               key <> "git_savvy.diff_view.raw_diff"%string ->
               key <> "git_savvy.disable_diff"%string ->
               key <> "git_savvy.diff_view.just_hunked"%string ->
               keeps key tail).
    { intros key Hraw Hdis Hjh. unfold tail.
      apply keeps_bind; [by apply keeps_refresh|intros _].
      apply keeps_bind; [apply keeps_get|intros just_hunked].
      assert (Hrestore : keeps key
                (if truthy last_cursors then
                   no_animations
                     (do rs <- lift (unpickle_sel last_cursors);
                      set_and_show_built rs)
                 else ret tt)).
      { apply keeps_if; [|apply keeps_ret]. apply keeps_no_animations.
        apply keeps_bind; [apply keeps_lift|intros rs; apply keeps_set_and_show_built]. }
      cbv zeta. apply keeps_if; [|done].
      apply keeps_bind; [by apply keeps_set|intros _].
      destruct just_hunked; try apply keeps_raise.
      apply keeps_bind; [apply keeps_get_view|intros v'].
      destruct (find_hunk_in_view v' s) as [region|]; [|done].
      apply keeps_if; [apply keeps_set_and_show_cursor|done]. }
    assert (Hall : forall key,
               key <> "git_savvy.diff_view.raw_diff"%string ->
               key <> "git_savvy.disable_diff"%string ->
               key <> "git_savvy.diff_view.just_hunked"%string ->
               settings_get key final = settings_get key stored).
    { intros key Hraw Hdis Hjh. unfold final. rewrite Hrun.
      assert (Hk : keeps key
                (window_status_message
                   (str "Showing " ++ (if next then str "staged" else str "unstaged")
                    ++ str " changes") ;; tail)).
      { apply keeps_bind; [|intros _; by apply Htail].
        unfold window_status_message. apply keeps_bind; [apply keeps_get_view|intros v0].
        apply keeps_if; [apply keeps_emit|apply keeps_raise]. }
      by rewrite Hk. }
    split; rewrite Hall by done; unfold stored; rewrite !settings_get_set; done.
Qed.

(** *** The animation preference *)

(** X20: around a body that leaves the preferences alone, [no_animations]
    runs the body with animations switched off and then puts the animation
    preference back to what it read before, whether the body returns or
    raises; the outcome is the body's and no other preference changes. *)
Theorem no_animations_restores {A} (body : M A) (w : World) :
  (forall w0, prefs (snd (body w0)) = prefs w0) ->
  let off := mkWorld (view w) (repo w)
               (<["animation_enabled"%string := VBool false]> (prefs w)) (log w) in
  fst (no_animations body w) = fst (body off)
  /\ view (snd (no_animations body w)) = view (snd (body off))
  /\ default VNone (prefs (snd (no_animations body w)) !! "animation_enabled"%string)
     = default VNone (prefs w !! "animation_enabled"%string)
  /\ forall key, key <> "animation_enabled"%string ->
                 prefs (snd (no_animations body w)) !! key = prefs w !! key.
Proof.
  intros Hbody off. unfold no_animations, bindM, finally. cbn [fst snd]. fold off.
  specialize (Hbody off). destruct (body off) as [r w1]. cbn [fst snd view prefs] in *.
  rewrite Hbody. unfold off. cbn [prefs].
  split; [done|]. split; [done|]. split.
  - by rewrite lookup_insert_eq.
  - intros key Hne. by rewrite !lookup_insert_ne.
Qed.

(** *** GsDiffZoom *)

(** X21: zooming by an amount sets the context-line count to the old count
    plus the amount, and to 0 where that would be negative; the count is so
    set whatever the refresh and the relocation do afterwards. With a count
    that is no number (a missing one among them) the command raises
    [TypeError] and changes nothing. *)
Theorem zoom_context_lines (amount : Z) (w : World) :
  (forall sum,
      py_add_int (settings_get "git_savvy.diff_view.context_lines" (view w)) amount = Ok sum ->
      settings_get "git_savvy.diff_view.context_lines"
        (view (snd (GsDiffZoom_run set_iteration amount w)))
      = VInt (Z.max sum 0)
      /\ 0 <= Z.max sum 0)
  /\ (forall e,
        py_add_int (settings_get "git_savvy.diff_view.context_lines" (view w)) amount = Raise e ->
        e = TypeError /\ GsDiffZoom_run set_iteration amount w = (Raise TypeError, w)).
Proof.
  split.
  - intros sum Hsum. split; [|lia].
    unfold GsDiffZoom_run. rewrite bindM_get, bindM_lift, Hsum, bindM_set.
    match goal with |- context [bindM get_view ?k] =>
      assert (Hk : keeps "git_savvy.diff_view.context_lines" (bindM get_view k)) end.
    { apply keeps_bind; [apply keeps_get_view|intros v].
      apply keeps_bind; [apply keeps_lift|intros cur_hunks].
      apply keeps_bind; [by apply keeps_refresh|intros _].
      apply keeps_bind; [apply keeps_get_view|intros v'].
      destruct (relocated_starts v' cur_hunks); [apply keeps_ret|].
      apply keeps_set_and_show_cursor. }
    rewrite Hk. cbn [view]. rewrite settings_get_set. by rewrite decide_True.
  - intros e He.
    assert (e = TypeError) as ->.
    { unfold py_add_int in He.
      destruct (settings_get "git_savvy.diff_view.context_lines" (view w));
        congruence. }
    split; [done|].
    unfold GsDiffZoom_run. by rewrite bindM_get, bindM_lift, He.
Qed.

(** *** The outcomes of a refresh *)


End KeepFacts.

(** * The status view *)

(** ** [sort_status_entries] *)

Lemma sort_status_entry_cases (acc : StatusLists) (f : FileStatus) :
  sort_status_entry acc f
  = mkStatusLists (staged acc ++ if is_staged f then [f] else [])
                  (unstaged acc ++ if is_unstaged f then [f] else [])
                  (untracked acc ++ if is_untracked f then [f] else [])
                  (conflicts acc ++ if in_conflict f then [f] else []).
Proof.
  unfold sort_status_entry, is_staged, is_unstaged, is_untracked, in_conflict.
  destruct acc as [s u t c]. cbn [staged unstaged untracked conflicts].
  rewrite bool_decide_not.
  destruct (bool_decide ((index_status f, working_status f)
                         ∈ MERGE_CONFLICT_PORCELAIN_STATUSES)),
           (bool_decide (index_status f = str "?")),
           (bool_decide (working_status f ∈ [str "M"; str "D"])),
           (bool_decide (index_status f = str " "));
    cbn [negb andb]; by rewrite ?app_nil_r.
Qed.

Lemma sort_status_entries_from (l : list FileStatus) (acc : StatusLists) :
  fold_left sort_status_entry l acc
  = mkStatusLists (staged acc ++ List.filter is_staged l)
                  (unstaged acc ++ List.filter is_unstaged l)
                  (untracked acc ++ List.filter is_untracked l)
                  (conflicts acc ++ List.filter in_conflict l).
Proof.
  revert acc. induction l as [|f l IH]; intros acc.
  - destruct acc. simpl. by rewrite !app_nil_r.
  - cbn [fold_left List.filter]. rewrite IH, sort_status_entry_cases.
    cbn [staged unstaged untracked conflicts]. rewrite <- !app_assoc.
    by destruct (is_staged f), (is_unstaged f), (is_untracked f), (in_conflict f).
Qed.

(** X23: the loop of [sort_status_entries] is four filters of the status
    list, each in the order of the list: the entries with an unmerged status
    pair are the conflicts; of the others, those with index status [?] are
    untracked; of the rest, those modified or deleted in the working tree are
    unstaged and those whose index status is not a blank are staged. So a
    conflict or an untracked entry is in no other list, while an entry can be
    both staged and unstaged. *)
Theorem sort_status_entries_filters (file_status_list : list FileStatus) :
  let sorted := sort_status_entries file_status_list in
  staged sorted = List.filter is_staged file_status_list
  /\ unstaged sorted = List.filter is_unstaged file_status_list
  /\ untracked sorted = List.filter is_untracked file_status_list
  /\ conflicts sorted = List.filter in_conflict file_status_list
  /\ (forall f, f ∈ conflicts sorted ->
        (f ∉ staged sorted) /\ (f ∉ unstaged sorted) /\ (f ∉ untracked sorted))
  /\ (forall f, f ∈ untracked sorted -> (f ∉ staged sorted) /\ (f ∉ unstaged sorted))
  /\ (forall f, f ∈ file_status_list ->
        index_status f = str "M" -> working_status f = str "M" ->
        f ∈ staged sorted /\ f ∈ unstaged sorted).
Proof.
  intros sorted. unfold sorted, sort_status_entries.
  rewrite sort_status_entries_from. cbn [staged unstaged untracked conflicts app].
  repeat split; try done.
  - intros Hs%list_elem_of_In%filter_In. apply list_elem_of_In, filter_In in H.
    destruct H as [_ H], Hs as [_ Hs]. unfold is_staged in Hs. by rewrite H in Hs.
  - intros Hs%list_elem_of_In%filter_In. apply list_elem_of_In, filter_In in H.
    destruct H as [_ H], Hs as [_ Hs]. unfold is_unstaged in Hs. by rewrite H in Hs.
  - intros Hs%list_elem_of_In%filter_In. apply list_elem_of_In, filter_In in H.
    destruct H as [_ H], Hs as [_ Hs]. unfold is_untracked in Hs. by rewrite H in Hs.
  - intros Hs%list_elem_of_In%filter_In. apply list_elem_of_In, filter_In in H.
    destruct H as [_ H], Hs as [_ Hs]. unfold is_staged in Hs. unfold is_untracked in H.
    destruct (in_conflict f); [done|]. by destruct (bool_decide (index_status f = str "?")).
  - intros Hs%list_elem_of_In%filter_In. apply list_elem_of_In, filter_In in H.
    destruct H as [_ H], Hs as [_ Hs]. unfold is_unstaged in Hs. unfold is_untracked in H.
    destruct (in_conflict f); [done|]. by destruct (bool_decide (index_status f = str "?")).
  - apply list_elem_of_In, filter_In. split; [by apply list_elem_of_In|].
    unfold is_staged, in_conflict. rewrite H0, H1. by vm_compute.
  - apply list_elem_of_In, filter_In. split; [by apply list_elem_of_In|].
    unfold is_unstaged, in_conflict. rewrite H0, H1. by vm_compute.
Qed.

(** ** Stash lines *)

Lemma py_find_from_skip (c : ascii) (pos : Z) (s r : text) :
  c ∉ s -> py_find_from c pos (s ++ c :: r) = pos + len s.
Proof.
  revert pos. induction s as [|x s IH]; intros pos Hc; simpl.
  - unfold ascii_eqb. rewrite Ascii.eqb_refl. unfold len. simpl. lia.
  - apply not_elem_of_cons in Hc as [Hx Hc]. unfold ascii_eqb.
    destruct (Ascii.eqb x c) eqn:He; [by apply Ascii.eqb_eq in He|].
    rewrite IH by done. unfold len. simpl length. lia.
Qed.

Lemma py_find_from_absent (c : ascii) (pos : Z) (s : text) :
  c ∉ s -> py_find_from c pos s = -1.
Proof.
  revert pos. induction s as [|x s IH]; intros pos Hc; simpl; [done|].
  apply not_elem_of_cons in Hc as [Hx Hc]. unfold ascii_eqb.
  destruct (Ascii.eqb x c) eqn:He; [by apply Ascii.eqb_eq in He|]. by apply IH.
Qed.

Lemma stash_id_of_stash_line (stash : Stash) :
  ")"%char ∉ stash_id stash ->
  stash_id_of_line (stash_line stash) = stash_id stash.
Proof.
  intros Hid. unfold stash_id_of_line, stash_line.
  set (id := stash_id stash) in *. set (rest := str " " ++ description stash).
  change (str "    (" ++ id ++ str ") " ++ description stash)
    with (str "    (" ++ id ++ ")"%char :: rest).
  assert (Hopen : py_find "("%char (str "    (" ++ id ++ ")"%char :: rest) = 4) by done.
  assert (Hclose : py_find ")"%char (str "    (" ++ id ++ ")"%char :: rest) = 5 + len id).
  { unfold py_find. rewrite app_assoc, py_find_from_skip.
    - unfold len. rewrite length_app. simpl length. lia.
    - intros [Hin|Hin]%elem_of_app; [|done].
      revert Hin. rewrite list_elem_of_In. vm_compute. intuition discriminate. }
  rewrite Hopen, Hclose. unfold py_slice, len.
  rewrite !length_app. simpl length.
  change (4 + 1 <? 0) with false.
  rewrite (proj2 (Z.ltb_ge (5 + Z.of_nat (length id)) 0)) by lia. cbv iota.
  rewrite !Z.min_l by lia.
  replace (Z.to_nat (5 + Z.of_nat (length id) - (4 + 1))) with (length id) by lia.
  change (Z.to_nat (4 + 1)) with 5%nat. change (drop 5 (str "    (" ++ id ++ ")"%char :: rest))
    with (id ++ ")"%char :: rest).
  by rewrite take_app_length.
Qed.

(** X24: the line [get_stashes_contents] writes for a stash gives the
    stash's id back to the stash commands, provided the id holds no closing
    parenthesis: the text between the first ["("] and the first [")"] of the
    line is the id, and the apply command run on that line applies that
    stash and refreshes. *)
Theorem stash_line_round_trip (stash : Stash) :
  ")"%char ∉ stash_id stash ->
  stash_id_of_line (stash_line stash) = stash_id stash
  /\ GgStatusApplyStashCommand_run [stash_line stash]
     = Ok [ApplyStash (stash_id stash); StatusRefresh].
Proof.
  intros Hid. split; [by apply stash_id_of_stash_line|].
  unfold GgStatusApplyStashCommand_run, stash_ids.
  assert (Hne : stash_line stash <> []) by done.
  rewrite filter_cons_True, filter_nil by done.
  cbn [map]. by rewrite stash_id_of_stash_line.
Qed.

(** X24, at an input: the line of stash 0. *)
Lemma stash_line_round_trip_witness :
  stash_id_of_line (stash_line (mkStash (str "0") (str "WIP on master"))) = str "0"
  /\ GgStatusApplyStashCommand_run [stash_line (mkStash (str "0") (str "WIP on master"))]
     = Ok [ApplyStash (str "0"); StatusRefresh].
Proof.
  apply (stash_line_round_trip (mkStash (str "0") (str "WIP on master"))).
  rewrite list_elem_of_In. vm_compute. intuition discriminate.
Defined.

(** X25: the apply command looks at the selected lines that are not empty.
    With none it raises [IndexError] and applies nothing; with one it
    applies the stash the line names and refreshes; with more it shows a
    message and applies nothing. A line without parentheses, such as a file
    line of the same view, names its own text less the last character. *)
Theorem apply_stash_outcomes (lines : list text) :
  (Forall (fun line => line = []) lines ->
   GgStatusApplyStashCommand_run lines = Raise IndexError)
  /\ (forall line,
        filter (fun line => line <> []) lines = [line] ->
        GgStatusApplyStashCommand_run lines
        = Ok [ApplyStash (stash_id_of_line line); StatusRefresh])
  /\ (forall line1 line2 more,
        filter (fun line => line <> []) lines = line1 :: line2 :: more ->
        GgStatusApplyStashCommand_run lines
        = Ok [SublimeStatusMessage (str "You can only apply one stash at a time.")])
  /\ (forall line,
        "("%char ∉ line -> ")"%char ∉ line ->
        stash_id_of_line line = removelast line).
Proof.
  unfold GgStatusApplyStashCommand_run, stash_ids. repeat split.
  - intros Hall. replace (filter (fun line => line <> []) lines) with (@nil text); [done|].
    symmetry. induction Hall as [|x l Hx Hall IH]; [done|].
    by rewrite filter_cons_False by (by intros Hn).
  - by intros line ->.
  - intros line1 line2 more ->. cbn [map]. unfold len. cbn [length].
    by rewrite (proj2 (Z.ltb_lt 1 _)) by lia.
  - intros line Hopen Hclose. unfold stash_id_of_line, py_find.
    rewrite !py_find_from_absent by done. unfold py_slice, len. cbn [Z.add Z.opp].
    change (-1 + 1) with 0. change (0 <? 0) with false. change (-1 <? 0) with true. cbv iota.
    rewrite Z.min_l by lia. change (Z.to_nat 0) with 0%nat. rewrite drop_0.
    destruct line as [|c line] using rev_ind; [done|].
    rewrite removelast_last, length_app. simpl length.
    replace (Z.to_nat (Z.max 0 (Z.of_nat (length line + 1) + -1) - 0)) with (length line) by lia.
    by rewrite take_app_length.
Qed.

(** ** The contents of the status view *)

(** The text a section adds to the status text. *)
Lemma add_section_text (template : text -> text) (files : list FileStatus)
    (cursor : Z) (status_text : text) :
  exists section_text,
    add_section template files (cursor, status_text)
    = (cursor + len section_text, status_text ++ section_text,
       match files with
       | [] => Region.mk 0 0
       | _ => Region.mk cursor (cursor + len section_text)
       end)
    /\ section_text = match files with [] => [] | _ => template (path_lines files) end.
Proof.
  destruct files as [|f files].
  - exists []. unfold add_section, len. simpl. by rewrite Z.add_0_r, app_nil_r.
  - by eexists.
Qed.

Lemma substr_middle (before middle after : text) :
  substr (before ++ middle ++ after)
         (Region.mk (len before) (len before + len middle)) = middle.
Proof.
  unfold substr, Region.begin_, Region.end_, len. cbn [Region.a Region.b].
  rewrite Z.min_l, Z.max_r by lia.
  replace (Z.to_nat (Z.of_nat (length before) + Z.of_nat (length middle))
           - Z.to_nat (Z.of_nat (length before)))%nat with (length middle) by lia.
  rewrite Nat2Z.id, drop_app_length. by rewrite take_app_length.
Qed.

Lemma section_shown_in (header s_before s s_after tail : text)
    (template : text -> text) (files : list FileStatus) (cursor : Z) (T : text) :
  s = match files with [] => [] | _ => template (path_lines files) end ->
  (files <> [] -> s <> []) ->
  cursor = len header + len s_before ->
  T = s_before ++ s ++ s_after ->
  section_shown
    (header ++ match T with [] => NO_STATUS_MESSAGE | _ => T end ++ tail)
    template files
    match files with
    | [] => Region.mk 0 0
    | _ => Region.mk cursor (cursor + len s)
    end.
Proof.
  intros Hs Hfull Hcursor HT. destruct files as [|f files]; [done|].
  assert (Hne : s <> []) by (by apply Hfull).
  assert (HT' : match T with [] => NO_STATUS_MESSAGE | _ => T end = T).
  { destruct T as [|c T]; [|done]. by destruct s_before, s. }
  rewrite HT'. unfold section_shown. split.
  - cbn [Region.a Region.b]. unfold len. lia.
  - rewrite <- Hs, HT, Hcursor.
    replace (header ++ (s_before ++ s ++ s_after) ++ tail)
      with ((header ++ s_before) ++ s ++ (s_after ++ tail)) by (by rewrite <- !app_assoc).
    replace (len header + len s_before) with (len (header ++ s_before))
      by (unfold len; rewrite length_app; lia).
    apply substr_middle.
Qed.

(** X26: in the contents [get_contents] builds, each of the four regions it
    returns delimits the text of its section (the template filled with the
    section's paths, four blanks before each), and a section without files
    has the empty region at 0. The contents begin with the header; when no
    section has a file, the clean-directory message stands in their place. *)
Theorem get_contents_regions (branch_status repo_root : text)
    (file_status_list : list FileStatus) (stash_list : list Stash) :
  let sorted := sort_status_entries file_status_list in
  let result := get_contents branch_status repo_root file_status_list stash_list in
  let contents := fst result in
  let '(unstaged_region, conflicts_region, untracked_region, staged_region) := snd result in
  section_shown contents UNSTAGED_TEMPLATE (unstaged sorted) unstaged_region
  /\ section_shown contents MERGE_CONFLICTS_TEMPLATE (conflicts sorted) conflicts_region
  /\ section_shown contents UNTRACKED_TEMPLATE (untracked sorted) untracked_region
  /\ section_shown contents STAGED_TEMPLATE (staged sorted) staged_region
  /\ (exists rest, contents = STATUS_HEADER_TEMPLATE branch_status repo_root ++ rest)
  /\ (unstaged sorted = [] -> conflicts sorted = [] -> untracked sorted = [] ->
      staged sorted = [] ->
      contents = STATUS_HEADER_TEMPLATE branch_status repo_root ++ NO_STATUS_MESSAGE
                 ++ get_stashes_contents stash_list ++ KEY_BINDINGS_MENU).
Proof.
  intros sorted result contents. unfold contents, result, get_contents. fold sorted.
  set (header := STATUS_HEADER_TEMPLATE branch_status repo_root).
  set (tail := get_stashes_contents stash_list ++ KEY_BINDINGS_MENU).
  destruct (add_section_text UNSTAGED_TEMPLATE (unstaged sorted) (len header) [])
    as (s1 & -> & Hs1).
  destruct (add_section_text MERGE_CONFLICTS_TEMPLATE (conflicts sorted)
              (len header + len s1) ([] ++ s1)) as (s2 & -> & Hs2).
  destruct (add_section_text UNTRACKED_TEMPLATE (untracked sorted)
              (len header + len s1 + len s2) (([] ++ s1) ++ s2)) as (s3 & -> & Hs3).
  destruct (add_section_text STAGED_TEMPLATE (staged sorted)
              (len header + len s1 + len s2 + len s3) ((([] ++ s1) ++ s2) ++ s3))
    as (s4 & -> & Hs4).
  cbn [fst snd app].
  set (T := ((s1 ++ s2) ++ s3) ++ s4).
  assert (Hlen : forall x y : text, len (x ++ y) = len x + len y).
  { intros x y. unfold len. rewrite length_app. lia. }
  repeat split.
  - apply (section_shown_in header [] s1 (s2 ++ s3 ++ s4)); try done;
      try (unfold T; by rewrite <- ?app_assoc).
    intros Hne ->. by destruct (unstaged sorted).
  - apply (section_shown_in header s1 s2 (s3 ++ s4)); try done;
      try (unfold T; by rewrite <- ?app_assoc).
    intros Hne ->. by destruct (conflicts sorted).
  - apply (section_shown_in header (s1 ++ s2) s3 s4); try done;
      try (rewrite ?Hlen; lia); try (unfold T; by rewrite <- ?app_assoc).
    intros Hne ->. by destruct (untracked sorted).
  - apply (section_shown_in header ((s1 ++ s2) ++ s3) s4 []); try done;
      try (rewrite ?Hlen; lia); try (unfold T; by rewrite ?app_nil_r).
    intros Hne ->. by destruct (staged sorted).
  - by eexists.
  - intros H1 H2 H3 H4. unfold T. rewrite Hs1, Hs2, Hs3, Hs4, H1, H2, H3, H4. done.
Qed.

(** * The further facts at the worked inputs *)

(** X13, at an input: the cursor in the prelude of [buffer_example]. *)
Lemma stage_outside_hunks_witness :
  @GsDiffStageOrResetHunkCommand_run example_host false (world_example [10])
  = (Ok tt,
     @mkWorld example_host (view_example [10]) [] ∅
       [StatusMessage (str "Not within a hunk")]).
Proof.
  apply (@stage_outside_hunks example_host false (world_example [10]) eq_refl).
  change (cursor_pts_of (view (world_example [10]))) with [10].
  change (hunks (parse_diff_in_view (view (world_example [10]))))
    with [(70, 88); (88, 106); (141, 160)].
  constructor; [|constructor].
  intros hunk Hin. unfold holds.
  repeat (apply elem_of_cons in Hin as [->|Hin]; [simpl; lia|]).
  by apply elem_of_nil in Hin.
Defined.

(** X14, at an input: an apply that [git] refuses. *)
Lemma apply_patch_failure_witness :
  view (snd (@apply_patch undecodable_host patch_example [80] false
               (world_undecodable (view_example [80]))))
  = view_example [80].
Proof.
  exact (proj2 (@apply_patch_failure undecodable_host patch_example [80] false
                  (world_undecodable (view_example [80])) (GitSavvyError true) eq_refl)).
Defined.

(** X15, at an input: staging the first hunk of [buffer_example] records
    one undo entry. *)
Lemma apply_patch_success_witness :
  let final := view (snd (@apply_patch example_host patch_example [80] false
                            (world_example [80]))) in
  settings_get "git_savvy.diff_view.history" final
  = VList [undo_entry
             [VStr (str "apply"); VNone; VStr (str "--cached"); VNone; VStr (str "-")]
             patch_example [80] (VBool false)]
  /\ settings_get "git_savvy.diff_view.just_hunked" final = VStr patch_example.
Proof.
  exact (proj1 (@apply_patch_success example_host patch_example [80] false
                  (world_example [80]) [] eq_refl) [] eq_refl).
Defined.

(** X16, at an input: undo in a fresh diff view. *)
Lemma undo_empty_history_witness :
  @GsDiffUndo_run example_host (world_example [80])
  = (Ok tt,
     @mkWorld example_host (view_example [80]) [] ∅
       [StatusMessage (str "Undo stack is empty")]).
Proof.
  exact (@undo_empty_history example_host (world_example [80]) eq_refl).
Defined.

(** X17, at an input: undo after the first hunk of [buffer_example] was
    staged. *)
Lemma undo_reverses_last_entry_witness :
  let staged_world :=
    snd (@apply_patch example_host patch_example [80] false (world_example [80])) in
  let final := view (snd (@GsDiffUndo_run example_host staged_world)) in
  settings_get "git_savvy.diff_view.history" final = VList []
  /\ settings_get "git_savvy.diff_view.just_hunked" final = VStr patch_example.
Proof.
  exact (proj1 (proj2 (proj2
           (@undo_reverses_last_entry example_host
              (snd (@apply_patch example_host patch_example [80] false (world_example [80])))
              []
              [VStr (str "apply"); VNone; VStr (str "--cached"); VNone; VStr (str "-")]
              patch_example (VList [VInt 80]) (VBool false) VNone eq_refl eq_refl)))
           [] eq_refl).
Defined.

(** X19, at an input: toggling a fresh diff view into cached mode. *)
Lemma toggle_cached_mode_flips_witness :
  let final := view (snd (@GsDiffToggleCachedMode_run example_host (world_example [80]))) in
  settings_get "git_savvy.diff_view.in_cached_mode" final = VBool true
  /\ settings_get "git_savvy.diff_view.last_cursors" final
     = pickle_sel [Region.mk 80 80].
Proof.
  exact (proj2 (@toggle_cached_mode_flips example_host (world_example [80]) eq_refl)
           eq_refl).
Defined.

(** X20, at an input: a refresh without animations. *)
Lemma no_animations_restores_witness :
  default VNone
    (prefs (snd (@no_animations example_host unit (@gs_diff_refresh example_host)
                   (world_example [80])))
     !! "animation_enabled"%string)
  = VNone.
Proof.
  refine (proj1 (proj2 (proj2
            (@no_animations_restores example_host unit (@gs_diff_refresh example_host)
               (world_example [80]) _)))).
  intros w0. unfold gs_diff_refresh, GsDiffRefreshCommand__run, bindM, get, get_view,
    call_git, set, set_view, gs_replace_view_text, gs_diff_navigate, emit, ret, raise.
  simpl. repeat (match goal with |- context [if ?c then _ else _] => destruct c end; simpl);
    reflexivity.
Defined.

